(** * ESP32-Logger: a shallow embedding of the logging engine

    The development follows [src/Logger.h], [src/Logger.cpp],
    [src/LoggerConfig.h] and [src/NonBlockingConsoleBackend.h].

    Conventions.
    - [uint32_t] and [size_t] (32 bits on the ESP32) are integers in [Z]
      with the wrap-around written out through [u32].
    - A [const char*] argument is an [option cstring]: [None] is the null
      pointer, [Some s] points to the characters [s] that precede the
      terminating NUL (so [s] itself holds no NUL).
    - A [char] array that is written field by field (the queued subscriber
      message) is a [list ascii] of the array's size, NULs included.
    - A FreeRTOS handle is a [bool]: [true] when the handle is non-null.
      The result of [xSemaphoreTake] depends on the other tasks; it is an
      input of the operation that takes the lock.
    - External effects (a write handed to a backend, a subscriber callback
      run on the caller's thread, a call into the ESP-IDF log facility) are
      collected in a list of events; what a backend or a callback does with
      the call is outside the model.
    - One operation is one uninterrupted call: the interleaving of several
      tasks shows only through the results of taking the locks. *)

From Stdlib Require Import ZArith Ascii String DecimalString Lia Bool.
From stdpp Require Import base tactics option list strings.

Local Open Scope Z_scope.

(** ** Machine integers *)

Definition u32 (x : Z) : Z := x mod 2 ^ 32.

Definition is_u32 (x : Z) : Prop := 0 <= x < 2 ^ 32.

(** [std::atomic<uint32_t>::fetch_add]: the stored value after the call. *)
Definition fetch_add (counter delta : Z) : Z := u32 (counter + delta).

(** ** C strings *)

Abbreviation cstring := (list ascii).

Definition lit (s : string) : cstring := list_ascii_of_string s.

Definition NUL : ascii := Ascii.zero.
Definition CR : ascii := ascii_of_nat 13.
Definition LF : ascii := ascii_of_nat 10.

Definition uchar (c : ascii) : Z := Z.of_N (N_of_ascii c).

(** [strlen] of a well-formed string. *)
Definition strlen (s : cstring) : Z := Z.of_nat (length s).

(** [strncmp(a, b, n)]: the sign of the first difference among the first
    [n] characters, the end of a string standing for its NUL. *)
Fixpoint strncmp (a b : cstring) (n : nat) : Z :=
  match n with
  | O => 0
  | S n' =>
      match a, b with
      | [], [] => 0
      | [], _ :: _ => -1
      | _ :: _, [] => 1
      | x :: a', y :: b' =>
          if Ascii.eqb x y then strncmp a' b' n'
          else if uchar x <? uchar y then -1 else 1
      end
  end.

(** The string held by a [char] array: the characters before the first NUL. *)
Fixpoint cstr_of (arr : list ascii) : cstring :=
  match arr with
  | [] => []
  | c :: rest => if Ascii.eqb c NUL then [] else c :: cstr_of rest
  end.

(** [strncpy(dst, src, n)]: the first [n] cells of [dst] receive the
    characters of [src], padded with NULs; the other cells are kept. *)
Definition strncpy (dst : list ascii) (src : cstring) (n : nat) : list ascii :=
  take n (src ++ replicate n NUL) ++ drop n dst.

(** ** Log levels ([esp_log_level_t]) *)

Inductive esp_log_level_t :=
| ESP_LOG_NONE
| ESP_LOG_ERROR
| ESP_LOG_WARN
| ESP_LOG_INFO
| ESP_LOG_DEBUG
| ESP_LOG_VERBOSE.

Definition level_value (l : esp_log_level_t) : Z :=
  match l with
  | ESP_LOG_NONE => 0
  | ESP_LOG_ERROR => 1
  | ESP_LOG_WARN => 2
  | ESP_LOG_INFO => 3
  | ESP_LOG_DEBUG => 4
  | ESP_LOG_VERBOSE => 5
  end.

(** [a <= b] on the enumeration. *)
Definition level_le (a b : esp_log_level_t) : bool :=
  level_value a <=? level_value b.

Definition is_none (l : esp_log_level_t) : bool :=
  match l with ESP_LOG_NONE => true | _ => false end.

Definition levelToString (l : esp_log_level_t) : cstring :=
  match l with
  | ESP_LOG_NONE => lit "N"
  | ESP_LOG_ERROR => lit "E"
  | ESP_LOG_WARN => lit "W"
  | ESP_LOG_INFO => lit "I"
  | ESP_LOG_DEBUG => lit "D"
  | ESP_LOG_VERBOSE => lit "V"
  end.

(** ** Configuration constants *)

Definition CONFIG_LOG_BUFFER_SIZE : nat := 256.
Definition CONFIG_LOG_MAX_TAGS : nat := 32.
Definition CONFIG_LOG_BUFFER_POOL_SIZE : nat := 8.
Definition CONFIG_LOG_SUBSCRIBER_QUEUE_SIZE : nat := 16.
Definition CONFIG_LOG_SUBSCRIBER_TAG_SIZE : nat := 32.
Definition CONFIG_LOG_SUBSCRIBER_MSG_SIZE : nat := 200.
Definition MAX_LOGS_PER_SECOND : Z := 100.
Definition MAX_SUBSCRIBERS : nat := 4.
Definition RATE_LIMIT_WINDOW_MS : Z := 1000.

(** ** Observable effects *)

Inductive Event :=
| BackendWrite (backend : nat) (buffer : cstring) (len : Z)
    (* backend->write(buffer, len) *)
| SubscriberCall (callback : nat) (level : esp_log_level_t)
    (tag message : option cstring)
    (* a callback run synchronously on the caller's thread *)
| EspLogWrite (level : esp_log_level_t) (tag : option cstring)
    (message : cstring)
    (* esp_log_write(level, tag, "%s", message) *)
| EspLogLevelSet (tag : cstring) (level : esp_log_level_t).
    (* esp_log_level_set(tag, level) *)

(** ** BufferPool *)

Module BufferPool.

Definition BUFFER_SIZE : nat := CONFIG_LOG_BUFFER_SIZE.

(** [pool[i].inUse] for each slot, and whether [poolMutex] was created. *)
Record t := Build {
  inUse : list bool;
  poolMutex : bool
}.

(** What [acquire] hands out: the data of a pool slot or a heap block. *)
Inductive handle :=
| Slot (i : nat)
| Heap.

Record AcquireEnv := {
  take_pool : bool;   (* xSemaphoreTake(poolMutex, ...) == pdTRUE *)
  malloc_ok : bool    (* malloc returned a block *)
}.

Definition malloc (ok : bool) : option handle :=
  if ok then Some Heap else None.

(** The first slot whose flag the compare-and-swap flips. *)
Fixpoint first_free (flags : list bool) : option nat :=
  match flags with
  | [] => None
  | false :: _ => Some O
  | true :: rest => S <$> first_free rest
  end.

Definition acquire (e : AcquireEnv) (p : t) : option handle * t :=
  if negb (poolMutex p) then (malloc (malloc_ok e), p)
  else if take_pool e then
    match first_free (inUse p) with
    | Some i => (Some (Slot i), Build (<[i := true]> (inUse p)) (poolMutex p))
    | None => (malloc (malloc_ok e), p)
    end
  else (malloc (malloc_ok e), p).

Definition release (buffer : option handle) (p : t) : t :=
  match buffer with
  | None => p
  | Some (Slot i) => Build (<[i := false]> (inUse p)) (poolMutex p)
  | Some Heap => p
  end.

(** The pool of a freshly constructed singleton. *)
Definition fresh (scheduler_started : bool) : t :=
  Build (replicate CONFIG_LOG_BUFFER_POOL_SIZE false) scheduler_started.

End BufferPool.

(** ** The logger's state *)

(** [struct LogSubscriberMessage]: the two [char] arrays cell by cell. *)
Record LogSubscriberMessage := {
  msg_level : esp_log_level_t;
  msg_tag : list ascii;
  msg_message : list ascii
}.

(** [struct TagLevel]: the string held by [tag] and the override. *)
Record TagLevel := {
  tl_tag : cstring;
  tl_level : esp_log_level_t
}.

(** The members of [class Logger] read or written by the operations below.
    A backend or a callback is the number that identifies it; [None] is the
    empty pointer. *)
Record Logger := {
  globalLogLevel : esp_log_level_t;
  isLoggingEnabled : bool;
  backends : list (option nat);
  backendMutex : bool;
  subscribers : list (option nat);
  subscriberCount : nat;
  subscriberMutex : bool;
  subscriberQueue : option (list LogSubscriberMessage);
  tagLevels_ : list TagLevel;
  tagLevelCount_ : nat;
  tagMutex : bool;
  maxLogsPerSecond : Z;
  rateLimitMutex : bool;
  lastLogTime : Z;
  logCounter : Z;
  droppedLogs : Z;
  mutexTimeouts_ : Z
}.

Definition with_tags (lg : Logger) (tags : list TagLevel) (count : nat) : Logger :=
  {| globalLogLevel := globalLogLevel lg;
     isLoggingEnabled := isLoggingEnabled lg;
     backends := backends lg;
     backendMutex := backendMutex lg;
     subscribers := subscribers lg;
     subscriberCount := subscriberCount lg;
     subscriberMutex := subscriberMutex lg;
     subscriberQueue := subscriberQueue lg;
     tagLevels_ := tags;
     tagLevelCount_ := count;
     tagMutex := tagMutex lg;
     maxLogsPerSecond := maxLogsPerSecond lg;
     rateLimitMutex := rateLimitMutex lg;
     lastLogTime := lastLogTime lg;
     logCounter := logCounter lg;
     droppedLogs := droppedLogs lg;
     mutexTimeouts_ := mutexTimeouts_ lg |}.

Definition with_subscribers (lg : Logger) (subs : list (option nat)) (count : nat) : Logger :=
  {| globalLogLevel := globalLogLevel lg;
     isLoggingEnabled := isLoggingEnabled lg;
     backends := backends lg;
     backendMutex := backendMutex lg;
     subscribers := subs;
     subscriberCount := count;
     subscriberMutex := subscriberMutex lg;
     subscriberQueue := subscriberQueue lg;
     tagLevels_ := tagLevels_ lg;
     tagLevelCount_ := tagLevelCount_ lg;
     tagMutex := tagMutex lg;
     maxLogsPerSecond := maxLogsPerSecond lg;
     rateLimitMutex := rateLimitMutex lg;
     lastLogTime := lastLogTime lg;
     logCounter := logCounter lg;
     droppedLogs := droppedLogs lg;
     mutexTimeouts_ := mutexTimeouts_ lg |}.

Definition with_queue (lg : Logger) (q : option (list LogSubscriberMessage)) : Logger :=
  {| globalLogLevel := globalLogLevel lg;
     isLoggingEnabled := isLoggingEnabled lg;
     backends := backends lg;
     backendMutex := backendMutex lg;
     subscribers := subscribers lg;
     subscriberCount := subscriberCount lg;
     subscriberMutex := subscriberMutex lg;
     subscriberQueue := q;
     tagLevels_ := tagLevels_ lg;
     tagLevelCount_ := tagLevelCount_ lg;
     tagMutex := tagMutex lg;
     maxLogsPerSecond := maxLogsPerSecond lg;
     rateLimitMutex := rateLimitMutex lg;
     lastLogTime := lastLogTime lg;
     logCounter := logCounter lg;
     droppedLogs := droppedLogs lg;
     mutexTimeouts_ := mutexTimeouts_ lg |}.

(** The rate limiter's members, with the two counters. *)
Definition with_rate (lg : Logger) (maxLogs : Z) (last counter dropped : Z) : Logger :=
  {| globalLogLevel := globalLogLevel lg;
     isLoggingEnabled := isLoggingEnabled lg;
     backends := backends lg;
     backendMutex := backendMutex lg;
     subscribers := subscribers lg;
     subscriberCount := subscriberCount lg;
     subscriberMutex := subscriberMutex lg;
     subscriberQueue := subscriberQueue lg;
     tagLevels_ := tagLevels_ lg;
     tagLevelCount_ := tagLevelCount_ lg;
     tagMutex := tagMutex lg;
     maxLogsPerSecond := maxLogs;
     rateLimitMutex := rateLimitMutex lg;
     lastLogTime := last;
     logCounter := counter;
     droppedLogs := dropped;
     mutexTimeouts_ := mutexTimeouts_ lg |}.

Definition with_mutexTimeouts (lg : Logger) (n : Z) : Logger :=
  {| globalLogLevel := globalLogLevel lg;
     isLoggingEnabled := isLoggingEnabled lg;
     backends := backends lg;
     backendMutex := backendMutex lg;
     subscribers := subscribers lg;
     subscriberCount := subscriberCount lg;
     subscriberMutex := subscriberMutex lg;
     subscriberQueue := subscriberQueue lg;
     tagLevels_ := tagLevels_ lg;
     tagLevelCount_ := tagLevelCount_ lg;
     tagMutex := tagMutex lg;
     maxLogsPerSecond := maxLogsPerSecond lg;
     rateLimitMutex := rateLimitMutex lg;
     lastLogTime := lastLogTime lg;
     logCounter := logCounter lg;
     droppedLogs := droppedLogs lg;
     mutexTimeouts_ := n |}.

(** [Logger::Logger(backend)]: [createMutexSafe] returns a mutex only when
    the scheduler has started; the tag array is zeroed. *)
Definition createMutexSafe (scheduler_started : bool) : bool := scheduler_started.

Definition new_Logger (scheduler_started : bool) (backend : nat) : Logger :=
  {| globalLogLevel := ESP_LOG_INFO;
     isLoggingEnabled := true;
     backends := [Some backend];
     backendMutex := createMutexSafe scheduler_started;
     subscribers := replicate MAX_SUBSCRIBERS None;
     subscriberCount := 0;
     subscriberMutex := createMutexSafe scheduler_started;
     subscriberQueue := None;
     tagLevels_ := replicate CONFIG_LOG_MAX_TAGS (Build_TagLevel [] ESP_LOG_NONE);
     tagLevelCount_ := 0;
     tagMutex := createMutexSafe scheduler_started;
     maxLogsPerSecond := MAX_LOGS_PER_SECOND;
     rateLimitMutex := createMutexSafe scheduler_started;
     lastLogTime := 0;
     logCounter := 0;
     droppedLogs := 0;
     mutexTimeouts_ := 0 |}.

(** ** Tag-level table *)

(** The scan [for (i = 0; i < count; i++) if (strncmp(tagLevels_[i].tag,
    tag, CONFIG_LOG_SUBSCRIBER_TAG_SIZE) == 0) ...] over the live entries:
    the index of the first match. *)
Fixpoint find_tag (entries : list TagLevel) (tag : cstring) : option nat :=
  match entries with
  | [] => None
  | e :: rest =>
      if strncmp (tl_tag e) tag CONFIG_LOG_SUBSCRIBER_TAG_SIZE =? 0 then Some O
      else S <$> find_tag rest tag
  end.

(** The same scan when only the level of the first match is kept. *)
Fixpoint scan_level (entries : list TagLevel) (tag : cstring)
  : option esp_log_level_t :=
  match entries with
  | [] => None
  | e :: rest =>
      if strncmp (tl_tag e) tag CONFIG_LOG_SUBSCRIBER_TAG_SIZE =? 0
      then Some (tl_level e)
      else scan_level rest tag
  end.

Definition live_tags (lg : Logger) : list TagLevel :=
  take (tagLevelCount_ lg) (tagLevels_ lg).

Definition set_level (level : esp_log_level_t) (e : TagLevel) : TagLevel :=
  {| tl_tag := tl_tag e; tl_level := level |}.

(** The lambda [doSetTagLevel] of [Logger::setTagLevel]. *)
Definition doSetTagLevel (lg : Logger) (tag : cstring) (tagLen : nat)
    (level : esp_log_level_t) : Logger * list Event :=
  let count := tagLevelCount_ lg in
  match find_tag (take count (tagLevels_ lg)) tag with
  | Some i =>
      (with_tags lg (alter (set_level level) i (tagLevels_ lg)) count,
       [EspLogLevelSet tag level])
  | None =>
      if (count <? CONFIG_LOG_MAX_TAGS)%nat then
        (with_tags lg
           (<[count := {| tl_tag := take tagLen tag; tl_level := level |}]>
              (tagLevels_ lg))
           (S count),
         [EspLogLevelSet tag level])
      else (lg, [])
  end.

(** [Logger::setTagLevel]; [take_ok] is the result of taking [tagMutex]. *)
Definition setTagLevel (take_ok : bool) (lg : Logger) (tag : option cstring)
    (level : esp_log_level_t) : Logger * list Event :=
  match tag with
  | None => (lg, [])
  | Some t =>
      if strlen t =? 0 then (lg, [])
      else
        let tagLen :=
          if (CONFIG_LOG_SUBSCRIBER_TAG_SIZE <=? length t)%nat
          then (CONFIG_LOG_SUBSCRIBER_TAG_SIZE - 1)%nat
          else length t in
        if negb (tagMutex lg) then doSetTagLevel lg t tagLen level
        else if take_ok then doSetTagLevel lg t tagLen level
        else (with_mutexTimeouts lg (fetch_add (mutexTimeouts_ lg) 1), [])
  end.

(** [Logger::getTagLevel]. *)
Definition getTagLevel (take_ok : bool) (lg : Logger) (tag : option cstring)
  : esp_log_level_t :=
  match tag with
  | None => globalLogLevel lg
  | Some t =>
      let level := globalLogLevel lg in
      if negb (tagMutex lg) then level
      else if take_ok then
        match scan_level (live_tags lg) t with
        | Some l => l
        | None => level
        end
      else level
  end.

(** [Logger::isLevelEnabledForTag]. *)
Definition isLevelEnabledForTag (take_ok : bool) (lg : Logger)
    (tag : option cstring) (level : esp_log_level_t) : bool :=
  if negb (isLoggingEnabled lg) then false
  else if is_none level then false
  else
    match tag with
    | None => level_le level (globalLogLevel lg)
    | Some t =>
        let effectiveLevel :=
          if tagMutex lg then
            if take_ok then
              match scan_level (live_tags lg) t with
              | Some l => l
              | None => globalLogLevel lg
              end
            else globalLogLevel lg
          else globalLogLevel lg in
        level_le level effectiveLevel
    end.

(** ** Rate limiter *)

(** [uint32_t elapsed = currentTime - lastLogTime;] *)
Definition elapsed_ms (currentTime lastTime : Z) : Z :=
  u32 (currentTime - lastTime).

(** [Logger::checkRateLimit]; [take_ok] is the result of taking
    [rateLimitMutex] and [now] the value of [millis()]. *)
Definition checkRateLimit (take_ok : bool) (now : Z) (lg : Logger)
  : bool * Logger :=
  let maxPerSec := maxLogsPerSecond lg in
  if maxPerSec =? 0 then (true, lg)
  else if negb (rateLimitMutex lg) then (true, lg)
  else if take_ok then
    let currentTime := now in
    let elapsed := elapsed_ms currentTime (lastLogTime lg) in
    if RATE_LIMIT_WINDOW_MS <=? elapsed then
      (true, with_rate lg maxPerSec currentTime 1 (droppedLogs lg))
    else if logCounter lg <? maxPerSec then
      (true, with_rate lg maxPerSec (lastLogTime lg) (u32 (logCounter lg + 1))
               (droppedLogs lg))
    else
      (false, with_rate lg maxPerSec (lastLogTime lg) (logCounter lg)
                (fetch_add (droppedLogs lg) 1))
  else (false, with_mutexTimeouts lg (fetch_add (mutexTimeouts_ lg) 1)).

(** [Logger::setMaxLogsPerSecond] and [Logger::resetDroppedLogs]. *)
Definition setMaxLogsPerSecond (lg : Logger) (maxLogs : Z) : Logger :=
  with_rate lg maxLogs (lastLogTime lg) (logCounter lg) (droppedLogs lg).

Definition resetDroppedLogs (lg : Logger) : Logger :=
  with_rate lg (maxLogsPerSecond lg) (lastLogTime lg) (logCounter lg) 0.

(** ** Backends and subscribers *)

Definition write_all (bs : list (option nat)) (buffer : cstring) (len : Z)
  : list Event :=
  omap (fun b => (fun id => BackendWrite id buffer len) <$> b) bs.

(** [Logger::writeToBackends]. *)
Definition writeToBackends (take_ok : bool) (lg : Logger) (buffer : cstring)
    (len : Z) : list Event :=
  if negb (backendMutex lg) then write_all (backends lg) buffer len
  else if take_ok then write_all (backends lg) buffer len
  else [].

(** [Logger::addLogSubscriber]. *)
Definition addLogSubscriber (take_ok : bool) (lg : Logger)
    (callback : option nat) : bool * Logger :=
  match callback with
  | None => (false, lg)
  | Some cb =>
      if subscriberMutex lg && negb take_ok then (false, lg)
      else
        let count := subscriberCount lg in
        if (count <? MAX_SUBSCRIBERS)%nat then
          if bool_decide (Some cb ∈ take count (subscribers lg)) then (false, lg)
          else (true, with_subscribers lg (<[count := Some cb]> (subscribers lg))
                        (S count))
        else (false, lg)
  end.

(** The search loop of [removeLogSubscriber]: the first index below [count]
    whose slot holds the callback. *)
Fixpoint find_subscriber (slots : list (option nat)) (cb : nat) : option nat :=
  match slots with
  | [] => None
  | s :: rest =>
      if bool_decide (s = Some cb) then Some O
      else S <$> find_subscriber rest cb
  end.

(** [for (j = i; j < count - 1; j++) subscribers[j] = subscribers[j + 1];]
    unrolled [steps] times from [j]. *)
Fixpoint shift_down (slots : list (option nat)) (j steps : nat)
  : list (option nat) :=
  match steps with
  | O => slots
  | S k => shift_down (<[j := default None (slots !! S j)]> slots) (S j) k
  end.

(** [Logger::removeLogSubscriber]. *)
Definition removeLogSubscriber (take_ok : bool) (lg : Logger)
    (callback : option nat) : bool * Logger :=
  match callback with
  | None => (false, lg)
  | Some cb =>
      if subscriberMutex lg && negb take_ok then (false, lg)
      else
        let count := subscriberCount lg in
        match find_subscriber (take count (subscribers lg)) cb with
        | Some i =>
            let shifted := shift_down (subscribers lg) i (count - 1 - i) in
            let count' := (count - 1)%nat in
            (true, with_subscribers lg (<[count' := None]> shifted) count')
        | None => (false, lg)
        end
  end.

(** What [notifySubscribers] reads from its surroundings. *)
Record NotifyEnv := {
  in_isr : bool;                      (* xPortInIsrContext() *)
  stack_msg : LogSubscriberMessage;   (* the uninitialised local [msg] *)
  take_sub : bool                     (* taking [subscriberMutex] *)
}.

(** The local [msg] once [notifySubscribers] has filled it. *)
Definition fill_field (arr : list ascii) (src : option cstring) (size : nat)
  : list ascii :=
  match src with
  | Some s => <[(size - 1)%nat := NUL]> (strncpy arr s (size - 1))
  | None => <[O := NUL]> arr
  end.

Definition make_msg (stack : LogSubscriberMessage) (level : esp_log_level_t)
    (tag message : option cstring) : LogSubscriberMessage :=
  {| msg_level := level;
     msg_tag := fill_field (msg_tag stack) tag CONFIG_LOG_SUBSCRIBER_TAG_SIZE;
     msg_message :=
       fill_field (msg_message stack) message CONFIG_LOG_SUBSCRIBER_MSG_SIZE |}.

(** [xQueueSend(queue, &msg, 0)]: the item is copied to the back of the
    queue unless the queue is full. *)
Definition xQueueSend (q : list LogSubscriberMessage) (m : LogSubscriberMessage)
  : list LogSubscriberMessage :=
  if (length q <? CONFIG_LOG_SUBSCRIBER_QUEUE_SIZE)%nat then q ++ [m] else q.

Definition call_all (cbs : list (option nat)) (level : esp_log_level_t)
    (tag message : option cstring) : list Event :=
  omap (fun c => (fun id => SubscriberCall id level tag message) <$> c) cbs.

(** [Logger::notifySubscribers]. *)
Definition notifySubscribers (e : NotifyEnv) (lg : Logger)
    (level : esp_log_level_t) (tag message : option cstring)
  : Logger * list Event :=
  if (subscriberCount lg =? 0)%nat then (lg, [])
  else if in_isr e then (lg, [])
  else
    match subscriberQueue lg with
    | Some q =>
        (with_queue lg (Some (xQueueSend q (make_msg (stack_msg e) level tag message))),
         [])
    | None =>
        if subscriberMutex lg && take_sub e then
          (lg, call_all (take (subscriberCount lg) (subscribers lg)) level tag message)
        else (lg, [])
    end.

(** ** The logging operations *)

(** [%lu] of a 32-bit unsigned value. *)
Definition decimal (n : Z) : cstring :=
  lit (NilZero.string_of_uint (N.to_uint (Z.to_N n))).

(** [snprintf(buffer, size, ...)] for a conversion whose complete output is
    [full]: the buffer keeps at most [size - 1] characters and the call
    returns the length of the complete output. *)
Definition snprintf (size : nat) (full : cstring) : cstring * Z :=
  (take (size - 1) full, Z.of_nat (length full)).

(** The output of ["[%lu][%s][%s] %s: %s\r\n"]. *)
Definition record_text (stamp : Z) (task : option cstring)
    (level : esp_log_level_t) (tag : option cstring) (message : cstring)
  : cstring :=
  lit "[" ++ decimal stamp ++ lit "][" ++ default (lit "?") task ++ lit "]["
    ++ levelToString level ++ lit "] " ++ default (lit "?") tag ++ lit ": "
    ++ message ++ [CR; LF].

(** A [va_list] together with the conversion it drives: the complete
    expansion of a format string. *)
Definition va_list := cstring -> cstring.

(** [vsnprintf(buffer, size, format, args)]; reading through a null
    [format] is a fault. *)
Definition vsnprintf (size : nat) (format : option cstring) (args : va_list)
  : option cstring :=
  match format with
  | None => None
  | Some f => Some (take (size - 1) (args f))
  end.

(** What one logging call reads from its surroundings, in program order. *)
Record LogEnv := {
  take_tag : bool;                          (* taking [tagMutex] *)
  take_rate : bool;                         (* taking [rateLimitMutex] *)
  millis_rate : Z;                          (* millis() in checkRateLimit *)
  acquire_format : BufferPool.AcquireEnv;   (* first pool.acquire() *)
  notify_env : NotifyEnv;
  acquire_full : BufferPool.AcquireEnv;     (* second pool.acquire() *)
  millis_stamp : Z;                         (* millis() in the record *)
  task_name : option cstring;               (* pcTaskGetName(NULL) *)
  take_backend : bool                       (* taking [backendMutex] *)
}.

Inductive Outcome :=
| Done (lg : Logger) (pool : BufferPool.t) (events : list Event)
| Fault.

(** [Logger::logV]. *)
Definition logV (e : LogEnv) (lg : Logger) (pool : BufferPool.t)
    (level : esp_log_level_t) (tag format : option cstring) (args : va_list)
  : Outcome :=
  if negb (isLevelEnabledForTag (take_tag e) lg tag level) then Done lg pool []
  else
    let '(admitted, lg1) := checkRateLimit (take_rate e) (millis_rate e) lg in
    if negb admitted then Done lg1 pool []
    else
      let '(formatBuffer, pool1) := BufferPool.acquire (acquire_format e) pool in
      match formatBuffer with
      | None => Done lg1 pool1 []
      | Some _ =>
          match vsnprintf CONFIG_LOG_BUFFER_SIZE format args with
          | None => Fault
          | Some text =>
              let '(lg2, ev1) :=
                notifySubscribers (notify_env e) lg1 level tag (Some text) in
              let '(fullMessage, pool2) :=
                BufferPool.acquire (acquire_full e) pool1 in
              match fullMessage with
              | Some _ =>
                  let '(buffer, len) :=
                    snprintf CONFIG_LOG_BUFFER_SIZE
                      (record_text (millis_stamp e) (task_name e) level tag text) in
                  let len' :=
                    if Z.of_nat CONFIG_LOG_BUFFER_SIZE <=? len
                    then Z.of_nat CONFIG_LOG_BUFFER_SIZE - 1 else len in
                  let ev2 := writeToBackends (take_backend e) lg2 buffer len' in
                  Done lg2
                    (BufferPool.release formatBuffer
                       (BufferPool.release fullMessage pool2))
                    (ev1 ++ ev2)
              | None =>
                  Done lg2 (BufferPool.release formatBuffer pool2)
                    (ev1 ++ [EspLogWrite level tag text])
              end
          end
      end.

(** [Logger::log]: the filter, then [logV] with the variadic arguments;
    [take_outer] is the result of taking [tagMutex] in the first filter. *)
Definition log (take_outer : bool) (e : LogEnv) (lg : Logger)
    (pool : BufferPool.t) (level : esp_log_level_t)
    (tag format : option cstring) (args : va_list) : Outcome :=
  if negb (isLevelEnabledForTag take_outer lg tag level) then Done lg pool []
  else logV e lg pool level tag format args.

(** [Logger::logDirect]. *)
Definition logDirect (e : LogEnv) (lg : Logger) (pool : BufferPool.t)
    (level : esp_log_level_t) (tag message : option cstring) : Outcome :=
  match message with
  | None => Done lg pool []
  | Some text =>
      if negb (isLevelEnabledForTag (take_tag e) lg tag level) then Done lg pool []
      else
        let '(lg1, ev1) :=
          notifySubscribers (notify_env e) lg level tag (Some text) in
        let '(fullMessage, pool1) := BufferPool.acquire (acquire_full e) pool in
        match fullMessage with
        | Some _ =>
            let '(buffer, len) :=
              snprintf CONFIG_LOG_BUFFER_SIZE
                (record_text (millis_stamp e) (task_name e) level tag text) in
            let ev2 := writeToBackends (take_backend e) lg1 buffer len in
            Done lg1 (BufferPool.release fullMessage pool1) (ev1 ++ ev2)
        | None => Done lg1 pool1 (ev1 ++ [EspLogWrite level tag text])
        end
  end.

(** ** NonBlockingConsoleBackend *)

Module NonBlockingConsoleBackend.

Record t := Build {
  droppedBytes : Z;
  droppedMessages : Z;
  partialWrites : Z
}.

Definition MIN_BUFFER_SPACE : Z := 20.
Definition TRUNCATION_MARKER : cstring := lit "..." ++ [CR; LF].
Definition TRUNCATION_MARKER_LEN : Z := 5.

(** [Serial.write(buffer, n)]: the [n] bytes are appended to what the
    port has been given, and [n] is returned. *)
Definition Serial_write (tx : list ascii) (buffer : list ascii) (n : Z)
  : Z * list ascii :=
  (n, tx ++ take (Z.to_nat n) buffer).

Definition drop_message (b : t) (length : Z) : t :=
  Build (fetch_add (droppedBytes b) length)
        (fetch_add (droppedMessages b) 1)
        (partialWrites b).

Definition track_unwritten (b : t) (length written : Z) : t :=
  if written <? length
  then Build (fetch_add (droppedBytes b) (length - written))
             (droppedMessages b) (partialWrites b)
  else b.

(** [write(const char* logMessage, size_t length)]; [available] is the
    value of [Serial.availableForWrite()] and [tx] the bytes given to the
    port so far. *)
Definition write (available : Z) (b : t) (tx : list ascii)
    (logMessage : option (list ascii)) (length : Z) : t * list ascii :=
  match logMessage with
  | None => (b, tx)
  | Some m =>
      if length =? 0 then (b, tx)
      else if available <? MIN_BUFFER_SPACE then (drop_message b length, tx)
      else if length <=? available then
        let '(written, tx1) := Serial_write tx m length in
        (track_unwritten b length written, tx1)
      else
        let toWrite := u32 (available - TRUNCATION_MARKER_LEN) in
        if 0 <? toWrite then
          let '(written, tx1) := Serial_write tx m toWrite in
          let '(_, tx2) :=
            Serial_write tx1 TRUNCATION_MARKER TRUNCATION_MARKER_LEN in
          let b1 := Build (droppedBytes b) (droppedMessages b)
                      (fetch_add (partialWrites b) 1) in
          (track_unwritten b1 length written, tx2)
        else (drop_message b length, tx)
  end.

Definition resetStats (b : t) : t := Build 0 0 0.

End NonBlockingConsoleBackend.


(** ** Notions used by the statements *)

(** Every live entry holds a string that fits its 32-byte array. *)
Definition tags_fit (entries : list TagLevel) : Prop :=
  Forall (fun e => (length (tl_tag e) < CONFIG_LOG_SUBSCRIBER_TAG_SIZE)%nat) entries.

(** The level held by the first entry whose stored string is [stored]. *)
Fixpoint stored_level (entries : list TagLevel) (stored : cstring)
  : option esp_log_level_t :=
  match entries with
  | [] => None
  | e :: rest =>
      if decide (tl_tag e = stored) then Some (tl_level e)
      else stored_level rest stored
  end.

(** What the table keeps of a tag: [setTagLevel] stores its first
    [CONFIG_LOG_SUBSCRIBER_TAG_SIZE - 1] characters. *)
Definition stored_tag (tag : cstring) : cstring :=
  take (CONFIG_LOG_SUBSCRIBER_TAG_SIZE - 1) tag.

(** The override of a tag, in the claim's words: the level of the table's
    entry for the tag, when there is one. *)
Definition override_of (entries : list TagLevel) (tag : cstring)
  : option esp_log_level_t :=
  stored_level entries (stored_tag tag).

(** The effective threshold, in the claim's words: the tag's override when
    the table has an entry for the tag, else the global level. *)
Definition effective_threshold (lg : Logger) (tag : option cstring)
  : esp_log_level_t :=
  match tag with
  | None => globalLogLevel lg
  | Some t => default (globalLogLevel lg) (override_of (live_tags lg) t)
  end.


(** The events of an outcome that are writes to a backend. *)
Definition is_backend_write (ev : Event) : bool :=
  match ev with BackendWrite _ _ _ => true | _ => false end.

Definition backend_writes (o : Outcome) : list Event :=
  match o with
  | Done _ _ events => filter (fun ev => is_backend_write ev = true) events
  | Fault => []
  end.


(** The callbacks in use: the slots below [subscriberCount]. *)
Definition live_subscribers (lg : Logger) : list (option nat) :=
  take (subscriberCount lg) (subscribers lg).

(** The registry invariant: at most [MAX_SUBSCRIBERS] callbacks in an array
    of [MAX_SUBSCRIBERS] slots, the slots in use non-null and pairwise
    distinct. *)
Definition registry_ok (lg : Logger) : Prop :=
  (subscriberCount lg <= MAX_SUBSCRIBERS)%nat
  /\ length (subscribers lg) = MAX_SUBSCRIBERS
  /\ Forall is_Some (live_subscribers lg)
  /\ NoDup (live_subscribers lg).

(** A pointer that is null or points to characters before a NUL. *)
Definition c_string (p : option cstring) : Prop :=
  match p with
  | Some s => Forall (fun c => c <> NUL) s
  | None => True
  end.

(** The string that a pointer designates, the null pointer standing for
    the empty string. *)
Definition chars_of (p : option cstring) : cstring := default [] p.


(** The tag-table invariant of the spec: an array of [CONFIG_LOG_MAX_TAGS]
    entries, of which at most that many are live, every live tag fitting its
    array, and at most one live entry per tag string. *)
Definition table_ok (lg : Logger) : Prop :=
  length (tagLevels_ lg) = CONFIG_LOG_MAX_TAGS
  /\ (tagLevelCount_ lg <= CONFIG_LOG_MAX_TAGS)%nat
  /\ tags_fit (live_tags lg)
  /\ NoDup (tl_tag <$> live_tags lg).

(** ** Concrete states and inputs *)

Definition started_logger : Logger := new_Logger true 0.
Definition early_logger : Logger := new_Logger false 0.

Definition QUIET : cstring := lit "QUIET".


(** The same override written once the scheduler runs. *)
Definition started_quiet : Logger :=
  fst (setTagLevel true started_logger (Some QUIET) ESP_LOG_ERROR).

Definition blank_msg : LogSubscriberMessage :=
  {| msg_level := ESP_LOG_NONE;
     msg_tag := replicate CONFIG_LOG_SUBSCRIBER_TAG_SIZE "x"%char;
     msg_message := replicate CONFIG_LOG_SUBSCRIBER_MSG_SIZE "x"%char |}.

Definition calm_acquire : BufferPool.AcquireEnv :=
  {| BufferPool.take_pool := true; BufferPool.malloc_ok := true |}.

(** Every lock is obtained, the call is made from the task ["loop"] at
    time [stamp]. *)
Definition calm_env (stamp : Z) : LogEnv :=
  {| take_tag := true;
     take_rate := true;
     millis_rate := stamp;
     acquire_format := calm_acquire;
     notify_env := {| in_isr := false; stack_msg := blank_msg; take_sub := true |};
     acquire_full := calm_acquire;
     millis_stamp := stamp;
     task_name := Some (lit "loop");
     take_backend := true |}.

Definition plain_args : va_list := fun format => format.

(** One record per second on a running system, after a first call at time
    [last]: the window starts at [last] and is full. *)
Definition full_window (last : Z) : Logger :=
  snd (checkRateLimit true last (setMaxLogsPerSecond started_logger 1)).

(** One record per second asked of a logger built before the scheduler. *)
Definition early_limited : Logger := setMaxLogsPerSecond early_logger 1.

(** A tag of 40 characters. *)
Definition long_tag : cstring := lit "sensor/temperature/boiler/outlet/primary".

Definition long_tag_once : Logger :=
  fst (setTagLevel true started_logger (Some long_tag) ESP_LOG_ERROR).

Definition long_tag_twice : Logger :=
  fst (setTagLevel true long_tag_once (Some long_tag) ESP_LOG_WARN).

Definition no_stats : NonBlockingConsoleBackend.t :=
  NonBlockingConsoleBackend.Build 0 0 0.

(** A registry with the callbacks 7, 8 and 9, registered in this order. *)
Definition three_subscribers : Logger :=
  snd (addLogSubscriber true
         (snd (addLogSubscriber true
                 (snd (addLogSubscriber true started_logger (Some 7%nat)))
                 (Some 8%nat)))
         (Some 9%nat)).

(** The same registry with the queue of a started subscriber task. *)
Definition queued_subscribers : Logger :=
  with_queue three_subscribers (Some []).


(** A burst of [checkRateLimit] calls at the given times, every one of them
    obtaining the lock: the number of admitted calls and the final state. *)
Fixpoint burst (times : list Z) (lg : Logger) : nat * Logger :=
  match times with
  | [] => (O, lg)
  | now :: later =>
      let '(admitted, lg1) := checkRateLimit true now lg in
      let '(n, lg2) := burst later lg1 in
      ((if admitted then S n else n), lg2)
  end.

(** One hundred calls, one per millisecond, starting at [start]. *)
Definition hundred_calls (start : Z) : list Z :=
  (fun i => start + Z.of_nat i) <$> seq 0 100.

(** The default logger limited to five records per second. *)
Definition five_per_second : Logger := setMaxLogsPerSecond started_logger 5.

(** * The rest of the logger *)

(** ** Settings *)

Definition with_level (lg : Logger) (level : esp_log_level_t) : Logger :=
  {| globalLogLevel := level;
     isLoggingEnabled := isLoggingEnabled lg;
     backends := backends lg;
     backendMutex := backendMutex lg;
     subscribers := subscribers lg;
     subscriberCount := subscriberCount lg;
     subscriberMutex := subscriberMutex lg;
     subscriberQueue := subscriberQueue lg;
     tagLevels_ := tagLevels_ lg;
     tagLevelCount_ := tagLevelCount_ lg;
     tagMutex := tagMutex lg;
     maxLogsPerSecond := maxLogsPerSecond lg;
     rateLimitMutex := rateLimitMutex lg;
     lastLogTime := lastLogTime lg;
     logCounter := logCounter lg;
     droppedLogs := droppedLogs lg;
     mutexTimeouts_ := mutexTimeouts_ lg |}.

Definition with_enabled (lg : Logger) (enable : bool) : Logger :=
  {| globalLogLevel := globalLogLevel lg;
     isLoggingEnabled := enable;
     backends := backends lg;
     backendMutex := backendMutex lg;
     subscribers := subscribers lg;
     subscriberCount := subscriberCount lg;
     subscriberMutex := subscriberMutex lg;
     subscriberQueue := subscriberQueue lg;
     tagLevels_ := tagLevels_ lg;
     tagLevelCount_ := tagLevelCount_ lg;
     tagMutex := tagMutex lg;
     maxLogsPerSecond := maxLogsPerSecond lg;
     rateLimitMutex := rateLimitMutex lg;
     lastLogTime := lastLogTime lg;
     logCounter := logCounter lg;
     droppedLogs := droppedLogs lg;
     mutexTimeouts_ := mutexTimeouts_ lg |}.

Definition with_backends (lg : Logger) (bs : list (option nat)) : Logger :=
  {| globalLogLevel := globalLogLevel lg;
     isLoggingEnabled := isLoggingEnabled lg;
     backends := bs;
     backendMutex := backendMutex lg;
     subscribers := subscribers lg;
     subscriberCount := subscriberCount lg;
     subscriberMutex := subscriberMutex lg;
     subscriberQueue := subscriberQueue lg;
     tagLevels_ := tagLevels_ lg;
     tagLevelCount_ := tagLevelCount_ lg;
     tagMutex := tagMutex lg;
     maxLogsPerSecond := maxLogsPerSecond lg;
     rateLimitMutex := rateLimitMutex lg;
     lastLogTime := lastLogTime lg;
     logCounter := logCounter lg;
     droppedLogs := droppedLogs lg;
     mutexTimeouts_ := mutexTimeouts_ lg |}.

(** [Logger::setLogLevel], [Logger::enableLogging] and
    [Logger::resetMutexTimeouts]. *)
Definition setLogLevel (lg : Logger) (level : esp_log_level_t) : Logger :=
  with_level lg level.

Definition enableLogging (lg : Logger) (enable : bool) : Logger :=
  with_enabled lg enable.

Definition resetMutexTimeouts (lg : Logger) : Logger :=
  with_mutexTimeouts lg 0.

(** ** Backend registry *)

(** [Logger::setBackend]; [take_ok] is the result of taking [backendMutex]. *)
Definition setBackend (take_ok : bool) (lg : Logger) (newBackend : option nat)
  : Logger :=
  let replaced :=
    with_backends lg
      (match newBackend with Some b => [Some b] | None => [] end) in
  if negb (backendMutex lg) then replaced
  else if take_ok then replaced
  else lg.

(** [Logger::addBackend]. *)
Definition addBackend (take_ok : bool) (lg : Logger) (backend : option nat)
  : Logger :=
  match backend with
  | None => lg
  | Some b =>
      let pushed := with_backends lg (backends lg ++ [Some b]) in
      if negb (backendMutex lg) then pushed
      else if take_ok then pushed
      else lg
  end.

(** [Logger::removeBackend]: [std::remove] then [erase] drop every element
    equal to the pointer and keep the others in their order. *)
Definition removeBackend (take_ok : bool) (lg : Logger) (backend : option nat)
  : Logger :=
  match backend with
  | None => lg
  | Some b =>
      let erased :=
        with_backends lg (filter (fun x => x <> Some b) (backends lg)) in
      if negb (backendMutex lg) then erased
      else if take_ok then erased
      else lg
  end.

(** [Logger::clearBackends]. *)
Definition clearBackends (take_ok : bool) (lg : Logger) : Logger :=
  if negb (backendMutex lg) then with_backends lg []
  else if take_ok then with_backends lg []
  else lg.

(** [Logger::flush]: the backends whose [flush()] is called, in order. *)
Definition flush (take_ok : bool) (lg : Logger) : list nat :=
  if negb (backendMutex lg) then omap id (backends lg)
  else if take_ok then omap id (backends lg)
  else [].

(** ** The other logging operations *)

(** The output of ["[%lu][%s][%s] %s: %s"], the record without line end. *)
Definition record_text_nnl (stamp : Z) (task : option cstring)
    (level : esp_log_level_t) (tag : option cstring) (message : cstring)
  : cstring :=
  lit "[" ++ decimal stamp ++ lit "][" ++ default (lit "?") task ++ lit "]["
    ++ levelToString level ++ lit "] " ++ default (lit "?") tag ++ lit ": "
    ++ message.

(** [Logger::logNnL]. *)
Definition logNnL (e : LogEnv) (lg : Logger) (pool : BufferPool.t)
    (level : esp_log_level_t) (tag format : option cstring) (args : va_list)
  : Outcome :=
  if negb (isLevelEnabledForTag (take_tag e) lg tag level) then Done lg pool []
  else
    let '(admitted, lg1) := checkRateLimit (take_rate e) (millis_rate e) lg in
    if negb admitted then Done lg1 pool []
    else
      let '(formatBuffer, pool1) := BufferPool.acquire (acquire_format e) pool in
      match formatBuffer with
      | None => Done lg1 pool1 []
      | Some _ =>
          match vsnprintf CONFIG_LOG_BUFFER_SIZE format args with
          | None => Fault
          | Some text =>
              let '(lg2, ev1) :=
                notifySubscribers (notify_env e) lg1 level tag (Some text) in
              let '(fullMessage, pool2) :=
                BufferPool.acquire (acquire_full e) pool1 in
              match fullMessage with
              | Some _ =>
                  let '(buffer, len) :=
                    snprintf CONFIG_LOG_BUFFER_SIZE
                      (record_text_nnl (millis_stamp e) (task_name e) level tag
                         text) in
                  let ev2 := writeToBackends (take_backend e) lg2 buffer len in
                  Done lg2
                    (BufferPool.release formatBuffer
                       (BufferPool.release fullMessage pool2))
                    (ev1 ++ ev2)
              | None =>
                  Done lg2 (BufferPool.release formatBuffer pool2) ev1
              end
          end
      end.

(** [Logger::logInL]. *)
Definition logInL (e : LogEnv) (lg : Logger) (pool : BufferPool.t)
    (format : option cstring) (args : va_list) : Outcome :=
  if negb (isLoggingEnabled lg) then Done lg pool []
  else
    let '(admitted, lg1) := checkRateLimit (take_rate e) (millis_rate e) lg in
    if negb admitted then Done lg1 pool []
    else
      let '(formatBuffer, pool1) := BufferPool.acquire (acquire_format e) pool in
      match formatBuffer with
      | None => Done lg1 pool1 []
      | Some _ =>
          match vsnprintf CONFIG_LOG_BUFFER_SIZE format args with
          | None => Fault
          | Some text =>
              let '(lg2, ev1) :=
                notifySubscribers (notify_env e) lg1 ESP_LOG_INFO
                  (Some (lit "INL")) (Some text) in
              let ev2 := writeToBackends (take_backend e) lg2 text (strlen text) in
              Done lg2 (BufferPool.release formatBuffer pool1) (ev1 ++ ev2)
          end
      end.

(** ** The subscriber task *)

(** One pass of the loop of [Logger::subscriberTaskFunc] while the task
    runs: [xQueueReceive] takes the oldest record when there is one;
    [still_running] is the flag read after the receive and [take_sub] the
    result of taking [subscriberMutex] for the snapshot. The callbacks get
    the two arrays of the record. *)
Definition subscriberTaskFunc_pass (still_running take_sub : bool)
    (lg : Logger) : Logger * list Event :=
  match subscriberQueue lg with
  | Some (msg :: rest) =>
      let lg' := with_queue lg (Some rest) in
      if negb still_running then (lg', [])
      else
        let localCallbacks :=
          if subscriberMutex lg && take_sub
          then take (subscriberCount lg) (subscribers lg)
          else [] in
        (lg', call_all localCallbacks (msg_level msg)
                (Some (cstr_of (msg_tag msg)))
                (Some (cstr_of (msg_message msg))))
  | _ => (lg, [])
  end.

(** ** ESP-IDF log redirection *)

(** [strchr(s, c) - s] for a character other than NUL. *)
Fixpoint strchr (s : cstring) (c : ascii) : option nat :=
  match s with
  | [] => None
  | x :: rest => if Ascii.eqb x c then Some O else S <$> strchr rest c
  end.

(** The loop that moves [msg_start] past the spaces after the colon. *)
Fixpoint skip_spaces (s : cstring) : cstring :=
  match s with
  | x :: rest => if Ascii.eqb x " " then skip_spaces rest else s
  | [] => []
  end.

(** The tag and the message start that [esp_log_redirect] takes from an
    ESP-IDF format. *)
Definition redirect_split (format : cstring) : cstring * cstring :=
  match strchr format ":" with
  | Some tag_len =>
      if (tag_len <? CONFIG_LOG_SUBSCRIBER_TAG_SIZE)%nat
      then (take tag_len format, skip_spaces (drop (S tag_len) format))
      else (lit "ESP", format)
  | None => (lit "ESP", format)
  end.

(** [esp_log_redirect]; [readable] is the result of [isPointerReadable] on
    the format pointer. *)
Definition esp_log_redirect (readable : bool) (e : LogEnv) (lg : Logger)
    (pool : BufferPool.t) (format : option cstring) (args : va_list)
  : Outcome :=
  match format with
  | None => Done lg pool []
  | Some f =>
      if negb readable then Done lg pool []
      else
        let '(tag, msg_start) := redirect_split f in
        logV e lg pool ESP_LOG_INFO (Some tag) (Some msg_start) args
  end.

(** ** The C interface of [LogInterfaceImpl.cpp] *)

Definition custom_log_is_enabled (lg : Logger) (level : esp_log_level_t) : bool :=
  isLoggingEnabled lg && level_le level (globalLogLevel lg).

Definition custom_log_is_enabled_for_tag (take_ok : bool) (lg : Logger)
    (level : esp_log_level_t) (tag : option cstring) : bool :=
  isLevelEnabledForTag take_ok lg tag level.

Definition custom_log_write (e : LogEnv) (lg : Logger) (pool : BufferPool.t)
    (level : esp_log_level_t) (tag format : option cstring) (args : va_list)
  : Outcome :=
  logV e lg pool level tag format args.

(** [log_write_impl] of [LogInterface.h]. *)
Definition log_write_impl (take_outer : bool) (e : LogEnv) (lg : Logger)
    (pool : BufferPool.t) (level : esp_log_level_t)
    (tag format : option cstring) (args : va_list) : Outcome :=
  if custom_log_is_enabled_for_tag take_outer lg level tag
  then custom_log_write e lg pool level tag format args
  else Done lg pool [].

(** ** Further concrete states *)

(** The tag ["T<i>"]. *)
Definition numbered_tag (i : nat) : cstring :=
  lit "T" ++ decimal (Z.of_nat i).

(** A running logger after [setTagLevel] on 32 different tags. *)
Definition full_table : Logger :=
  foldl (fun lg i => fst (setTagLevel true lg (Some (numbered_tag i)) ESP_LOG_WARN))
    started_logger (seq 0 CONFIG_LOG_MAX_TAGS).

(** ** The other output backends *)

(** [NonBlockingConsoleBackend::isBufferCritical], on the value of
    [Serial.availableForWrite()]. *)
Definition isBufferCritical (available : Z) : bool :=
  available <? NonBlockingConsoleBackend.MIN_BUFFER_SPACE.

Module ThreadSafeNonBlockingBackend.

Record t := Build {
  droppedMessages_ : Z;
  droppedBytes_ : Z;
  mutexContention_ : Z;
  bufferFull_ : Z
}.

Definition LOCAL_BUFFER_SIZE : Z := 128.
Definition MIN_BUFFER_SPACE : Z := 20.

(** What [write] reads from its surroundings: the two static members, the
    result of taking the mutex without waiting, and the value of
    [Serial.availableForWrite()]. *)
Record WriteEnv := {
  mutexInitialized_ : bool;
  writeMutex_ : bool;
  take_write : bool;
  available : Z
}.

(** [write(const char* logMessage, size_t length)]; [tx] is what the port
    has been given so far. *)
Definition write (e : WriteEnv) (b : t) (tx : list ascii)
    (logMessage : option (list ascii)) (length : Z) : t * list ascii :=
  if negb (mutexInitialized_ e) then (b, tx)
  else
    match logMessage with
    | None => (b, tx)
    | Some m =>
        if length =? 0 then (b, tx)
        else if negb (writeMutex_ e) then (b, tx)
        else
          let copyLen :=
            if length <? LOCAL_BUFFER_SIZE - 1 then length
            else LOCAL_BUFFER_SIZE - 1 in
          let localBuffer := take (Z.to_nat copyLen) m in
          if negb (take_write e) then
            (Build (fetch_add (droppedMessages_ b) 1)
                   (fetch_add (droppedBytes_ b) length)
                   (fetch_add (mutexContention_ b) 1)
                   (bufferFull_ b),
             tx)
          else if available e <? MIN_BUFFER_SPACE then
            (Build (fetch_add (droppedMessages_ b) 1)
                   (fetch_add (droppedBytes_ b) length)
                   (mutexContention_ b)
                   (fetch_add (bufferFull_ b) 1),
             tx)
          else
            let toWrite :=
              if copyLen <? available e then copyLen else available e in
            let '(_, tx1) :=
              NonBlockingConsoleBackend.Serial_write tx localBuffer toWrite in
            if toWrite <? length then
              (Build (droppedMessages_ b)
                     (fetch_add (droppedBytes_ b) (length - toWrite))
                     (mutexContention_ b) (bufferFull_ b),
               tx1)
            else (b, tx1)
    end.

Definition resetStats (b : t) : t := Build 0 0 0 0.

(** [isHealthy]. *)
Definition isHealthy (b : t) : bool := droppedMessages_ b <? 100.

(** The drops are the contended calls and the calls that found the port
    full, as 32-bit counters. *)
Definition counters_agree (b : t) : Prop :=
  u32 (droppedMessages_ b) = u32 (mutexContention_ b + bufferFull_ b).

End ThreadSafeNonBlockingBackend.

(** ** Configuration *)

Module LoggerConfig.

Inductive BackendType :=
| CONSOLE
| SYNCHRONIZED_CONSOLE
| NON_BLOCKING_CONSOLE
| CUSTOM.

(** [struct TagConfig]. *)
Record TagConfig := {
  tag : option cstring;
  level : esp_log_level_t
}.

Definition MAX_TAG_CONFIGS : nat := 32.

(** [struct LoggerConfig]. *)
Record t := Build {
  defaultLevel : esp_log_level_t;
  enableLogging : bool;
  maxLogsPerSecond : Z;
  primaryBackend : BackendType;
  tagConfigs : list TagConfig;
  tagConfigCount : nat
}.

(** The default member initialisers: the array is zeroed. *)
Definition defaults : t :=
  Build ESP_LOG_INFO true 100 NON_BLOCKING_CONSOLE
        (replicate MAX_TAG_CONFIGS {| tag := None; level := ESP_LOG_NONE |}) 0.

(** [addTagConfig]. *)
Definition addTagConfig (c : t) (tag : option cstring)
    (level : esp_log_level_t) : t * bool :=
  if (tagConfigCount c <? MAX_TAG_CONFIGS)%nat && bool_decide (tag <> None)
  then
    (Build (defaultLevel c) (enableLogging c) (maxLogsPerSecond c)
           (primaryBackend c)
           (<[tagConfigCount c := {| tag := tag; level := level |}]>
              (tagConfigs c))
           (S (tagConfigCount c)),
     true)
  else (c, false).

Definition createMinimal : t :=
  Build ESP_LOG_WARN (enableLogging defaults) 50 NON_BLOCKING_CONSOLE
        (tagConfigs defaults) (tagConfigCount defaults).

Definition createDevelopment : t :=
  Build ESP_LOG_INFO (enableLogging defaults) 0 NON_BLOCKING_CONSOLE
        (tagConfigs defaults) (tagConfigCount defaults).

Definition createProduction : t :=
  Build ESP_LOG_WARN (enableLogging defaults) 100 NON_BLOCKING_CONSOLE
        (tagConfigs defaults) (tagConfigCount defaults).

End LoggerConfig.

(** The loop of [Logger::configure] over the tag configurations, from index
    [i] on; [take_tag i] is the result of taking [tagMutex] in the call made
    for entry [i]. *)
Fixpoint apply_tag_configs (take_tag : nat -> bool) (i : nat)
    (configs : list LoggerConfig.TagConfig) (lg : Logger)
  : Logger * list Event :=
  match configs with
  | [] => (lg, [])
  | tagConfig :: rest =>
      let '(lg1, ev1) :=
        match LoggerConfig.tag tagConfig with
        | Some t =>
            setTagLevel (take_tag i) lg (Some t) (LoggerConfig.level tagConfig)
        | None => (lg, [])
        end in
      let '(lg2, ev2) := apply_tag_configs take_tag (S i) rest lg1 in
      (lg2, ev1 ++ ev2)
  end.

(** [Logger::configure]; [made] is the backend object that [make_shared]
    creates, [take_backend] the result of taking [backendMutex].  The flag
    [initialized_], which only [isInitialized] reads, is not part of the
    state. *)
Definition configure (take_backend : bool) (take_tag : nat -> bool)
    (made : nat) (lg : Logger) (config : LoggerConfig.t)
  : Logger * list Event :=
  let lg1 := setLogLevel lg (LoggerConfig.defaultLevel config) in
  let lg2 := enableLogging lg1 (LoggerConfig.enableLogging config) in
  let lg3 := setMaxLogsPerSecond lg2 (LoggerConfig.maxLogsPerSecond config) in
  let lg4 :=
    match LoggerConfig.primaryBackend config with
    | LoggerConfig.CUSTOM => lg3
    | _ => setBackend take_backend lg3 (Some made)
    end in
  apply_tag_configs take_tag 0
    (take (LoggerConfig.tagConfigCount config) (LoggerConfig.tagConfigs config))
    lg4.

(** The array entry that [addTagConfig] writes. *)
Definition tag_config_of (e : cstring * esp_log_level_t)
  : LoggerConfig.TagConfig :=
  {| LoggerConfig.tag := Some e.1; LoggerConfig.level := e.2 |}.

(** A configuration filled by one [addTagConfig] call per entry. *)
Definition add_tag_configs (base : LoggerConfig.t)
    (entries : list (cstring * esp_log_level_t)) : LoggerConfig.t :=
  foldl (fun c e => fst (LoggerConfig.addTagConfig c (Some e.1) e.2))
        base entries.

(** The production preset with one tag turned down. *)
Definition production_quiet : LoggerConfig.t :=
  add_tag_configs LoggerConfig.createProduction [(QUIET, ESP_LOG_ERROR)].

(** ** Notions used by the further statements *)

(** The shape of the tag table that the constructor sets up and every
    [setTagLevel] keeps, for tags of any length and every lock outcome: an
    array of [CONFIG_LOG_MAX_TAGS] entries, at most that many of them live,
    every stored tag within its 32-byte array. *)
Definition table_wf (lg : Logger) : Prop :=
  length (tagLevels_ lg) = CONFIG_LOG_MAX_TAGS
  /\ (tagLevelCount_ lg <= CONFIG_LOG_MAX_TAGS)%nat
  /\ tags_fit (live_tags lg).

(** The backend that an event writes to. *)
Definition written_to (ev : Event) : option nat :=
  match ev with
  | BackendWrite b _ _ => Some b
  | _ => None
  end.

(** The events of an outcome, none for a fault. *)
Definition events_of (o : Outcome) : list Event :=
  match o with
  | Done _ _ events => events
  | Fault => []
  end.

(** A running logger with the backends 0 (from the constructor), 1 and 2,
    the backend 1 registered twice. *)
Definition three_backends : Logger :=
  addBackend true
    (addBackend true (addBackend true started_logger (Some 1%nat)) (Some 2%nat))
    (Some 1%nat).

(** The statics of the thread-safe backend once a backend object exists, the
    mutex free, and [available] bytes of room in the port. *)
Definition free_port (available : Z) : ThreadSafeNonBlockingBackend.WriteEnv :=
  {| ThreadSafeNonBlockingBackend.mutexInitialized_ := true;
     ThreadSafeNonBlockingBackend.writeMutex_ := true;
     ThreadSafeNonBlockingBackend.take_write := true;
     ThreadSafeNonBlockingBackend.available := available |}.

Definition no_drops : ThreadSafeNonBlockingBackend.t :=
  ThreadSafeNonBlockingBackend.Build 0 0 0 0.
(** * Properties *)

(** ** Machine integers *)

Lemma u32_range x : is_u32 (u32 x).
Proof. unfold is_u32, u32. apply Z.mod_pos_bound. lia. Qed.

Lemma u32_small x : is_u32 x -> u32 x = x.
Proof. unfold is_u32, u32. intros H. apply Z.mod_small. exact H. Qed.

(** ** Strings *)

Lemma strncmp_refl (a : cstring) (n : nat) : strncmp a a n = 0.
Proof.
  revert a. induction n as [|n IH]; intros [|x a]; simpl; try reflexivity.
  rewrite Ascii.eqb_refl. apply IH.
Qed.

(** On a first argument shorter than [n], [strncmp] is string equality. *)
Lemma strncmp_zero_iff (a b : cstring) (n : nat) :
  (length a < n)%nat -> strncmp a b n = 0 <-> a = b.
Proof.
  intros Hlen. split; [|intros ->; apply strncmp_refl].
  revert a b Hlen. induction n as [|n IH]; intros a b Hlen; [lia|].
  destruct a as [|x a], b as [|y b]; simpl; try (intros; done || lia).
  simpl in Hlen. destruct (Ascii.eqb_spec x y) as [->|Hne].
  - intros H. f_equal. apply IH; [lia|exact H].
  - destruct (uchar x <? uchar y); lia.
Qed.

(** ** Filtering (tag-level table) *)

Lemma scan_level_override (entries : list TagLevel) (tag : cstring) :
  tags_fit entries -> scan_level entries tag = stored_level entries tag.
Proof.
  induction 1 as [|e rest Hfit _ IH]; simpl; [reflexivity|].
  destruct (decide (tl_tag e = tag)) as [Heq|Hne].
  - rewrite (proj2 (strncmp_zero_iff _ _ _ Hfit) Heq). reflexivity.
  - destruct (Z.eqb_spec (strncmp (tl_tag e) tag CONFIG_LOG_SUBSCRIBER_TAG_SIZE) 0)
      as [Hz|_]; [|exact IH].
    apply (strncmp_zero_iff _ _ _ Hfit) in Hz. contradiction.
Qed.

Lemma find_tag_scan_level (entries : list TagLevel) (tag : cstring) :
  scan_level entries tag = find_tag entries tag ≫= fun i => tl_level <$> entries !! i.
Proof.
  induction entries as [|e rest IH]; simpl; [reflexivity|].
  destruct (_ =? 0); [reflexivity|].
  rewrite IH. destruct (find_tag rest tag); reflexivity.
Qed.

Lemma logV_filtered (e : LogEnv) lg pool level tag format args :
  isLevelEnabledForTag (take_tag e) lg tag level = false ->
  logV e lg pool level tag format args = Done lg pool [].
Proof. intros H. unfold logV. rewrite H. reflexivity. Qed.

Lemma logDirect_filtered (e : LogEnv) lg pool level tag message :
  isLevelEnabledForTag (take_tag e) lg tag level = false ->
  logDirect e lg pool level tag message = Done lg pool [].
Proof. intros H. unfold logDirect. rewrite H. destruct message; reflexivity. Qed.



(** Without the lock (never created, or not obtained in time) the global
    level decides. *)
Lemma isLevelEnabledForTag_unlocked take_ok lg tag level :
  isLoggingEnabled lg = true ->
  level <> ESP_LOG_NONE ->
  tagMutex lg = false \/ take_ok = false ->
  isLevelEnabledForTag take_ok lg tag level
  = level_le level (globalLogLevel lg).
Proof.
  intros Hen Hlev Hlock. unfold isLevelEnabledForTag. rewrite Hen. simpl.
  destruct level; try contradiction; simpl; destruct tag; try reflexivity;
    destruct Hlock as [-> | ->]; try reflexivity;
    destruct (tagMutex lg); reflexivity.
Qed.

(** Every state that [setTagLevel] produces keeps the stored tags within
    their arrays, whatever the length of the tag it is given. *)
Lemma doSetTagLevel_keeps_fit (lg : Logger) (t : cstring) (tagLen : nat)
    (level : esp_log_level_t) :
  (tagLen < CONFIG_LOG_SUBSCRIBER_TAG_SIZE)%nat ->
  tags_fit (live_tags lg) ->
  tags_fit (live_tags (fst (doSetTagLevel lg t tagLen level))).
Proof.
  intros Hlen Hfit. unfold doSetTagLevel.
  destruct (find_tag (take (tagLevelCount_ lg) (tagLevels_ lg)) t) as [i|].
  - unfold live_tags. simpl. rewrite take_alter.
    destruct (decide (i < tagLevelCount_ lg)%nat); [|exact Hfit].
    apply Forall_alter; [exact Hfit|]. intros x _ Hx. exact Hx.
  - destruct (tagLevelCount_ lg <? CONFIG_LOG_MAX_TAGS)%nat; [|exact Hfit].
    unfold live_tags. simpl.
    destruct (decide (tagLevelCount_ lg < length (tagLevels_ lg))%nat) as [Hin|Hout].
    + rewrite (take_S_r _ _ {| tl_tag := take tagLen t; tl_level := level |})
        by (apply list_lookup_insert_eq; lia).
      rewrite take_insert_ge by lia.
      apply Forall_app. split; [exact Hfit|]. apply Forall_singleton. simpl.
      rewrite length_take. lia.
    + rewrite list_insert_ge by lia. unfold live_tags in Hfit.
      rewrite take_ge by lia. rewrite take_ge in Hfit by lia. exact Hfit.
Qed.

Lemma setTagLevel_keeps_fit (take_ok : bool) (lg : Logger)
    (tag : option cstring) (level : esp_log_level_t) :
  tags_fit (live_tags lg) ->
  tags_fit (live_tags (fst (setTagLevel take_ok lg tag level))).
Proof.
  intros Hfit. unfold setTagLevel. destruct tag as [t|]; [|exact Hfit].
  destruct (strlen t =? 0); [exact Hfit|].
  assert (Hlen : ((if (CONFIG_LOG_SUBSCRIBER_TAG_SIZE <=? length t)%nat
                   then (CONFIG_LOG_SUBSCRIBER_TAG_SIZE - 1)%nat else length t)
                  < CONFIG_LOG_SUBSCRIBER_TAG_SIZE)%nat).
  { destruct (Nat.leb_spec CONFIG_LOG_SUBSCRIBER_TAG_SIZE (length t));
      unfold CONFIG_LOG_SUBSCRIBER_TAG_SIZE in *; lia. }
  destruct (tagMutex lg); cbn [negb].
  - destruct take_ok; [|exact Hfit]. by apply doSetTagLevel_keeps_fit.
  - by apply doSetTagLevel_keeps_fit.
Qed.





(** A tag of 32 characters or more is outside C1 as amended: the table gets
    an entry for it, which the filter never finds, so that the global level
    decides although the lock is in place and obtained. *)
Lemma long_tag_override_not_applied :
  (length long_tag = 40)%nat
  /\ tagMutex long_tag_once = true
  /\ live_tags long_tag_once
     = [ {| tl_tag := stored_tag long_tag; tl_level := ESP_LOG_ERROR |} ]
  /\ override_of (live_tags long_tag_once) long_tag = Some ESP_LOG_ERROR
  /\ level_le ESP_LOG_WARN (effective_threshold long_tag_once (Some long_tag))
     = false
  /\ isLevelEnabledForTag true long_tag_once (Some long_tag) ESP_LOG_WARN = true.
Proof. vm_compute. repeat split. Qed.

(** The tag-override scenario of the spec, on a running system: with
    ["QUIET"] set to ERROR, WARN is filtered and ERROR passes whatever the
    global level, and a tag without override follows the global level. *)
Example override_precedence :
  isLevelEnabledForTag true started_quiet (Some QUIET) ESP_LOG_WARN = false
  /\ isLevelEnabledForTag true started_quiet (Some QUIET) ESP_LOG_ERROR = true
  /\ isLevelEnabledForTag true started_quiet (Some (lit "OTHER")) ESP_LOG_WARN = true
  /\ getTagLevel true started_quiet (Some QUIET) = ESP_LOG_ERROR
  /\ getTagLevel true started_quiet (Some (lit "OTHER")) = ESP_LOG_INFO.
Proof. vm_compute. repeat split. Qed.

(** ** Rate limiter *)

Lemma elapsed_ms_range (currentTime lastTime : Z) :
  is_u32 (elapsed_ms currentTime lastTime).
Proof. apply u32_range. Qed.

(** The wrapped difference recovers the time that went by. *)
Lemma elapsed_ms_advance (lastTime d : Z) :
  is_u32 d -> elapsed_ms (u32 (lastTime + d)) lastTime = d.
Proof.
  unfold elapsed_ms, u32, is_u32. intros Hd.
  rewrite Zminus_mod_idemp_l.
  replace (lastTime + d - lastTime) with d by lia.
  apply Z.mod_small. exact Hd.
Qed.

(** C2 (as amended): [maxLogsPerSecond = 0] always admits; otherwise, when
    the rate-limit lock exists and is obtained, a call at least one window
    (1000 ms) after the window start resets the start to now, sets the count
    to 1 and admits; inside the window a count below the maximum is
    incremented and the call admitted; else the dropped-total counter is
    incremented and the call rejected; when the lock is not obtained in time
    the call is not admitted and the timeout counter is incremented. *)
Theorem checkRateLimit_fixed_window (take_ok : bool) (now : Z) (lg : Logger) :
  is_u32 (maxLogsPerSecond lg) ->
  is_u32 (logCounter lg) ->
  (maxLogsPerSecond lg = 0 -> checkRateLimit take_ok now lg = (true, lg))
  /\ (maxLogsPerSecond lg <> 0 -> rateLimitMutex lg = true -> take_ok = true ->
        (RATE_LIMIT_WINDOW_MS <= elapsed_ms now (lastLogTime lg) ->
           checkRateLimit take_ok now lg
           = (true, with_rate lg (maxLogsPerSecond lg) now 1 (droppedLogs lg)))
        /\ (elapsed_ms now (lastLogTime lg) < RATE_LIMIT_WINDOW_MS ->
            logCounter lg < maxLogsPerSecond lg ->
              checkRateLimit take_ok now lg
              = (true, with_rate lg (maxLogsPerSecond lg) (lastLogTime lg)
                         (logCounter lg + 1) (droppedLogs lg)))
        /\ (elapsed_ms now (lastLogTime lg) < RATE_LIMIT_WINDOW_MS ->
            maxLogsPerSecond lg <= logCounter lg ->
              checkRateLimit take_ok now lg
              = (false, with_rate lg (maxLogsPerSecond lg) (lastLogTime lg)
                          (logCounter lg) (fetch_add (droppedLogs lg) 1))))
  /\ (maxLogsPerSecond lg <> 0 -> rateLimitMutex lg = true -> take_ok = false ->
        checkRateLimit take_ok now lg
        = (false, with_mutexTimeouts lg (fetch_add (mutexTimeouts_ lg) 1))).
Proof.
  intros Hmax Hcnt. unfold checkRateLimit. split; [|split].
  - intros ->. reflexivity.
  - intros Hne Hmx ->.
    rewrite (proj2 (Z.eqb_neq _ _) Hne), Hmx. simpl. split; [|split].
    + intros Hel. rewrite (proj2 (Z.leb_le _ _) Hel). reflexivity.
    + intros Hel Hlt.
      rewrite (proj2 (Z.leb_gt _ _) Hel), (proj2 (Z.ltb_lt _ _) Hlt).
      rewrite u32_small; [reflexivity|]. unfold is_u32 in *. lia.
    + intros Hel Hge.
      rewrite (proj2 (Z.leb_gt _ _) Hel), (proj2 (Z.ltb_ge _ _) Hge).
      reflexivity.
  - intros Hne Hmx ->.
    rewrite (proj2 (Z.eqb_neq _ _) Hne), Hmx. reflexivity.
Qed.

Lemma checkRateLimit_fixed_window_witness :
  checkRateLimit true 50 (full_window 0)
  = (false, with_rate (full_window 0) 1 0 1 1).
Proof.
  pose proof (checkRateLimit_fixed_window true 50 (full_window 0)) as H.
  destruct H as (_ & Hwin & _).
  - vm_compute. split; [discriminate | reflexivity].
  - vm_compute. split; [discriminate | reflexivity].
  - apply Hwin.
    + discriminate.
    + reflexivity.
    + reflexivity.
    + reflexivity.
    + vm_compute. discriminate.
Defined.

(** C2 as stated fails while the rate-limit lock does not exist: with one
    record per second allowed, a call 50 ms after the window start is
    admitted without the count being incremented, a second call 10 ms later
    is admitted as well, and a call 5000 ms after the window start leaves
    the window where it was. *)
Lemma checkRateLimit_admits_without_lock :
  maxLogsPerSecond early_limited = 1
  /\ logCounter early_limited = 0
  /\ elapsed_ms 50 (lastLogTime early_limited) = 50
  /\ checkRateLimit true 50 early_limited = (true, early_limited)
  /\ checkRateLimit true 60 (snd (checkRateLimit true 50 early_limited))
     = (true, early_limited)
  /\ elapsed_ms 5000 (lastLogTime early_limited) = 5000
  /\ checkRateLimit true 5000 early_limited = (true, early_limited).
Proof. vm_compute. repeat split. Qed.

(** C7 (as amended): the elapsed time is the wrapping 32-bit difference
    [currentTime - lastLogTime]: for every window start and every advance
    [d] of the millisecond timer below 2^32, timer overflow included, it is
    the non-negative 32-bit value [d], never a negative duration, and the
    window is reset exactly when [d] is at least 1000. *)
Theorem elapsed_wraps_to_true_duration (lg : Logger) (d : Z) :
  is_u32 d ->
  maxLogsPerSecond lg <> 0 ->
  rateLimitMutex lg = true ->
  let now := u32 (lastLogTime lg + d) in
  elapsed_ms now (lastLogTime lg) = d
  /\ 0 <= elapsed_ms now (lastLogTime lg) < 2 ^ 32
  /\ (RATE_LIMIT_WINDOW_MS <= d ->
        checkRateLimit true now lg
        = (true, with_rate lg (maxLogsPerSecond lg) now 1 (droppedLogs lg)))
  /\ (d < RATE_LIMIT_WINDOW_MS ->
        checkRateLimit true now lg
        = if logCounter lg <? maxLogsPerSecond lg
          then (true, with_rate lg (maxLogsPerSecond lg) (lastLogTime lg)
                        (u32 (logCounter lg + 1)) (droppedLogs lg))
          else (false, with_rate lg (maxLogsPerSecond lg) (lastLogTime lg)
                         (logCounter lg) (fetch_add (droppedLogs lg) 1))).
Proof.
  intros Hd Hne Hmx now.
  pose proof (elapsed_ms_advance (lastLogTime lg) d Hd) as Hel. fold now in Hel.
  split; [exact Hel|]. split; [apply elapsed_ms_range|].
  unfold checkRateLimit. rewrite (proj2 (Z.eqb_neq _ _) Hne), Hmx. simpl.
  fold now. rewrite Hel. split.
  - intros Hge. rewrite (proj2 (Z.leb_le _ _) Hge). reflexivity.
  - intros Hlt. rewrite (proj2 (Z.leb_gt _ _) Hlt). reflexivity.
Qed.

Lemma elapsed_wraps_to_true_duration_witness :
  elapsed_ms (u32 (4294967290 + 2000)) 4294967290 = 2000.
Proof.
  apply (elapsed_wraps_to_true_duration (full_window 4294967290) 2000).
  - vm_compute. split; [discriminate | reflexivity].
  - discriminate.
  - reflexivity.
Defined.

(** C7 as stated fails: the timer has wrapped ([5 < 4294967290]), the
    elapsed value is 11, the window is not reset and the call is rejected. *)
Lemma wrapped_timer_without_reset :
  5 < lastLogTime (full_window 4294967290)
  /\ elapsed_ms 5 (lastLogTime (full_window 4294967290)) = 11
  /\ checkRateLimit true 5 (full_window 4294967290)
     = (false, with_rate (full_window 4294967290) 1 4294967290 1 1).
Proof. vm_compute. repeat split. Qed.

(** C8: while the rate-limit mutex does not exist, [checkRateLimit] admits
    every call for every positive maximum and leaves the logger as it was
    (the count is not read, the dropped-log counter does not move); with the
    mutex in place a lock timeout rejects the call. *)
Theorem checkRateLimit_open_before_scheduler
    (take_ok : bool) (now : Z) (lg : Logger) :
  0 < maxLogsPerSecond lg ->
  rateLimitMutex lg = false ->
  checkRateLimit take_ok now lg = (true, lg)
  /\ (forall counter dropped,
        fst (checkRateLimit take_ok now
               (with_rate lg (maxLogsPerSecond lg) (lastLogTime lg) counter dropped))
        = true)
  /\ (forall lg', maxLogsPerSecond lg' = maxLogsPerSecond lg ->
        rateLimitMutex lg' = true ->
        fst (checkRateLimit false now lg') = false).
Proof.
  intros Hpos Hmx. unfold checkRateLimit.
  assert (Hne : (maxLogsPerSecond lg =? 0) = false) by (apply Z.eqb_neq; lia).
  split; [|split].
  - rewrite Hne, Hmx. reflexivity.
  - intros counter dropped. simpl. rewrite Hne, Hmx. reflexivity.
  - intros lg' Hsame Hmx'. rewrite Hsame, Hne, Hmx'. reflexivity.
Qed.

Lemma checkRateLimit_open_before_scheduler_witness :
  checkRateLimit true 50 early_limited = (true, early_limited).
Proof.
  apply (checkRateLimit_open_before_scheduler true 50 early_limited).
  - reflexivity.
  - reflexivity.
Defined.

(** The rate-admission scenario of the spec: with five records per second,
    100 calls within 100 ms give 5 admitted and 95 counted as dropped; after
    the window has elapsed five more are admitted. *)
Example burst_admits_five :
  fst (burst (hundred_calls 2000) five_per_second) = 5%nat
  /\ droppedLogs (snd (burst (hundred_calls 2000) five_per_second)) = 95
  /\ fst (burst (hundred_calls 3000)
            (snd (burst (hundred_calls 2000) five_per_second))) = 5%nat.
Proof. vm_compute. repeat split. Qed.

(** ** Non-blocking console backend *)

(** C5 (as amended): for a non-null message of positive length, [write]
    drops the whole message when the capacity is below 20 bytes (one more
    dropped message, [length] more dropped bytes); with a capacity of at
    least 20 bytes but below the length it sends the first [capacity - 5]
    bytes followed by the truncation marker and counts one partial write;
    with a capacity of at least 20 bytes and at least the length it sends
    the whole message. *)
Theorem write_drops_truncates_or_sends
    (available : Z) (b : NonBlockingConsoleBackend.t) (tx m : list ascii) :
  0 < strlen m ->
  is_u32 available ->
  (available < 20 ->
     NonBlockingConsoleBackend.write available b tx (Some m) (strlen m)
     = (NonBlockingConsoleBackend.Build
          (fetch_add (NonBlockingConsoleBackend.droppedBytes b) (strlen m))
          (fetch_add (NonBlockingConsoleBackend.droppedMessages b) 1)
          (NonBlockingConsoleBackend.partialWrites b),
        tx))
  /\ (20 <= available < strlen m ->
        NonBlockingConsoleBackend.write available b tx (Some m) (strlen m)
        = (NonBlockingConsoleBackend.Build
             (fetch_add (NonBlockingConsoleBackend.droppedBytes b)
                (strlen m - (available - 5)))
             (NonBlockingConsoleBackend.droppedMessages b)
             (fetch_add (NonBlockingConsoleBackend.partialWrites b) 1),
           (tx ++ take (Z.to_nat (available - 5)) m)
             ++ NonBlockingConsoleBackend.TRUNCATION_MARKER))
  /\ (20 <= available -> strlen m <= available ->
        NonBlockingConsoleBackend.write available b tx (Some m) (strlen m)
        = (b, tx ++ m)).
Proof.
  intros Hlen Hav. unfold NonBlockingConsoleBackend.write.
  assert (Hz : (strlen m =? 0) = false) by (apply Z.eqb_neq; lia).
  rewrite Hz. unfold NonBlockingConsoleBackend.MIN_BUFFER_SPACE.
  split; [|split].
  - intros Hlt. rewrite (proj2 (Z.ltb_lt _ _) Hlt). reflexivity.
  - intros [Hge Hlt].
    rewrite (proj2 (Z.ltb_ge _ _) Hge), (proj2 (Z.leb_gt _ _) Hlt).
    unfold NonBlockingConsoleBackend.TRUNCATION_MARKER_LEN.
    rewrite u32_small by (unfold is_u32 in *; lia).
    rewrite (proj2 (Z.ltb_lt 0 (available - 5))) by lia.
    unfold NonBlockingConsoleBackend.Serial_write,
      NonBlockingConsoleBackend.track_unwritten. simpl.
    rewrite (proj2 (Z.ltb_lt (available - 5) (strlen m))) by lia.
    reflexivity.
  - intros Hge Hle.
    rewrite (proj2 (Z.ltb_ge _ _) Hge), (proj2 (Z.leb_le _ _) Hle).
    unfold NonBlockingConsoleBackend.Serial_write,
      NonBlockingConsoleBackend.track_unwritten. simpl.
    rewrite Z.ltb_irrefl. unfold strlen. rewrite Nat2Z.id, firstn_all.
    reflexivity.
Qed.

Lemma write_drops_truncates_or_sends_witness :
  NonBlockingConsoleBackend.write 25 no_stats [] (Some long_tag) (strlen long_tag)
  = (NonBlockingConsoleBackend.Build 20 0 1,
     lit "sensor/temperature/b..." ++ [CR; LF]).
Proof.
  apply (write_drops_truncates_or_sends 25 no_stats [] long_tag).
  - reflexivity.
  - vm_compute. split; [discriminate | reflexivity].
  - vm_compute. split; [discriminate | reflexivity].
Defined.

(** C5 as stated fails for a short message: 10 bytes of capacity are enough
    for the 5 bytes of the message, yet the message is dropped because the
    capacity is below the 20-byte threshold. *)
Lemma short_message_dropped_despite_capacity :
  strlen QUIET = 5
  /\ NonBlockingConsoleBackend.write 10 no_stats [] (Some QUIET) (strlen QUIET)
     = (NonBlockingConsoleBackend.Build 5 1 0, []).
Proof. vm_compute. split; reflexivity. Qed.

(** ** Subscriber registry *)

Lemma find_subscriber_Some (slots : list (option nat)) (cb i : nat) :
  find_subscriber slots cb = Some i -> slots !! i = Some (Some cb).
Proof.
  revert i. induction slots as [|s rest IH]; intros i; simpl; [done|].
  case_bool_decide as Hs.
  - intros [= <-]. simpl. by rewrite Hs.
  - destruct (find_subscriber rest cb) as [k|] eqn:Hk; simpl; [|done].
    intros [= <-]. simpl. by apply IH.
Qed.

Lemma find_subscriber_None (slots : list (option nat)) (cb : nat) :
  find_subscriber slots cb = None -> Some cb ∉ slots.
Proof.
  induction slots as [|s rest IH]; simpl; [intros _; apply not_elem_of_nil|].
  case_bool_decide as Hs; [done|].
  destruct (find_subscriber rest cb) eqn:Hk; simpl; [done|].
  intros _. rewrite not_elem_of_cons. split; [congruence|by apply IH].
Qed.

Lemma shift_down_length (slots : list (option nat)) (j steps : nat) :
  length (shift_down slots j steps) = length slots.
Proof.
  revert slots j. induction steps as [|k IH]; intros slots j; simpl; [done|].
  by rewrite IH, length_insert.
Qed.

(** The loop moves [steps] slots one place down, over the slot at [j]. *)
Lemma shift_down_app (pre rest : list (option nat)) (y : option nat) (steps : nat) :
  (steps <= length rest)%nat ->
  shift_down (pre ++ y :: rest) (length pre) steps
  = pre ++ take steps rest ++ drop steps (y :: rest).
Proof.
  revert pre y rest. induction steps as [|k IH]; intros pre y rest Hlen.
  - reflexivity.
  - destruct rest as [|r0 rest']; simpl in Hlen; [lia|].
    cbn [shift_down].
    replace ((pre ++ y :: r0 :: rest') !! S (length pre)) with (Some r0).
    2:{ rewrite lookup_app_r by lia.
        replace (S (length pre) - length pre)%nat with 1%nat by lia. done. }
    cbn [default].
    replace (<[length pre := r0]> (pre ++ y :: r0 :: rest'))
      with ((pre ++ [r0]) ++ r0 :: rest').
    2:{ rewrite insert_app_r_alt by lia. rewrite Nat.sub_diag.
        simpl. by rewrite <- app_assoc. }
    replace (S (length pre)) with (length (pre ++ [r0]))
      by (rewrite length_app; simpl; lia).
    rewrite IH by lia. rewrite <- app_assoc. reflexivity.
Qed.

Lemma new_Logger_registry_ok (started : bool) (backend : nat) :
  registry_ok (new_Logger started backend).
Proof.
  unfold registry_ok, live_subscribers. simpl.
  repeat split; [unfold MAX_SUBSCRIBERS; lia | constructor | constructor].
Qed.

Lemma addLogSubscriber_ok (take_ok : bool) (lg : Logger) (callback : option nat) :
  registry_ok lg -> registry_ok (snd (addLogSubscriber take_ok lg callback)).
Proof.
  intros Hok. unfold addLogSubscriber.
  destruct callback as [cb|]; [|exact Hok].
  destruct (subscriberMutex lg && negb take_ok); [exact Hok|].
  destruct (Nat.ltb_spec (subscriberCount lg) MAX_SUBSCRIBERS) as [Hlt|Hge];
    [|exact Hok].
  case_bool_decide as Hdup; [exact Hok|].
  destruct Hok as (Hcnt & Hlen & Hsome & Hnd).
  unfold registry_ok, live_subscribers in *. simpl.
  assert (Hlive : take (S (subscriberCount lg))
                    (<[subscriberCount lg := Some cb]> (subscribers lg))
                  = take (subscriberCount lg) (subscribers lg) ++ [Some cb]).
  { rewrite (take_S_r _ _ (Some cb)).
    - by rewrite take_insert_ge by lia.
    - apply list_lookup_insert_eq. lia. }
  rewrite Hlive, length_insert. repeat split; [lia | exact Hlen | |].
  - apply Forall_app. split; [exact Hsome | by repeat constructor].
  - apply NoDup_app. repeat split; [exact Hnd | | apply NoDup_singleton].
    intros x Hx Hx'. apply list_elem_of_singleton in Hx'. by subst x.
Qed.

Lemma removeLogSubscriber_live (lg : Logger) (cb i : nat) :
  registry_ok lg ->
  find_subscriber (live_subscribers lg) cb = Some i ->
  let shifted :=
    shift_down (subscribers lg) i (subscriberCount lg - 1 - i) in
  take (subscriberCount lg - 1) (<[(subscriberCount lg - 1)%nat := None]> shifted)
  = delete i (live_subscribers lg).
Proof.
  intros (Hcnt & Hlen & _ & _) Hfind shifted.
  apply find_subscriber_Some in Hfind. unfold live_subscribers in *.
  assert (Hi : (i < subscriberCount lg)%nat).
  { apply lookup_lt_Some in Hfind. rewrite length_take in Hfind. lia. }
  rewrite lookup_take_lt in Hfind by lia.
  rewrite take_insert_ge by lia.
  rewrite delete_take_drop, take_take, Nat.min_l by lia.
  subst shifted.
  assert (Hpre : length (take i (subscribers lg)) = i)
    by (rewrite length_take; lia).
  pose proof (shift_down_app (take i (subscribers lg))
                (drop (S i) (subscribers lg)) (Some cb)
                (subscriberCount lg - 1 - i)) as Hshift.
  rewrite Hpre, (take_drop_middle _ _ _ Hfind) in Hshift.
  rewrite Hshift by (rewrite length_drop; lia).
  rewrite app_assoc, take_app_length'.
  2:{ rewrite length_app, Hpre, length_take, length_drop. lia. }
  f_equal. rewrite take_drop_commute. f_equal. f_equal. lia.
Qed.

Lemma removeLogSubscriber_ok (take_ok : bool) (lg : Logger) (callback : option nat) :
  registry_ok lg -> registry_ok (snd (removeLogSubscriber take_ok lg callback)).
Proof.
  intros Hok. unfold removeLogSubscriber.
  destruct callback as [cb|]; [|exact Hok].
  destruct (subscriberMutex lg && negb take_ok); [exact Hok|].
  destruct (find_subscriber (take (subscriberCount lg) (subscribers lg)) cb)
    as [i|] eqn:Hfind; [|exact Hok].
  pose proof (removeLogSubscriber_live lg cb i Hok Hfind) as Hlive.
  destruct Hok as (Hcnt & Hlen & Hsome & Hnd).
  unfold registry_ok. unfold live_subscribers at 1 2. simpl.
  simpl in Hlive. rewrite Hlive, length_insert, shift_down_length.
  repeat split; [lia | exact Hlen | by apply Forall_delete |].
  eapply sublist_NoDup; [exact Hnd | apply sublist_delete].
Qed.

Lemma three_subscribers_ok : registry_ok three_subscribers.
Proof.
  unfold three_subscribers.
  do 3 apply addLogSubscriber_ok. apply new_Logger_registry_ok.
Qed.

(** C10: the registry invariant (a count of at most 4, the slots below the
    count non-null and pairwise distinct) holds of a new logger and is kept
    by [addLogSubscriber] and [removeLogSubscriber]; [addLogSubscriber]
    returns false and changes nothing for a null callback, a duplicate or a
    full registry; [removeLogSubscriber] returns false for a null or
    unregistered callback; a successful removal deletes the callback's slot
    and moves the later callbacks one place down, in their order. *)
Theorem subscriber_registry_invariant
    (take_ok : bool) (lg : Logger) (callback : option nat) :
  registry_ok lg ->
  (forall started backend, registry_ok (new_Logger started backend))
  /\ registry_ok (snd (addLogSubscriber take_ok lg callback))
  /\ registry_ok (snd (removeLogSubscriber take_ok lg callback))
  /\ (callback = None \/ callback ∈ live_subscribers lg
      \/ subscriberCount lg = MAX_SUBSCRIBERS ->
        addLogSubscriber take_ok lg callback = (false, lg))
  /\ (callback = None \/ callback ∉ live_subscribers lg ->
        removeLogSubscriber take_ok lg callback = (false, lg))
  /\ (fst (removeLogSubscriber take_ok lg callback) = true ->
        exists i : nat,
          live_subscribers lg !! i = Some callback
          /\ subscriberCount (snd (removeLogSubscriber take_ok lg callback))
             = (subscriberCount lg - 1)%nat
          /\ live_subscribers (snd (removeLogSubscriber take_ok lg callback))
             = delete i (live_subscribers lg)).
Proof.
  intros Hok. split; [apply new_Logger_registry_ok|].
  split; [by apply addLogSubscriber_ok|].
  split; [by apply removeLogSubscriber_ok|]. split; [|split].
  - unfold addLogSubscriber. destruct callback as [cb|]; [|done].
    intros [Hnull | [Hdup | Hfull]]; [done | |].
    + destruct (subscriberMutex lg && negb take_ok); [done|].
      destruct (subscriberCount lg <? MAX_SUBSCRIBERS)%nat; [|done].
      unfold live_subscribers in Hdup. by rewrite bool_decide_eq_true_2.
    + destruct (subscriberMutex lg && negb take_ok); [done|].
      rewrite Hfull, Nat.ltb_irrefl. done.
  - unfold removeLogSubscriber. destruct callback as [cb|]; [|done].
    intros [Hnull | Hout]; [done|].
    destruct (subscriberMutex lg && negb take_ok); [done|].
    destruct (find_subscriber (take (subscriberCount lg) (subscribers lg)) cb)
      as [i|] eqn:Hfind; [|done].
    exfalso. apply Hout. apply find_subscriber_Some in Hfind.
    by eapply list_elem_of_lookup_2.
  - pose proof (removeLogSubscriber_live lg) as Hlive.
    unfold removeLogSubscriber. destruct callback as [cb|]; [|done].
    destruct (subscriberMutex lg && negb take_ok); [done|].
    destruct (find_subscriber (take (subscriberCount lg) (subscribers lg)) cb)
      as [i|] eqn:Hfind; [|done].
    intros _. exists i. split; [by apply find_subscriber_Some|].
    split; [reflexivity|]. unfold live_subscribers at 1. simpl.
    exact (Hlive cb i Hok Hfind).
Qed.

Lemma subscriber_registry_invariant_witness :
  registry_ok (snd (removeLogSubscriber true three_subscribers (Some 8%nat)))
  /\ live_subscribers (snd (removeLogSubscriber true three_subscribers (Some 8%nat)))
     = [Some 7%nat; Some 9%nat].
Proof.
  split.
  - apply (subscriber_registry_invariant true three_subscribers (Some 8%nat)).
    exact three_subscribers_ok.
  - reflexivity.
Defined.

(** ** Queued notifications *)

Lemma cstr_of_terminated (s rest : list ascii) :
  Forall (fun c => c <> NUL) s -> cstr_of (s ++ NUL :: rest) = s.
Proof.
  induction 1 as [|c s Hc _ IH]; simpl.
  - reflexivity.
  - destruct (Ascii.eqb_spec c NUL) as [Heq|_]; [contradiction|].
    by rewrite IH.
Qed.

(** A string shorter than its array is ended by a NUL of the array. *)
Lemma cstr_of_stops (arr : list ascii) :
  (length (cstr_of arr) < length arr)%nat ->
  arr !! length (cstr_of arr) = Some NUL.
Proof.
  induction arr as [|c arr IH]; simpl; [lia|].
  destruct (Ascii.eqb_spec c NUL) as [->|_]; simpl; [done|].
  intros H. apply IH. lia.
Qed.

(** After [strncpy] and the terminator the array holds the first
    [size - 1] characters of the source, then NULs. *)
Lemma fill_field_Some (arr : list ascii) (s : cstring) (size : nat) :
  length arr = size -> (0 < size)%nat ->
  fill_field arr (Some s) size
  = take (size - 1) s ++ NUL :: replicate (size - 1 - length (take (size - 1) s)) NUL.
Proof.
  intros Hlen Hpos. unfold fill_field, strncpy.
  set (n := (size - 1)%nat).
  assert (Hdrop : exists c, drop n arr = [c]).
  { destruct (drop n arr) as [|c [|c' r]] eqn:Hd;
      pose proof (length_drop arr n) as Hl; rewrite Hd in Hl; simpl in Hl;
      subst n; [lia | by exists c | lia]. }
  destruct Hdrop as [c ->].
  assert (Hn : length (take n (s ++ replicate n NUL)) = n).
  { rewrite length_take, length_app, length_replicate. lia. }
  rewrite insert_app_r_alt by lia. rewrite Hn, Nat.sub_diag. simpl.
  rewrite take_app, take_replicate, <- app_assoc. f_equal.
  rewrite length_take.
  replace ((n - length s) `min` n)%nat with (n - n `min` length s)%nat by lia.
  generalize (n - n `min` length s)%nat. intros k.
  induction k as [|k IH]; simpl; [done|]. by rewrite IH.
Qed.

Lemma fill_field_length (arr : list ascii) (src : option cstring) (size : nat) :
  length arr = size -> length (fill_field arr src size) = size.
Proof.
  intros Hlen.
  unfold fill_field, strncpy. destruct src as [s|]; rewrite length_insert; [|done].
  rewrite length_app, length_take, length_drop, length_app, length_replicate. lia.
Qed.

Lemma fill_field_cstr (arr : list ascii) (src : option cstring) (size : nat) :
  length arr = size -> (0 < size)%nat -> c_string src ->
  cstr_of (fill_field arr src size) = take (size - 1) (chars_of src).
Proof.
  intros Hlen Hpos Hsrc. destruct src as [s|].
  - rewrite fill_field_Some by done. apply cstr_of_terminated.
    apply Forall_take. exact Hsrc.
  - destruct arr as [|c arr]; [simpl in Hlen; lia|]. simpl.
    by rewrite take_nil.
Qed.

(** C9: while the queue exists, a call of [notifySubscribers] made with
    subscribers registered, outside an interrupt and with room in the queue
    appends exactly one record to the queue and does nothing else; the record
    keeps the two arrays at their sizes, its tag field reads as the first 31
    characters at most of the tag and its message field as the first 199
    characters at most of the message (the empty string for a null pointer),
    each ended by a NUL inside its array.  In every other case (no
    subscriber, interrupt context, full queue) the queue is as before. *)
Theorem queued_notification_is_bounded_copy
    (e : NotifyEnv) (lg : Logger) (level : esp_log_level_t)
    (tag message : option cstring) (q : list LogSubscriberMessage) :
  length (msg_tag (stack_msg e)) = CONFIG_LOG_SUBSCRIBER_TAG_SIZE ->
  length (msg_message (stack_msg e)) = CONFIG_LOG_SUBSCRIBER_MSG_SIZE ->
  c_string tag ->
  c_string message ->
  subscriberQueue lg = Some q ->
  (subscriberCount lg <> 0%nat ->
   in_isr e = false ->
   (length q < CONFIG_LOG_SUBSCRIBER_QUEUE_SIZE)%nat ->
   exists m,
     notifySubscribers e lg level tag message
     = (with_queue lg (Some (q ++ [m])), [])
     /\ msg_level m = level
     /\ length (msg_tag m) = CONFIG_LOG_SUBSCRIBER_TAG_SIZE
     /\ length (msg_message m) = CONFIG_LOG_SUBSCRIBER_MSG_SIZE
     /\ cstr_of (msg_tag m) = take 31 (chars_of tag)
     /\ cstr_of (msg_message m) = take 199 (chars_of message)
     /\ (length (cstr_of (msg_tag m)) <= 31)%nat
     /\ (length (cstr_of (msg_message m)) <= 199)%nat
     /\ msg_tag m !! length (cstr_of (msg_tag m)) = Some NUL
     /\ msg_message m !! length (cstr_of (msg_message m)) = Some NUL)
  /\ (subscriberCount lg = 0%nat \/ in_isr e = true
      \/ (CONFIG_LOG_SUBSCRIBER_QUEUE_SIZE <= length q)%nat ->
      subscriberQueue (fst (notifySubscribers e lg level tag message)) = Some q
      /\ snd (notifySubscribers e lg level tag message) = []).
Proof.
  intros Htag Hmsg Hct Hcm Hq. split.
  - intros Hcount Hisr Hroom. unfold notifySubscribers.
    rewrite (proj2 (Nat.eqb_neq _ _) Hcount), Hisr, Hq.
    unfold xQueueSend. rewrite (proj2 (Nat.ltb_lt _ _) Hroom).
    eexists. split; [reflexivity|]. simpl.
    assert (Ht : cstr_of (fill_field (msg_tag (stack_msg e)) tag
                            CONFIG_LOG_SUBSCRIBER_TAG_SIZE)
                 = take 31 (chars_of tag)).
    { apply (fill_field_cstr _ _ CONFIG_LOG_SUBSCRIBER_TAG_SIZE);
        [done | unfold CONFIG_LOG_SUBSCRIBER_TAG_SIZE; lia | done]. }
    assert (Hm : cstr_of (fill_field (msg_message (stack_msg e)) message
                            CONFIG_LOG_SUBSCRIBER_MSG_SIZE)
                 = take 199 (chars_of message)).
    { apply (fill_field_cstr _ _ CONFIG_LOG_SUBSCRIBER_MSG_SIZE);
        [done | unfold CONFIG_LOG_SUBSCRIBER_MSG_SIZE; lia | done]. }
    pose proof (fill_field_length _ tag _ Htag) as Hlt.
    pose proof (fill_field_length _ message _ Hmsg) as Hlm.
    assert (Hbt : (length (take 31 (chars_of tag)) <= 31)%nat)
      by (rewrite length_take; lia).
    assert (Hbm : (length (take 199 (chars_of message)) <= 199)%nat)
      by (rewrite length_take; lia).
    repeat split; try done; try (rewrite ?Ht, ?Hm; done).
    + apply cstr_of_stops. rewrite Hlt, Ht.
      unfold CONFIG_LOG_SUBSCRIBER_TAG_SIZE. lia.
    + apply cstr_of_stops. rewrite Hlm, Hm.
      unfold CONFIG_LOG_SUBSCRIBER_MSG_SIZE. lia.
  - intros Hskip. unfold notifySubscribers.
    destruct (Nat.eqb_spec (subscriberCount lg) 0) as [_|Hcount]; [done|].
    destruct (in_isr e) eqn:Hisr; [done|].
    destruct Hskip as [Hzero | [Habs | Hfull]]; [done | done |].
    rewrite Hq. unfold xQueueSend.
    rewrite (proj2 (Nat.ltb_ge _ _) Hfull). done.
Qed.

Lemma queued_notification_is_bounded_copy_witness :
  exists m,
    notifySubscribers {| in_isr := false; stack_msg := blank_msg; take_sub := true |}
      queued_subscribers ESP_LOG_WARN (Some long_tag) None
    = (with_queue queued_subscribers (Some ([] ++ [m])), [])
    /\ msg_level m = ESP_LOG_WARN
    /\ length (msg_tag m) = CONFIG_LOG_SUBSCRIBER_TAG_SIZE
    /\ length (msg_message m) = CONFIG_LOG_SUBSCRIBER_MSG_SIZE
    /\ cstr_of (msg_tag m) = lit "sensor/temperature/boiler/outle"
    /\ cstr_of (msg_message m) = []
    /\ (length (cstr_of (msg_tag m)) <= 31)%nat
    /\ (length (cstr_of (msg_message m)) <= 199)%nat
    /\ msg_tag m !! length (cstr_of (msg_tag m)) = Some NUL
    /\ msg_message m !! length (cstr_of (msg_message m)) = Some NUL.
Proof.
  apply (queued_notification_is_bounded_copy
           {| in_isr := false; stack_msg := blank_msg; take_sub := true |}
           queued_subscribers ESP_LOG_WARN (Some long_tag) None []).
  - reflexivity.
  - reflexivity.
  - vm_compute. repeat constructor; discriminate.
  - exact I.
  - reflexivity.
  - discriminate.
  - reflexivity.
  - vm_compute. lia.
Defined.

(** ** Direct mode *)

(** The branches of [notifySubscribers]: no subscriber, interrupt context,
    queue, synchronous call with or without the lock. *)
Ltac notify_cases ne lg :=
  unfold notifySubscribers;
  destruct (subscriberCount lg =? 0)%nat;
  [| destruct (in_isr ne);
     [| destruct (subscriberQueue lg);
        [| destruct (subscriberMutex lg && take_sub ne)]]].

Lemma notifySubscribers_keeps (ne : NotifyEnv) (lg : Logger)
    (level : esp_log_level_t) (tag message : option cstring) :
  let lg' := fst (notifySubscribers ne lg level tag message) in
  backends lg' = backends lg
  /\ backendMutex lg' = backendMutex lg
  /\ maxLogsPerSecond lg' = maxLogsPerSecond lg
  /\ lastLogTime lg' = lastLogTime lg
  /\ logCounter lg' = logCounter lg
  /\ droppedLogs lg' = droppedLogs lg
  /\ mutexTimeouts_ lg' = mutexTimeouts_ lg.
Proof.
  notify_cases ne lg; done.
Qed.






(** The direct-mode scenario of the spec: with the window full, [logDirect]
    still reaches the backend while [log] is rejected and counted. *)
Example direct_mode_scenario :
  logDirect (calm_env 50) (full_window 0) (BufferPool.fresh true)
    ESP_LOG_ERROR (Some QUIET) (Some (lit "overheat"))
  = Done (full_window 0) (BufferPool.fresh true)
      [BackendWrite 0 (lit "[50][loop][E] QUIET: overheat" ++ [CR; LF]) 31]
  /\ log true (calm_env 50) (full_window 0) (BufferPool.fresh true)
       ESP_LOG_ERROR (Some QUIET) (Some (lit "overheat")) plain_args
     = Done (with_rate (full_window 0) 1 0 1 1) (BufferPool.fresh true) [].
Proof. vm_compute. split; reflexivity. Qed.

(** ** Null arguments of [log] and [logV] *)

Lemma checkRateLimit_keeps (take_ok : bool) (now : Z) (lg : Logger) :
  let lg' := snd (checkRateLimit take_ok now lg) in
  backends lg' = backends lg
  /\ backendMutex lg' = backendMutex lg
  /\ subscribers lg' = subscribers lg
  /\ subscriberCount lg' = subscriberCount lg
  /\ subscriberQueue lg' = subscriberQueue lg.
Proof.
  unfold checkRateLimit.
  destruct (maxLogsPerSecond lg =? 0); [done|].
  destruct (rateLimitMutex lg); simpl; [|done].
  destruct take_ok; [|done].
  destruct (RATE_LIMIT_WINDOW_MS <=? _); [done|].
  destruct (logCounter lg <? maxLogsPerSecond lg); done.
Qed.

Lemma backend_writes_of_calls (cbs : list (option nat)) level tag message :
  filter (fun ev => is_backend_write ev = true) (call_all cbs level tag message)
  = [].
Proof.
  induction cbs as [|[c|] cbs IH]; simpl; [done | | exact IH].
  unfold call_all in *. simpl. rewrite filter_cons_False by done. exact IH.
Qed.

Lemma backend_writes_of_writes (bs : list (option nat)) buffer len :
  filter (fun ev => is_backend_write ev = true) (write_all bs buffer len)
  = write_all bs buffer len.
Proof.
  induction bs as [|[b|] bs IH]; simpl; [done | | exact IH].
  unfold write_all in *. simpl. rewrite filter_cons_True by done.
  by rewrite IH.
Qed.

Lemma backend_writes_of_notify (ne : NotifyEnv) lg level tag message :
  filter (fun ev => is_backend_write ev = true)
    (snd (notifySubscribers ne lg level tag message)) = [].
Proof.
  notify_cases ne lg; try done. apply backend_writes_of_calls.
Qed.

(** With a null tag the filter reads neither the table nor its lock. *)
Lemma isLevelEnabledForTag_null (take_ok : bool) (lg : Logger)
    (level : esp_log_level_t) :
  isLevelEnabledForTag take_ok lg None level
  = isLoggingEnabled lg && negb (is_none level)
    && level_le level (globalLogLevel lg).
Proof.
  unfold isLevelEnabledForTag.
  destruct (isLoggingEnabled lg), (is_none level); reflexivity.
Qed.

(** A null format reaches [vsnprintf] once the call is admitted and has its
    buffer. *)
Lemma logV_null_format_faults (e : LogEnv) (lg : Logger) (pool : BufferPool.t)
    (level : esp_log_level_t) (tag : option cstring) (args : va_list) :
  isLevelEnabledForTag (take_tag e) lg tag level = true ->
  fst (checkRateLimit (take_rate e) (millis_rate e) lg) = true ->
  is_Some (fst (BufferPool.acquire (acquire_format e) pool)) ->
  logV e lg pool level tag None args = Fault.
Proof.
  intros Hpass Hrate [buf Hbuf]. unfold logV. rewrite Hpass. cbn [negb].
  destruct (checkRateLimit (take_rate e) (millis_rate e) lg) as [ok lg1].
  simpl in Hrate. subst ok. cbn [negb].
  destruct (BufferPool.acquire (acquire_format e) pool) as [fb pool1].
  simpl in Hbuf. subst fb. reflexivity.
Qed.

(** C4 (as amended): a call of [log] or [logV] with a null tag is filtered
    against the global level alone; it is a no-op (no write, no
    notification, no counter change, no fault) when logging is disabled, the
    level is NONE or the level is above the global level; otherwise it is
    processed like any other call and the record carries ["?"] in place of
    the tag. *)
Theorem null_tag_filtered_by_global_level
    (take_outer : bool) (e : LogEnv) (lg : Logger) (pool : BufferPool.t)
    (level : esp_log_level_t) (format : option cstring) (args : va_list) :
  let passes :=
    isLoggingEnabled lg && negb (is_none level)
    && level_le level (globalLogLevel lg) in
  isLevelEnabledForTag (take_tag e) lg None level = passes
  /\ log take_outer e lg pool level None format args
     = logV e lg pool level None format args
  /\ (passes = false -> logV e lg pool level None format args = Done lg pool [])
  /\ (forall text,
        record_text (millis_stamp e) (task_name e) level None text
        = record_text (millis_stamp e) (task_name e) level (Some (lit "?")) text)
  /\ (forall f,
        passes = true ->
        fst (checkRateLimit (take_rate e) (millis_rate e) lg) = true ->
        is_Some (fst (BufferPool.acquire (acquire_format e) pool)) ->
        is_Some (fst (BufferPool.acquire (acquire_full e)
                        (snd (BufferPool.acquire (acquire_format e) pool)))) ->
        backendMutex lg = false \/ take_backend e = true ->
        let text := take 255 (args f) in
        let full := record_text (millis_stamp e) (task_name e) level None text in
        backend_writes (logV e lg pool level None (Some f) args)
        = write_all (backends lg) (take 255 full)
            (if 256 <=? Z.of_nat (length full) then 255
             else Z.of_nat (length full))).
Proof.
  intros passes.
  pose proof (isLevelEnabledForTag_null (take_tag e) lg level) as Hin.
  pose proof (isLevelEnabledForTag_null take_outer lg level) as Hout.
  fold passes in Hin, Hout.
  split; [exact Hin|]. split; [|split; [|split]].
  - unfold log. rewrite Hout. destruct passes eqn:Hp; [reflexivity|].
    symmetry. apply logV_filtered. by rewrite Hin.
  - intros Hp. apply logV_filtered. by rewrite Hin.
  - reflexivity.
  - intros f Hp Hrate [b1 Hb1] [b2 Hb2] Hlock text full.
    unfold logV. rewrite Hin, Hp. cbn [negb].
    pose proof (checkRateLimit_keeps (take_rate e) (millis_rate e) lg)
      as (Hb & Hbm & _).
    destruct (checkRateLimit (take_rate e) (millis_rate e) lg) as [ok lg1].
    cbn [fst snd] in *. subst ok. cbn [negb].
    destruct (BufferPool.acquire (acquire_format e) pool) as [fb pool1].
    cbn [fst snd] in *. subst fb. cbn [vsnprintf].
    pose proof (notifySubscribers_keeps (notify_env e) lg1 level None
                  (Some (take (CONFIG_LOG_BUFFER_SIZE - 1) (args f))))
      as (Hb' & Hbm' & _).
    pose proof (backend_writes_of_notify (notify_env e) lg1 level None
                  (Some (take (CONFIG_LOG_BUFFER_SIZE - 1) (args f))))
      as Hnotify.
    destruct (notifySubscribers (notify_env e) lg1 level None
                (Some (take (CONFIG_LOG_BUFFER_SIZE - 1) (args f))))
      as [lg2 ev1].
    cbn [fst snd] in *.
    destruct (BufferPool.acquire (acquire_full e) pool1) as [fm pool2].
    cbn [fst snd] in *. subst fm. cbn [snprintf backend_writes].
    rewrite filter_app, Hnotify. cbn [app].
    unfold writeToBackends. rewrite Hb', Hbm', Hb, Hbm.
    assert (Hw : (if negb (backendMutex lg)
                  then write_all (backends lg) (take 255 full)
                         (if 256 <=? Z.of_nat (length full) then 255
                          else Z.of_nat (length full))
                  else if take_backend e
                       then write_all (backends lg) (take 255 full)
                              (if 256 <=? Z.of_nat (length full) then 255
                               else Z.of_nat (length full))
                       else [])
                 = write_all (backends lg) (take 255 full)
                     (if 256 <=? Z.of_nat (length full) then 255
                      else Z.of_nat (length full))).
    { destruct Hlock as [-> | ->]; [reflexivity|].
      destruct (backendMutex lg); reflexivity. }
    etransitivity; [|apply backend_writes_of_writes].
    f_equal. exact Hw.
Qed.

Lemma null_tag_filtered_by_global_level_witness :
  logV (calm_env 1000) started_logger (BufferPool.fresh true)
    ESP_LOG_DEBUG None (Some (lit "boot")) plain_args
  = Done started_logger (BufferPool.fresh true) [].
Proof.
  apply (null_tag_filtered_by_global_level true (calm_env 1000) started_logger
           (BufferPool.fresh true) ESP_LOG_DEBUG (Some (lit "boot")) plain_args).
  reflexivity.
Defined.

(** C4 as stated fails for a null tag: the call is admitted, the record is
    handed to the backend with ["?"] as its tag, and the rate limiter's
    window and count change. *)
Lemma null_tag_is_logged :
  logV (calm_env 1000) started_logger (BufferPool.fresh true)
    ESP_LOG_INFO None (Some (lit "boot")) plain_args
  = Done (with_rate started_logger 100 1000 1 0) (BufferPool.fresh true)
      [BackendWrite 0 (lit "[1000][loop][I] ?: boot" ++ [CR; LF]) 25]
  /\ log true (calm_env 1000) started_logger (BufferPool.fresh true)
       ESP_LOG_INFO None (Some (lit "boot")) plain_args
     = Done (with_rate started_logger 100 1000 1 0) (BufferPool.fresh true)
         [BackendWrite 0 (lit "[1000][loop][I] ?: boot" ++ [CR; LF]) 25].
Proof. vm_compute. split; reflexivity. Qed.

(** ** Tag table: tags that fit their array *)

Lemma find_tag_Some (entries : list TagLevel) (tag : cstring) (i : nat) :
  tags_fit entries -> find_tag entries tag = Some i ->
  exists e, entries !! i = Some e /\ tl_tag e = tag.
Proof.
  intros Hfit. revert i. induction Hfit as [|e rest Hlen _ IH]; intros i; simpl;
    [done|].
  destruct (Z.eqb_spec (strncmp (tl_tag e) tag CONFIG_LOG_SUBSCRIBER_TAG_SIZE) 0)
    as [Hz|_].
  - intros [= <-]. exists e. split; [done|]. by apply (strncmp_zero_iff _ _ _ Hlen).
  - destruct (find_tag rest tag) as [k|]; simpl; [|done].
    intros [= <-]. by apply IH.
Qed.

Lemma find_tag_None (entries : list TagLevel) (tag : cstring) :
  find_tag entries tag = None -> tag ∉ tl_tag <$> entries.
Proof.
  induction entries as [|e rest IH]; simpl; [intros _; apply not_elem_of_nil|].
  destruct (Z.eqb_spec (strncmp (tl_tag e) tag CONFIG_LOG_SUBSCRIBER_TAG_SIZE) 0)
    as [_|Hnz]; [done|].
  destruct (find_tag rest tag); simpl; [done|]. intros _.
  rewrite not_elem_of_cons. split; [|by apply IH].
  intros ->. apply Hnz. apply strncmp_refl.
Qed.

Lemma override_after_update (entries : list TagLevel) (tag : cstring) (i : nat)
    (level : esp_log_level_t) :
  tags_fit entries -> find_tag entries tag = Some i ->
  stored_level (alter (set_level level) i entries) tag = Some level.
Proof.
  intros Hfit. revert i. induction Hfit as [|e rest Hlen _ IH]; intros i; simpl;
    [done|].
  destruct (Z.eqb_spec (strncmp (tl_tag e) tag CONFIG_LOG_SUBSCRIBER_TAG_SIZE) 0)
    as [Hz|Hnz].
  - intros [= <-]. simpl. apply (strncmp_zero_iff _ _ _ Hlen) in Hz.
    by rewrite decide_True.
  - destruct (find_tag rest tag) as [k|]; simpl; [|done].
    intros [= <-]. simpl. rewrite decide_False; [by apply IH|].
    intros Heq. apply Hnz. rewrite <- Heq. apply strncmp_refl.
Qed.

Lemma names_after_update (entries : list TagLevel) (i : nat)
    (level : esp_log_level_t) :
  tl_tag <$> alter (set_level level) i entries = tl_tag <$> entries.
Proof.
  revert i. induction entries as [|e rest IH]; intros [|i]; simpl; [done..| ].
  f_equal. apply IH.
Qed.

Lemma new_Logger_table_ok (started : bool) (backend : nat) :
  table_ok (new_Logger started backend).
Proof.
  unfold table_ok, live_tags, tags_fit. simpl.
  repeat split; [unfold CONFIG_LOG_MAX_TAGS; lia | constructor | constructor].
Qed.

(** What [doSetTagLevel] does with a tag of at most 31 characters. *)
Lemma doSetTagLevel_short_tag (lg : Logger) (t : cstring)
    (level : esp_log_level_t) :
  table_ok lg ->
  (length t < CONFIG_LOG_SUBSCRIBER_TAG_SIZE)%nat ->
  let lg' := fst (doSetTagLevel lg t (length t) level) in
  table_ok lg'
  /\ (t ∈ tl_tag <$> live_tags lg ->
        tagLevelCount_ lg' = tagLevelCount_ lg
        /\ tl_tag <$> live_tags lg' = tl_tag <$> live_tags lg
        /\ stored_level (live_tags lg') t = Some level)
  /\ (t ∉ tl_tag <$> live_tags lg ->
      (tagLevelCount_ lg < CONFIG_LOG_MAX_TAGS)%nat ->
        live_tags lg' = live_tags lg ++ [{| tl_tag := t; tl_level := level |}])
  /\ (t ∉ tl_tag <$> live_tags lg ->
      tagLevelCount_ lg = CONFIG_LOG_MAX_TAGS ->
        lg' = lg).
Proof.
  intros (Hlen & Hcnt & Hfit & Hnd) Ht. unfold doSetTagLevel.
  fold (live_tags lg).
  destruct (find_tag (live_tags lg) t) as [i|] eqn:Hfind.
  - (* the tag has an entry: its level is overwritten in place *)
    destruct (find_tag_Some _ _ _ Hfit Hfind) as (e0 & Hi & He0).
    assert (Hin : (i < tagLevelCount_ lg)%nat).
    { apply lookup_lt_Some in Hi. unfold live_tags in Hi.
      rewrite length_take in Hi. lia. }
    assert (Hlive : live_tags
                      (with_tags lg (alter (set_level level) i (tagLevels_ lg))
                         (tagLevelCount_ lg))
                    = alter (set_level level) i (live_tags lg)).
    { unfold live_tags. simpl. by rewrite take_alter_lt. }
    cbn [fst]. rewrite Hlive. unfold table_ok. rewrite Hlive.
    rewrite names_after_update. simpl. rewrite length_alter.
    repeat split; try done.
    + apply Forall_alter; [exact Hfit|]. intros x _ Hx. exact Hx.
    + by apply override_after_update.
    + intros Hout. exfalso. apply Hout.
      apply list_elem_of_fmap. exists e0. split; [done|].
      by eapply list_elem_of_lookup_2.
    + intros Hout. exfalso. apply Hout.
      apply list_elem_of_fmap. exists e0. split; [done|].
      by eapply list_elem_of_lookup_2.
  - (* no entry: append while there is room *)
    pose proof (find_tag_None _ _ Hfind) as Hout.
    destruct (Nat.ltb_spec (tagLevelCount_ lg) CONFIG_LOG_MAX_TAGS) as [Hroom|Hfull].
    + assert (Hlive : live_tags
                        (with_tags lg
                           (<[tagLevelCount_ lg :=
                                {| tl_tag := take (length t) t; tl_level := level |}]>
                              (tagLevels_ lg))
                           (S (tagLevelCount_ lg)))
                      = live_tags lg ++ [{| tl_tag := t; tl_level := level |}]).
      { unfold live_tags. simpl. rewrite firstn_all.
        rewrite (take_S_r _ _ {| tl_tag := t; tl_level := level |}).
        - by rewrite take_insert_ge by lia.
        - apply list_lookup_insert_eq. lia. }
      cbn [fst]. unfold table_ok. rewrite Hlive. simpl. rewrite length_insert.
      repeat split; try done.
      * apply Forall_app. split; [exact Hfit|]. apply Forall_singleton. exact Ht.
      * rewrite fmap_app. apply NoDup_app. repeat split; [exact Hnd | |].
        -- intros x Hx Hx'. simpl in Hx'. apply list_elem_of_singleton in Hx'.
           by subst x.
        -- apply NoDup_singleton.
      * intros _ Hfull. lia.
    + cbn [fst]. repeat split; try done. intros _ Hroom. lia.
Qed.

(** The invariant is kept by [setTagLevel] on tags of at most 31
    characters, whatever happens to the lock. *)
Lemma setTagLevel_short_tag_ok (take_ok : bool) (lg : Logger) (t : cstring)
    (level : esp_log_level_t) :
  table_ok lg ->
  (length t < CONFIG_LOG_SUBSCRIBER_TAG_SIZE)%nat ->
  table_ok (fst (setTagLevel take_ok lg (Some t) level)).
Proof.
  intros Hok Ht. unfold setTagLevel.
  destruct (strlen t =? 0); [exact Hok|].
  rewrite (proj2 (Nat.leb_gt _ _) Ht).
  destruct (tagMutex lg); cbn [negb].
  - destruct take_ok; [|exact Hok].
    apply (doSetTagLevel_short_tag lg t level Hok Ht).
  - apply (doSetTagLevel_short_tag lg t level Hok Ht).
Qed.

(** C6 fails on the code: the table starts within its invariant, and setting
    the same 40-character tag twice leaves two live entries that hold the
    same string (the first 31 characters of the tag), the first of them with
    the old level, which is the one the filter then reads. *)
Theorem setTagLevel_long_tag_duplicates :
  table_ok started_logger
  /\ tagLevelCount_ long_tag_once = 1%nat
  /\ tagLevelCount_ long_tag_twice = 2%nat
  /\ live_tags long_tag_twice
     = [ {| tl_tag := take 31 long_tag; tl_level := ESP_LOG_ERROR |};
         {| tl_tag := take 31 long_tag; tl_level := ESP_LOG_WARN |} ]
  /\ ~ NoDup (tl_tag <$> live_tags long_tag_twice)
  /\ isLevelEnabledForTag true long_tag_twice (Some (take 31 long_tag)) ESP_LOG_WARN
     = false.
Proof.
  split; [apply new_Logger_table_ok|].
  split; [reflexivity|]. split; [reflexivity|]. split; [reflexivity|].
  split; [|reflexivity].
  intros Hnd. apply NoDup_cons in Hnd as [Hnotin _]. apply Hnotin.
  apply list_elem_of_here.
Qed.

(** * Further properties *)

(** ** Buffer pool *)

Lemma first_free_Some (flags : list bool) (i : nat) :
  BufferPool.first_free flags = Some i ->
  flags !! i = Some false /\ forall j, (j < i)%nat -> flags !! j = Some true.
Proof.
  revert i. induction flags as [|[|] rest IH]; intros i; simpl; [done| |].
  - destruct (BufferPool.first_free rest) as [k|]; simpl; [|done].
    intros [= <-]. destruct (IH k eq_refl) as [Hk Hlow]. split; [exact Hk|].
    intros [|j] Hj; simpl; [done|]. apply Hlow. lia.
  - intros [= <-]. split; [done|]. intros j Hj. lia.
Qed.

Lemma first_free_None (flags : list bool) :
  BufferPool.first_free flags = None <-> Forall (fun b => b = true) flags.
Proof.
  induction flags as [|[|] rest IH]; simpl.
  - split; [constructor|done].
  - destruct (BufferPool.first_free rest); simpl.
    + split; [done|]. intros H. apply Forall_cons in H as [_ H].
      by apply IH in H.
    + split; [|done]. intros _. constructor; [done|]. by apply IH.
  - split; [done|]. intros H. apply Forall_cons in H as [H _]. done.
Qed.

Lemma pool_eta (p : BufferPool.t) :
  BufferPool.Build (BufferPool.inUse p) (BufferPool.poolMutex p) = p.
Proof. by destruct p. Qed.

Lemma release_acquire (e : BufferPool.AcquireEnv) (p : BufferPool.t) :
  BufferPool.release (fst (BufferPool.acquire e p))
    (snd (BufferPool.acquire e p)) = p.
Proof.
  unfold BufferPool.acquire.
  destruct (BufferPool.poolMutex p) eqn:Hm; cbn [negb].
  - destruct (BufferPool.take_pool e).
    + destruct (BufferPool.first_free (BufferPool.inUse p)) as [i|] eqn:Hf.
      * apply first_free_Some in Hf as [Hi _]. simpl.
        rewrite list_insert_insert_eq, (list_insert_id _ _ _ Hi).
        rewrite <- Hm. apply pool_eta.
      * simpl. destruct (BufferPool.malloc_ok e); reflexivity.
    + simpl. destruct (BufferPool.malloc_ok e); reflexivity.
  - simpl. destruct (BufferPool.malloc_ok e); reflexivity.
Qed.

Lemma acquire_twice_release_restores
    (e1 e2 : BufferPool.AcquireEnv) (p : BufferPool.t) :
  let first := BufferPool.acquire e1 p in
  let second := BufferPool.acquire e2 (snd first) in
  BufferPool.release (fst first) (BufferPool.release (fst second) (snd second))
  = p.
Proof.
  intros first second. subst second.
  rewrite release_acquire. subst first.
  apply release_acquire.
Qed.

Lemma acquire_None_keeps (e : BufferPool.AcquireEnv) (p : BufferPool.t) :
  fst (BufferPool.acquire e p) = None -> snd (BufferPool.acquire e p) = p.
Proof.
  unfold BufferPool.acquire.
  destruct (negb (BufferPool.poolMutex p)); [done|].
  destruct (BufferPool.take_pool e); [|done].
  destruct (BufferPool.first_free (BufferPool.inUse p)); done.
Qed.

(** Releasing what [acquire] handed out gives the pool back as it was,
    whichever way the buffer was found (pool slot, heap block or null); the
    same holds for two buffers acquired one after the other and released in
    the opposite order, as the logging functions do. *)
Theorem acquire_release_restores
    (e1 e2 : BufferPool.AcquireEnv) (p : BufferPool.t) :
  BufferPool.release (fst (BufferPool.acquire e1 p))
    (snd (BufferPool.acquire e1 p)) = p
  /\ (let first := BufferPool.acquire e1 p in
      let second := BufferPool.acquire e2 (snd first) in
      BufferPool.release (fst first)
        (BufferPool.release (fst second) (snd second)) = p).
Proof.
  split; [apply release_acquire|apply acquire_twice_release_restores].
Qed.

(** A slot handed out by [acquire] was free, is the lowest free slot, is
    marked in use afterwards, and is not handed out again by the next
    [acquire]; the pool keeps its size. *)
Theorem acquire_hands_out_free_slot
    (e e' : BufferPool.AcquireEnv) (p p' : BufferPool.t) (i : nat) :
  BufferPool.acquire e p = (Some (BufferPool.Slot i), p') ->
  BufferPool.inUse p !! i = Some false
  /\ (forall j, (j < i)%nat -> BufferPool.inUse p !! j = Some true)
  /\ BufferPool.inUse p' = <[i := true]> (BufferPool.inUse p)
  /\ BufferPool.inUse p' !! i = Some true
  /\ length (BufferPool.inUse p') = length (BufferPool.inUse p)
  /\ fst (BufferPool.acquire e' p') <> Some (BufferPool.Slot i).
Proof.
  unfold BufferPool.acquire at 1.
  destruct (BufferPool.poolMutex p) eqn:Hm; cbn [negb];
    [|destruct (BufferPool.malloc_ok e); done].
  destruct (BufferPool.take_pool e);
    [|destruct (BufferPool.malloc_ok e); done].
  destruct (BufferPool.first_free (BufferPool.inUse p)) as [k|] eqn:Hf;
    [|destruct (BufferPool.malloc_ok e); done].
  intros [= -> <-]. destruct (first_free_Some _ _ Hf) as [Hi Hlow].
  assert (Hset : <[i := true]> (BufferPool.inUse p) !! i = Some true).
  { apply list_lookup_insert_eq. by eapply lookup_lt_Some. }
  simpl. repeat split; try done.
  - by rewrite length_insert.
  - unfold BufferPool.acquire. simpl.
    destruct (BufferPool.take_pool e');
      [|destruct (BufferPool.malloc_ok e'); done].
    destruct (BufferPool.first_free (<[i:=true]> (BufferPool.inUse p)))
      as [k|] eqn:Hf'; [|destruct (BufferPool.malloc_ok e'); done].
    simpl. intros [= ->]. apply first_free_Some in Hf' as [Hk _]. congruence.
Qed.

Lemma acquire_hands_out_free_slot_witness :
  fst (BufferPool.acquire calm_acquire
         (snd (BufferPool.acquire calm_acquire (BufferPool.fresh true))))
  <> Some (BufferPool.Slot 0).
Proof.
  apply (acquire_hands_out_free_slot calm_acquire calm_acquire
           (BufferPool.fresh true)
           (snd (BufferPool.acquire calm_acquire (BufferPool.fresh true))) 0).
  reflexivity.
Defined.

(** [acquire] returns null exactly when no pool slot could be taken (no
    mutex, lock not obtained, or every slot in use) and [malloc] fails;
    whenever it does not hand out a pool slot the pool is unchanged. *)
Theorem acquire_null_only_without_memory
    (e : BufferPool.AcquireEnv) (p : BufferPool.t) :
  (fst (BufferPool.acquire e p) = None
   <-> BufferPool.malloc_ok e = false
       /\ (BufferPool.poolMutex p = false \/ BufferPool.take_pool e = false
           \/ Forall (fun b => b = true) (BufferPool.inUse p)))
  /\ ((forall i, fst (BufferPool.acquire e p) <> Some (BufferPool.Slot i)) ->
      snd (BufferPool.acquire e p) = p).
Proof.
  unfold BufferPool.acquire.
  destruct (BufferPool.poolMutex p) eqn:Hm; cbn [negb].
  - destruct (BufferPool.take_pool e) eqn:Ht.
    + destruct (BufferPool.first_free (BufferPool.inUse p)) as [i|] eqn:Hf.
      * simpl. split.
        -- split; [done|]. intros (_ & [H | [H | H]]); try done.
           apply first_free_None in H. congruence.
        -- intros H. by destruct (H i).
      * apply first_free_None in Hf. simpl.
        destruct (BufferPool.malloc_ok e); simpl; split; try done;
          split; try done; try (intros [? _]; done). intros _. auto.
    + simpl. destruct (BufferPool.malloc_ok e); simpl; split; try done;
        split; try done; try (intros [? _]; done). intros _. auto.
  - simpl. destruct (BufferPool.malloc_ok e); simpl; split; try done;
      split; try done; try (intros [? _]; done). intros _. auto.
Qed.

(** Every logging operation that returns has given back the buffers it
    took: the pool is as before the call, whatever was filtered, rejected,
    notified or written. *)
Theorem logging_returns_buffers
    (e : LogEnv) (lg : Logger) (pool : BufferPool.t)
    (level : esp_log_level_t) (tag text : option cstring) (args : va_list) :
  (forall lg' pool' events,
     logV e lg pool level tag text args = Done lg' pool' events -> pool' = pool)
  /\ (forall lg' pool' events,
        logNnL e lg pool level tag text args = Done lg' pool' events ->
        pool' = pool)
  /\ (forall lg' pool' events,
        logInL e lg pool text args = Done lg' pool' events -> pool' = pool)
  /\ (forall lg' pool' events,
        logDirect e lg pool level tag text = Done lg' pool' events ->
        pool' = pool).
Proof.
  split; [|split; [|split]]; intros lg' pool' events.
  - unfold logV.
    destruct (isLevelEnabledForTag (take_tag e) lg tag level); cbn [negb];
      [|by intros [= _ <- _]].
    destruct (checkRateLimit (take_rate e) (millis_rate e) lg) as [[|] lg1];
      cbn [negb]; [|by intros [= _ <- _]].
    pose proof (acquire_twice_release_restores (acquire_format e)
                  (acquire_full e) pool) as Htwice.
    pose proof (release_acquire (acquire_format e) pool) as Hone.
    pose proof (acquire_None_keeps (acquire_format e) pool) as Hnone.
    cbn zeta in Htwice.
    destruct (BufferPool.acquire (acquire_format e) pool) as [fb pool1].
    cbn [fst snd] in *. destruct fb as [h|]; [|intros [= _ <- _]; by apply Hnone].
    destruct (vsnprintf CONFIG_LOG_BUFFER_SIZE text args) as [t|]; [|done].
    destruct (notifySubscribers (notify_env e) lg1 level tag (Some t))
      as [lg2 ev1].
    pose proof (acquire_None_keeps (acquire_full e) pool1) as Hnone2.
    destruct (BufferPool.acquire (acquire_full e) pool1) as [fm pool2].
    cbn [fst snd] in *. destruct fm as [h2|].
    + cbn [snprintf]. intros [= _ <- _]. exact Htwice.
    + intros [= _ <- _]. rewrite Hnone2 by done. exact Hone.
  - unfold logNnL.
    destruct (isLevelEnabledForTag (take_tag e) lg tag level); cbn [negb];
      [|by intros [= _ <- _]].
    destruct (checkRateLimit (take_rate e) (millis_rate e) lg) as [[|] lg1];
      cbn [negb]; [|by intros [= _ <- _]].
    pose proof (acquire_twice_release_restores (acquire_format e)
                  (acquire_full e) pool) as Htwice.
    pose proof (release_acquire (acquire_format e) pool) as Hone.
    pose proof (acquire_None_keeps (acquire_format e) pool) as Hnone.
    cbn zeta in Htwice.
    destruct (BufferPool.acquire (acquire_format e) pool) as [fb pool1].
    cbn [fst snd] in *. destruct fb as [h|]; [|intros [= _ <- _]; by apply Hnone].
    destruct (vsnprintf CONFIG_LOG_BUFFER_SIZE text args) as [t|]; [|done].
    destruct (notifySubscribers (notify_env e) lg1 level tag (Some t))
      as [lg2 ev1].
    pose proof (acquire_None_keeps (acquire_full e) pool1) as Hnone2.
    destruct (BufferPool.acquire (acquire_full e) pool1) as [fm pool2].
    cbn [fst snd] in *. destruct fm as [h2|].
    + cbn [snprintf]. intros [= _ <- _]. exact Htwice.
    + intros [= _ <- _]. rewrite Hnone2 by done. exact Hone.
  - unfold logInL. destruct (isLoggingEnabled lg); cbn [negb];
      [|by intros [= _ <- _]].
    destruct (checkRateLimit (take_rate e) (millis_rate e) lg) as [[|] lg1];
      cbn [negb]; [|by intros [= _ <- _]].
    pose proof (release_acquire (acquire_format e) pool) as Hone.
    pose proof (acquire_None_keeps (acquire_format e) pool) as Hnone.
    destruct (BufferPool.acquire (acquire_format e) pool) as [fb pool1].
    cbn [fst snd] in *. destruct fb as [h|]; [|intros [= _ <- _]; by apply Hnone].
    destruct (vsnprintf CONFIG_LOG_BUFFER_SIZE text args) as [t|]; [|done].
    destruct (notifySubscribers (notify_env e) lg1 ESP_LOG_INFO
                (Some (lit "INL")) (Some t)) as [lg2 ev1].
    intros [= _ <- _]. exact Hone.
  - unfold logDirect. destruct text as [t|]; [|by intros [= _ <- _]].
    destruct (isLevelEnabledForTag (take_tag e) lg tag level); cbn [negb];
      [|by intros [= _ <- _]].
    destruct (notifySubscribers (notify_env e) lg level tag (Some t))
      as [lg1 ev1].
    pose proof (release_acquire (acquire_full e) pool) as Hone.
    pose proof (acquire_None_keeps (acquire_full e) pool) as Hnone.
    destruct (BufferPool.acquire (acquire_full e) pool) as [fm pool1].
    cbn [fst snd] in *. destruct fm as [h|].
    + cbn [snprintf]. intros [= _ <- _]. exact Hone.
    + intros [= _ <- _]. by apply Hnone.
Qed.

(** ** Tag table *)

Lemma setTagLevel_keeps_settings (take_ok : bool) (lg : Logger)
    (tag : option cstring) (level : esp_log_level_t) :
  let lg' := fst (setTagLevel take_ok lg tag level) in
  globalLogLevel lg' = globalLogLevel lg
  /\ isLoggingEnabled lg' = isLoggingEnabled lg
  /\ tagMutex lg' = tagMutex lg.
Proof.
  unfold setTagLevel. destruct tag as [t|]; [|done].
  destruct (strlen t =? 0); [done|].
  assert (Hdo : forall n,
             let lg' := fst (doSetTagLevel lg t n level) in
             globalLogLevel lg' = globalLogLevel lg
             /\ isLoggingEnabled lg' = isLoggingEnabled lg
             /\ tagMutex lg' = tagMutex lg).
  { intros n. unfold doSetTagLevel.
    destruct (find_tag _ t); [done|].
    destruct (tagLevelCount_ lg <? CONFIG_LOG_MAX_TAGS)%nat; done. }
  destruct (negb (tagMutex lg)); [apply Hdo|].
  destruct take_ok; [apply Hdo|done].
Qed.

Lemma stored_level_app_new (entries : list TagLevel) (t t' : cstring)
    (level : esp_log_level_t) :
  stored_level (entries ++ [{| tl_tag := t; tl_level := level |}]) t'
  = match stored_level entries t' with
    | Some l => Some l
    | None => if decide (t = t') then Some level else None
    end.
Proof.
  induction entries as [|e rest IH]; simpl.
  - destruct (decide (t = t')); reflexivity.
  - destruct (decide (tl_tag e = t')); [reflexivity|exact IH].
Qed.

Lemma stored_level_None (entries : list TagLevel) (t : cstring) :
  t ∉ tl_tag <$> entries -> stored_level entries t = None.
Proof.
  induction entries as [|e rest IH]; simpl; [done|].
  rewrite not_elem_of_cons. intros [Hne Hrest].
  rewrite decide_False by congruence. by apply IH.
Qed.

Lemma stored_level_other_update (entries : list TagLevel) (t t' : cstring)
    (i : nat) (level : esp_log_level_t) :
  tags_fit entries -> find_tag entries t = Some i -> t <> t' ->
  stored_level (alter (set_level level) i entries) t' = stored_level entries t'.
Proof.
  intros Hfit. revert i. induction Hfit as [|e rest Hlen _ IH]; intros i; simpl;
    [done|].
  destruct (Z.eqb_spec (strncmp (tl_tag e) t CONFIG_LOG_SUBSCRIBER_TAG_SIZE) 0)
    as [Hz|Hnz].
  - intros [= <-] Hne. simpl. apply (strncmp_zero_iff _ _ _ Hlen) in Hz.
    rewrite !decide_False by congruence. reflexivity.
  - destruct (find_tag rest t) as [k|]; simpl; [|done].
    intros [= <-] Hne. simpl.
    destruct (decide (tl_tag e = t')); [reflexivity|]. by apply IH.
Qed.

Lemma getTagLevel_locked (lg : Logger) (t : cstring) :
  tags_fit (live_tags lg) -> tagMutex lg = true ->
  getTagLevel true lg (Some t)
  = default (globalLogLevel lg) (stored_level (live_tags lg) t).
Proof.
  intros Hfit Hmx. unfold getTagLevel. rewrite Hmx. simpl.
  rewrite (scan_level_override _ _ Hfit).
  destruct (stored_level (live_tags lg) t); reflexivity.
Qed.

Lemma new_Logger_table_wf (started : bool) (backend : nat) :
  table_wf (new_Logger started backend).
Proof.
  unfold table_wf, live_tags, tags_fit. simpl.
  repeat split; [unfold CONFIG_LOG_MAX_TAGS; lia | constructor].
Qed.

(** The shape concerns the table alone: an operation that leaves the array
    and the count alone keeps it. *)
Lemma table_wf_same_table (lg lg' : Logger) :
  tagLevels_ lg' = tagLevels_ lg ->
  tagLevelCount_ lg' = tagLevelCount_ lg ->
  table_wf lg -> table_wf lg'.
Proof.
  intros Ht Hc. unfold table_wf, live_tags. by rewrite Ht, Hc.
Qed.

Lemma doSetTagLevel_wf (lg : Logger) (t : cstring) (tagLen : nat)
    (level : esp_log_level_t) :
  (tagLen < CONFIG_LOG_SUBSCRIBER_TAG_SIZE)%nat ->
  table_wf lg ->
  table_wf (fst (doSetTagLevel lg t tagLen level)).
Proof.
  intros Hlen (Hsz & Hcnt & Hfit).
  split; [|split; [|by apply doSetTagLevel_keeps_fit]].
  - unfold doSetTagLevel. destruct (find_tag _ t); simpl;
      [by rewrite length_alter|].
    destruct (tagLevelCount_ lg <? CONFIG_LOG_MAX_TAGS)%nat; simpl;
      [by rewrite length_insert|done].
  - unfold doSetTagLevel. destruct (find_tag _ t); simpl; [done|].
    destruct (Nat.ltb_spec (tagLevelCount_ lg) CONFIG_LOG_MAX_TAGS); simpl;
      [lia|done].
Qed.

(** The shape of the table is kept by [setTagLevel], whatever the tag and
    whatever happens to the lock. *)
Lemma setTagLevel_wf (take_ok : bool) (lg : Logger) (tag : option cstring)
    (level : esp_log_level_t) :
  table_wf lg -> table_wf (fst (setTagLevel take_ok lg tag level)).
Proof.
  intros Hwf. unfold setTagLevel. destruct tag as [t|]; [|exact Hwf].
  destruct (strlen t =? 0); [exact Hwf|].
  assert (Hlen : ((if (CONFIG_LOG_SUBSCRIBER_TAG_SIZE <=? length t)%nat
                   then (CONFIG_LOG_SUBSCRIBER_TAG_SIZE - 1)%nat else length t)
                  < CONFIG_LOG_SUBSCRIBER_TAG_SIZE)%nat).
  { destruct (Nat.leb_spec CONFIG_LOG_SUBSCRIBER_TAG_SIZE (length t));
      unfold CONFIG_LOG_SUBSCRIBER_TAG_SIZE in *; lia. }
  destruct (tagMutex lg); cbn [negb].
  - destruct take_ok; [|exact Hwf]. by apply doSetTagLevel_wf.
  - by apply doSetTagLevel_wf.
Qed.

(** What [doSetTagLevel] does with a tag of at most 31 characters, on a
    table of that shape (two entries may hold the same string). *)
Lemma doSetTagLevel_short_wf (lg : Logger) (t : cstring)
    (level : esp_log_level_t) :
  table_wf lg ->
  (length t < CONFIG_LOG_SUBSCRIBER_TAG_SIZE)%nat ->
  let lg' := fst (doSetTagLevel lg t (length t) level) in
  (t ∈ tl_tag <$> live_tags lg ->
     stored_level (live_tags lg') t = Some level)
  /\ (t ∉ tl_tag <$> live_tags lg ->
      (tagLevelCount_ lg < CONFIG_LOG_MAX_TAGS)%nat ->
      live_tags lg' = live_tags lg ++ [{| tl_tag := t; tl_level := level |}]).
Proof.
  intros (Hlen & Hcnt & Hfit) Ht. unfold doSetTagLevel.
  fold (live_tags lg).
  destruct (find_tag (live_tags lg) t) as [i|] eqn:Hfind.
  - destruct (find_tag_Some _ _ _ Hfit Hfind) as (e0 & Hi & He0).
    assert (Hin : (i < tagLevelCount_ lg)%nat).
    { apply lookup_lt_Some in Hi. unfold live_tags in Hi.
      rewrite length_take in Hi. lia. }
    assert (Hlive : live_tags
                      (with_tags lg (alter (set_level level) i (tagLevels_ lg))
                         (tagLevelCount_ lg))
                    = alter (set_level level) i (live_tags lg)).
    { unfold live_tags. simpl. by rewrite take_alter_lt. }
    cbn [fst]. rewrite Hlive. split.
    + intros _. by apply override_after_update.
    + intros Hout. exfalso. apply Hout.
      apply list_elem_of_fmap. exists e0. split; [done|].
      by eapply list_elem_of_lookup_2.
  - destruct (Nat.ltb_spec (tagLevelCount_ lg) CONFIG_LOG_MAX_TAGS)
      as [Hroom|Hfull].
    + cbn [fst]. split.
      * intros Hmem. exfalso. by apply (find_tag_None _ _ Hfind).
      * intros _ _. unfold live_tags. simpl. rewrite firstn_all.
        rewrite (take_S_r _ _ {| tl_tag := t; tl_level := level |}).
        -- by rewrite take_insert_ge by lia.
        -- apply list_lookup_insert_eq. lia.
    + cbn [fst]. split.
      * intros Hmem. exfalso. by apply (find_tag_None _ _ Hfind).
      * intros _ Hroom. lia.
Qed.

Lemma setTagLevel_sets_override (lg : Logger) (t : cstring)
    (level : esp_log_level_t) :
  table_wf lg ->
  (0 < length t < CONFIG_LOG_SUBSCRIBER_TAG_SIZE)%nat ->
  t ∈ tl_tag <$> live_tags lg \/ (tagLevelCount_ lg < CONFIG_LOG_MAX_TAGS)%nat ->
  stored_level (live_tags (fst (setTagLevel true lg (Some t) level))) t
  = Some level.
Proof.
  intros Hok [Hpos Hlen] Hroom. unfold setTagLevel.
  assert (Hz : (strlen t =? 0) = false)
    by (apply Z.eqb_neq; unfold strlen; lia).
  rewrite Hz, (proj2 (Nat.leb_gt _ _) Hlen).
  assert (Hdo : stored_level
                  (live_tags (fst (doSetTagLevel lg t (length t) level))) t
                = Some level).
  { destruct (doSetTagLevel_short_wf lg t level Hok Hlen) as (Hin & Happ).
    destruct (decide (t ∈ tl_tag <$> live_tags lg)) as [Hmem|Hout].
    - by apply Hin.
    - destruct Hroom as [Hmem|Hroom]; [done|].
      rewrite (Happ Hout Hroom), stored_level_app_new.
      rewrite (stored_level_None _ _ Hout). by rewrite decide_True. }
  destruct (negb (tagMutex lg)); exact Hdo.
Qed.

Lemma setTagLevel_keeps_override (take_ok : bool) (lg : Logger)
    (t t' : cstring) (level : esp_log_level_t) :
  table_wf lg ->
  (length t < CONFIG_LOG_SUBSCRIBER_TAG_SIZE)%nat ->
  t' <> t ->
  stored_level (live_tags (fst (setTagLevel take_ok lg (Some t) level))) t'
  = stored_level (live_tags lg) t'.
Proof.
  intros Hok Hlen Hne'. pose proof Hok as (Hsz & Hcnt & Hfit).
  unfold setTagLevel.
  destruct (strlen t =? 0); [reflexivity|].
  rewrite (proj2 (Nat.leb_gt _ _) Hlen).
  assert (Hdo : stored_level
                  (live_tags (fst (doSetTagLevel lg t (length t) level))) t'
                = stored_level (live_tags lg) t').
  { unfold doSetTagLevel. fold (live_tags lg).
    destruct (find_tag (live_tags lg) t) as [i|] eqn:Hfind.
    - destruct (find_tag_Some _ _ _ Hfit Hfind) as (e0 & Hi & _).
      assert (Hin : (i < tagLevelCount_ lg)%nat).
      { apply lookup_lt_Some in Hi. unfold live_tags in Hi.
        rewrite length_take in Hi. lia. }
      unfold live_tags at 1. simpl. rewrite take_alter_lt by lia.
      apply (stored_level_other_update _ t t' i level Hfit Hfind). congruence.
    - destruct (Nat.ltb_spec (tagLevelCount_ lg) CONFIG_LOG_MAX_TAGS)
        as [Hroom|Hfull]; [|reflexivity].
      unfold live_tags at 1. simpl. rewrite firstn_all.
      rewrite (take_S_r _ _ {| tl_tag := t; tl_level := level |})
        by (apply list_lookup_insert_eq; lia).
      rewrite take_insert_ge by lia. fold (live_tags lg).
      rewrite stored_level_app_new.
      destruct (stored_level (live_tags lg) t'); [reflexivity|].
      rewrite decide_False by congruence. reflexivity. }
  destruct (tagMutex lg); cbn [negb]; [destruct take_ok|];
    try exact Hdo. reflexivity.
Qed.

Lemma setTagLevel_count (take_ok : bool) (lg : Logger) (tag : option cstring)
    (level : esp_log_level_t) :
  let lg' := fst (setTagLevel take_ok lg tag level) in
  (tagLevelCount_ lg' <= S (tagLevelCount_ lg))%nat
  /\ maxLogsPerSecond lg' = maxLogsPerSecond lg.
Proof.
  unfold setTagLevel. destruct tag as [t|]; [|simpl; split; [lia|done]].
  destruct (strlen t =? 0); [simpl; split; [lia|done]|].
  assert (Hdo : forall n,
             let lg' := fst (doSetTagLevel lg t n level) in
             (tagLevelCount_ lg' <= S (tagLevelCount_ lg))%nat
             /\ maxLogsPerSecond lg' = maxLogsPerSecond lg).
  { intros n. unfold doSetTagLevel.
    destruct (find_tag _ t); [simpl; split; [lia|done]|].
    destruct (tagLevelCount_ lg <? CONFIG_LOG_MAX_TAGS)%nat;
      simpl; split; (lia || done). }
  destruct (negb (tagMutex lg)); [apply Hdo|].
  destruct take_ok; [apply Hdo|simpl; split; [lia|done]].
Qed.

(** Setting then getting, on every table of the shape the code keeps: for
    a tag of 1 to 31 characters that is in the table or for which the table
    has room, with the tag lock in place and obtained, [getTagLevel] returns
    the level just set and [isLevelEnabledForTag] filters against it. *)
Theorem setTagLevel_then_getTagLevel (lg : Logger) (t : cstring)
    (level asked : esp_log_level_t) :
  table_wf lg ->
  (0 < length t < CONFIG_LOG_SUBSCRIBER_TAG_SIZE)%nat ->
  t ∈ tl_tag <$> live_tags lg \/ (tagLevelCount_ lg < CONFIG_LOG_MAX_TAGS)%nat ->
  tagMutex lg = true ->
  let lg' := fst (setTagLevel true lg (Some t) level) in
  getTagLevel true lg' (Some t) = level
  /\ isLevelEnabledForTag true lg' (Some t) asked
     = isLoggingEnabled lg && negb (is_none asked) && level_le asked level.
Proof.
  intros Hok Hlen Hroom Hmx lg'.
  pose proof (setTagLevel_wf true lg (Some t) level Hok) as Hok'.
  pose proof (setTagLevel_keeps_settings true lg (Some t) level)
    as (_ & Hen & Hmx').
  pose proof (setTagLevel_sets_override lg t level Hok Hlen Hroom) as Hov.
  fold lg' in Hok', Hen, Hmx', Hov. rewrite Hmx in Hmx'.
  destruct Hok' as (_ & _ & Hfit').
  split.
  - rewrite (getTagLevel_locked lg' t Hfit' Hmx'), Hov. reflexivity.
  - unfold isLevelEnabledForTag. rewrite Hen, Hmx'.
    rewrite (scan_level_override _ _ Hfit'), Hov.
    destruct (isLoggingEnabled lg), (is_none asked); reflexivity.
Qed.

Lemma started_quiet_wf : table_wf started_quiet.
Proof. apply setTagLevel_wf, new_Logger_table_wf. Qed.

Lemma setTagLevel_then_getTagLevel_witness :
  getTagLevel true (fst (setTagLevel true started_quiet (Some QUIET) ESP_LOG_DEBUG))
    (Some QUIET) = ESP_LOG_DEBUG.
Proof.
  apply (setTagLevel_then_getTagLevel started_quiet QUIET ESP_LOG_DEBUG
           ESP_LOG_INFO).
  - exact started_quiet_wf.
  - vm_compute. lia.
  - left. vm_compute. apply list_elem_of_here.
  - reflexivity.
Defined.

(** Setting the level of one tag of at most 31 characters leaves the
    threshold of every other tag where it was, on every table of the shape
    the code keeps and whatever happens to the locks: [getTagLevel] and
    [isLevelEnabledForTag] answer as before. *)
Theorem setTagLevel_keeps_other_tags
    (take_set take_get : bool) (lg : Logger) (t : cstring)
    (other : option cstring) (level asked : esp_log_level_t) :
  table_wf lg ->
  (length t < CONFIG_LOG_SUBSCRIBER_TAG_SIZE)%nat ->
  other <> Some t ->
  let lg' := fst (setTagLevel take_set lg (Some t) level) in
  getTagLevel take_get lg' other = getTagLevel take_get lg other
  /\ isLevelEnabledForTag take_get lg' other asked
     = isLevelEnabledForTag take_get lg other asked.
Proof.
  intros Hok Hlen Hne lg'.
  pose proof (setTagLevel_keeps_settings take_set lg (Some t) level)
    as (Hglob & Hen & Hmx).
  fold lg' in Hglob, Hen, Hmx.
  assert (Hscan : forall t', t' <> t ->
             scan_level (live_tags lg') t' = scan_level (live_tags lg) t').
  { intros t' Hne'.
    pose proof (setTagLevel_wf take_set lg (Some t) level Hok)
      as (_ & _ & Hfit'). fold lg' in Hfit'.
    pose proof Hok as (_ & _ & Hfit).
    rewrite (scan_level_override _ _ Hfit'), (scan_level_override _ _ Hfit).
    by apply setTagLevel_keeps_override. }
  destruct other as [t'|].
  - assert (Hne' : t' <> t) by congruence.
    unfold getTagLevel, isLevelEnabledForTag.
    rewrite Hglob, Hen, Hmx, (Hscan t' Hne'). split; reflexivity.
  - unfold getTagLevel, isLevelEnabledForTag. rewrite Hglob, Hen.
    split; reflexivity.
Qed.

Lemma setTagLevel_keeps_other_tags_witness :
  getTagLevel true (fst (setTagLevel true started_quiet (Some (lit "LOUD"))
                           ESP_LOG_VERBOSE)) (Some QUIET)
  = getTagLevel true started_quiet (Some QUIET).
Proof.
  apply (setTagLevel_keeps_other_tags true true started_quiet (lit "LOUD")
           (Some QUIET) ESP_LOG_VERBOSE ESP_LOG_INFO).
  - exact started_quiet_wf.
  - vm_compute. lia.
  - discriminate.
Defined.

(** [getTagLevel] and [isLevelEnabledForTag] agree for every tag, level and
    lock outcome: a level is enabled exactly when logging is on, the level
    is not NONE and it is at most what [getTagLevel] returns. *)
Theorem filter_agrees_with_getTagLevel (take_ok : bool) (lg : Logger)
    (tag : option cstring) (level : esp_log_level_t) :
  isLevelEnabledForTag take_ok lg tag level
  = isLoggingEnabled lg && negb (is_none level)
    && level_le level (getTagLevel take_ok lg tag).
Proof.
  unfold isLevelEnabledForTag, getTagLevel.
  destruct (isLoggingEnabled lg), (is_none level); try reflexivity.
  destruct tag as [t|]; [|reflexivity]. simpl.
  destruct (tagMutex lg), take_ok; try reflexivity.
Qed.

Lemma find_tag_absent (entries : list TagLevel) (t : cstring) :
  tags_fit entries -> t ∉ tl_tag <$> entries -> find_tag entries t = None.
Proof.
  intros Hfit Hout. destruct (find_tag entries t) as [i|] eqn:Hfind; [|done].
  destruct (find_tag_Some _ _ _ Hfit Hfind) as (e0 & Hi & He0).
  exfalso. apply Hout. apply list_elem_of_fmap. exists e0.
  split; [done|]. by eapply list_elem_of_lookup_2.
Qed.

(** Once [CONFIG_LOG_MAX_TAGS] entries are live, [setTagLevel] on a tag
    that has no entry sets nothing, whatever happens to the lock:
    [esp_log_level_set] is not called, the table is as before, and the
    logger is unchanged but for the lock-timeout counter, which goes up by
    one when the tag is not empty and the existing lock is not obtained;
    [getTagLevel] answers with the global level for the tag afterwards. *)
Theorem full_table_ignores_new_tag
    (take_set take_get : bool) (lg : Logger) (t : cstring)
    (level : esp_log_level_t) :
  tags_fit (live_tags lg) ->
  tagLevelCount_ lg = CONFIG_LOG_MAX_TAGS ->
  t ∉ tl_tag <$> live_tags lg ->
  let result := setTagLevel take_set lg (Some t) level in
  snd result = []
  /\ tagLevels_ (fst result) = tagLevels_ lg
  /\ tagLevelCount_ (fst result) = tagLevelCount_ lg
  /\ fst result
     = (if tagMutex lg && negb take_set && negb (strlen t =? 0)
        then with_mutexTimeouts lg (fetch_add (mutexTimeouts_ lg) 1)
        else lg)
  /\ getTagLevel take_get (fst result) (Some t) = globalLogLevel lg.
Proof.
  intros Hfit Hfull Hout result.
  pose proof (find_tag_absent _ _ Hfit Hout) as Hfind.
  assert (Hget : forall n,
             getTagLevel take_get (with_mutexTimeouts lg n) (Some t)
             = globalLogLevel lg).
  { intros n. unfold getTagLevel.
    change (live_tags (with_mutexTimeouts lg n)) with (live_tags lg).
    rewrite (scan_level_override _ _ Hfit), (stored_level_None _ _ Hout).
    simpl. destruct (negb (tagMutex lg)), take_get; reflexivity. }
  assert (Hget0 : getTagLevel take_get lg (Some t) = globalLogLevel lg).
  { unfold getTagLevel.
    rewrite (scan_level_override _ _ Hfit), (stored_level_None _ _ Hout).
    destruct (negb (tagMutex lg)), take_get; reflexivity. }
  assert (Hdo : forall n, doSetTagLevel lg t n level = (lg, [])).
  { intros n. unfold doSetTagLevel. fold (live_tags lg).
    rewrite Hfind, Hfull, Nat.ltb_irrefl. reflexivity. }
  subst result. unfold setTagLevel.
  destruct (strlen t =? 0).
  - rewrite !andb_false_r. done.
  - destruct (tagMutex lg); cbn [negb andb].
    + destruct take_set; cbn [negb].
      * rewrite Hdo. done.
      * cbn [fst snd]. repeat split; first [done | apply Hget].
    + rewrite Hdo. done.
Qed.

Lemma full_table_ignores_new_tag_witness :
  snd (setTagLevel false full_table (Some (lit "EXTRA")) ESP_LOG_ERROR) = []
  /\ tagLevels_ (fst (setTagLevel false full_table (Some (lit "EXTRA"))
                        ESP_LOG_ERROR))
     = tagLevels_ full_table
  /\ tagLevelCount_ (fst (setTagLevel false full_table (Some (lit "EXTRA"))
                            ESP_LOG_ERROR))
     = tagLevelCount_ full_table
  /\ fst (setTagLevel false full_table (Some (lit "EXTRA")) ESP_LOG_ERROR)
     = (if tagMutex full_table && negb false
           && negb (strlen (lit "EXTRA") =? 0)
        then with_mutexTimeouts full_table
               (fetch_add (mutexTimeouts_ full_table) 1)
        else full_table)
  /\ getTagLevel true
       (fst (setTagLevel false full_table (Some (lit "EXTRA")) ESP_LOG_ERROR))
       (Some (lit "EXTRA"))
     = globalLogLevel full_table.
Proof.
  apply (full_table_ignores_new_tag false true full_table (lit "EXTRA")
           ESP_LOG_ERROR).
  - apply (bool_decide_unpack _). vm_compute. exact I.
  - reflexivity.
  - apply (bool_decide_unpack _). vm_compute. exact I.
Defined.

(** ** Rate limiter: accounting *)

(** The dropped-log counter and the lock-timeout counter tell why a call
    was rejected: an admitted call moves neither, a call rejected by the
    window adds one to [droppedLogs] only, a call rejected for want of the
    lock adds one to [mutexTimeouts_] only. *)
Theorem rejection_counted_once (take_ok : bool) (now : Z) (lg : Logger) :
  let result := checkRateLimit take_ok now lg in
  (fst result = true ->
     droppedLogs (snd result) = droppedLogs lg
     /\ mutexTimeouts_ (snd result) = mutexTimeouts_ lg)
  /\ (fst result = false ->
        (take_ok = true
         /\ droppedLogs (snd result) = fetch_add (droppedLogs lg) 1
         /\ mutexTimeouts_ (snd result) = mutexTimeouts_ lg)
        \/ (take_ok = false
            /\ droppedLogs (snd result) = droppedLogs lg
            /\ mutexTimeouts_ (snd result) = fetch_add (mutexTimeouts_ lg) 1)).
Proof.
  unfold checkRateLimit.
  destruct (maxLogsPerSecond lg =? 0); [by split|].
  destruct (rateLimitMutex lg); cbn [negb]; [|by split].
  destruct take_ok; [|split; [done|intros _; right; done]].
  destruct (RATE_LIMIT_WINDOW_MS <=? _); [by split|].
  destruct (logCounter lg <? maxLogsPerSecond lg); [by split|].
  split; [done|]. intros _. left. done.
Qed.

Lemma fetch_add_fetch_add (c a b : Z) :
  fetch_add (fetch_add c a) b = fetch_add c (a + b).
Proof.
  unfold fetch_add, u32. rewrite Zplus_mod_idemp_l. f_equal. lia.
Qed.

Lemma burst_unlimited (times : list Z) (lg : Logger) :
  (maxLogsPerSecond lg =? 0) || negb (rateLimitMutex lg) = true ->
  burst times lg = (length times, lg).
Proof.
  intros Hopen. induction times as [|t rest IH]; [reflexivity|].
  cbn [burst]. unfold checkRateLimit.
  destruct (maxLogsPerSecond lg =? 0).
  - rewrite IH. reflexivity.
  - cbn [orb] in Hopen. rewrite Hopen, IH. reflexivity.
Qed.

Lemma burst_limited (times : list Z) :
  forall lg : Logger,
  maxLogsPerSecond lg <> 0 ->
  rateLimitMutex lg = true ->
  is_u32 (maxLogsPerSecond lg) ->
  0 <= logCounter lg ->
  Forall (fun t => elapsed_ms t (lastLogTime lg) < RATE_LIMIT_WINDOW_MS) times ->
  let admitted :=
    Z.min (Z.of_nat (length times))
      (Z.max 0 (maxLogsPerSecond lg - logCounter lg)) in
  Z.of_nat (fst (burst times lg)) = admitted
  /\ logCounter (snd (burst times lg)) = logCounter lg + admitted
  /\ droppedLogs (snd (burst times lg))
     = (if Z.of_nat (length times) =? admitted then droppedLogs lg
        else fetch_add (droppedLogs lg) (Z.of_nat (length times) - admitted))
  /\ lastLogTime (snd (burst times lg)) = lastLogTime lg
  /\ maxLogsPerSecond (snd (burst times lg)) = maxLogsPerSecond lg.
Proof.
  induction times as [|t rest IH]; intros lg Hne Hmx Hmax Hcnt Hwin admitted.
  - subst admitted. simpl. repeat split; try lia.
    rewrite Z.min_l by lia. reflexivity.
  - apply Forall_cons in Hwin as [Ht Hrest].
    cbn [burst]. unfold checkRateLimit.
    rewrite (proj2 (Z.eqb_neq _ _) Hne), Hmx. cbn [negb].
    rewrite (proj2 (Z.leb_gt _ _) Ht).
    destruct (Z.ltb_spec (logCounter lg) (maxLogsPerSecond lg)) as [Hlt|Hge].
    + set (lg1 := with_rate lg (maxLogsPerSecond lg) (lastLogTime lg)
                    (u32 (logCounter lg + 1)) (droppedLogs lg)).
      assert (Hc1 : logCounter lg1 = logCounter lg + 1).
      { simpl. apply u32_small. unfold is_u32 in *. lia. }
      specialize (IH lg1 Hne Hmx Hmax).
      rewrite Hc1 in IH. simpl maxLogsPerSecond in IH.
      simpl lastLogTime in IH. simpl droppedLogs in IH.
      specialize (IH ltac:(lia) Hrest).
      destruct (burst rest lg1) as [n lg2]. cbn [fst snd] in *.
      destruct IH as (Hn & Hc & Hd & Hl & Hm).
      subst admitted. cbn [length]. rewrite ?Nat2Z.inj_succ.
      assert (Hmin : Z.min (Z.succ (Z.of_nat (length rest)))
                       (Z.max 0 (maxLogsPerSecond lg - logCounter lg))
                     = 1 + Z.min (Z.of_nat (length rest))
                             (Z.max 0 (maxLogsPerSecond lg - (logCounter lg + 1))))
        by lia.
      rewrite Hmin. repeat split; try lia; try done.
      rewrite Hd.
      destruct (Z.eqb_spec (Z.of_nat (length rest))
                  (Z.min (Z.of_nat (length rest))
                     (Z.max 0 (maxLogsPerSecond lg - (logCounter lg + 1)))));
        destruct (Z.eqb_spec (Z.succ (Z.of_nat (length rest)))
                    (1 + Z.min (Z.of_nat (length rest))
                           (Z.max 0 (maxLogsPerSecond lg - (logCounter lg + 1)))));
        try lia; try reflexivity.
      f_equal. lia.
    + set (lg1 := with_rate lg (maxLogsPerSecond lg) (lastLogTime lg)
                    (logCounter lg) (fetch_add (droppedLogs lg) 1)).
      specialize (IH lg1 Hne Hmx Hmax Hcnt Hrest).
      simpl maxLogsPerSecond in IH. simpl logCounter in IH.
      simpl lastLogTime in IH. simpl droppedLogs in IH.
      destruct (burst rest lg1) as [n lg2]. cbn [fst snd] in *.
      destruct IH as (Hn & Hc & Hd & Hl & Hm).
      subst admitted. cbn [length]. rewrite ?Nat2Z.inj_succ.
      assert (Hzero : Z.max 0 (maxLogsPerSecond lg - logCounter lg) = 0) by lia.
      rewrite Hzero in *.
      rewrite Z.min_r in * by lia.
      repeat split; try lia; try done.
      rewrite Hd.
      destruct (Z.eqb_spec (Z.of_nat (length rest)) 0) as [Hz|Hnz];
        destruct (Z.eqb_spec (Z.succ (Z.of_nat (length rest))) 0); try lia.
      * f_equal. lia.
      * rewrite fetch_add_fetch_add. f_equal. lia.
Qed.

(** A series of calls that all obtain the lock when there is one and all
    fall less than 1000 ms after the window start.  With the limit at 0 or
    without the lock every call is admitted and nothing changes.  Otherwise
    the limiter admits what is left of the allowance and no more: the first
    [max(0, maxLogsPerSecond - logCounter)] calls are admitted and counted,
    each of the others adds one to the dropped total, and the window start
    does not move. *)
Theorem burst_within_window (times : list Z) (lg : Logger) :
  is_u32 (maxLogsPerSecond lg) ->
  is_u32 (logCounter lg) ->
  Forall (fun t => elapsed_ms t (lastLogTime lg) < RATE_LIMIT_WINDOW_MS) times ->
  let calls := Z.of_nat (length times) in
  let open := (maxLogsPerSecond lg =? 0) || negb (rateLimitMutex lg) in
  let admitted :=
    if open then calls
    else Z.min calls (Z.max 0 (maxLogsPerSecond lg - logCounter lg)) in
  Z.of_nat (fst (burst times lg)) = admitted
  /\ logCounter (snd (burst times lg))
     = (if open then logCounter lg else logCounter lg + admitted)
  /\ droppedLogs (snd (burst times lg))
     = (if calls =? admitted then droppedLogs lg
        else fetch_add (droppedLogs lg) (calls - admitted))
  /\ lastLogTime (snd (burst times lg)) = lastLogTime lg
  /\ maxLogsPerSecond (snd (burst times lg)) = maxLogsPerSecond lg.
Proof.
  intros Hmax Hcnt Hwin calls open admitted.
  destruct open eqn:Hopen; subst admitted.
  - rewrite (burst_unlimited times lg Hopen). cbn [fst snd].
    subst calls. rewrite Z.eqb_refl. done.
  - subst open. apply orb_false_iff in Hopen as [Hne Hmx].
    apply Z.eqb_neq in Hne. apply negb_false_iff in Hmx.
    apply (burst_limited times lg Hne Hmx Hmax (proj1 Hcnt) Hwin).
Qed.

Lemma burst_within_window_witness :
  Z.of_nat (fst (burst (hundred_calls 2000)
                   (snd (checkRateLimit true 2000 five_per_second))))
  = 4.
Proof.
  apply (burst_within_window (hundred_calls 2000)
           (snd (checkRateLimit true 2000 five_per_second))).
  - vm_compute. split; [discriminate | reflexivity].
  - vm_compute. split; [discriminate | reflexivity].
  - apply (bool_decide_unpack _). vm_compute. exact I.
Defined.

(** ** Backend registry *)

Lemma write_all_app (bs bs' : list (option nat)) (buffer : cstring) (len : Z) :
  write_all (bs ++ bs') buffer len
  = write_all bs buffer len ++ write_all bs' buffer len.
Proof. unfold write_all. apply omap_app. Qed.

Lemma write_all_cons (x : option nat) (bs : list (option nat))
    (buffer : cstring) (len : Z) :
  write_all (x :: bs) buffer len
  = match x with
    | Some id => BackendWrite id buffer len :: write_all bs buffer len
    | None => write_all bs buffer len
    end.
Proof. by destruct x. Qed.

Lemma write_all_filter (bs : list (option nat)) (b : nat) (buffer : cstring)
    (len : Z) :
  write_all (filter (fun x => x <> Some b) bs) buffer len
  = filter (fun ev => written_to ev <> Some b) (write_all bs buffer len).
Proof.
  induction bs as [|[x|] bs IH]; [done| |].
  - rewrite write_all_cons. destruct (decide (x = b)) as [->|Hne].
    + rewrite filter_cons_False by (intros H; by apply H).
      rewrite filter_cons_False by (intros H; by apply H). exact IH.
    + rewrite filter_cons_True by congruence.
      rewrite filter_cons_True by (simpl; congruence).
      rewrite write_all_cons. by rewrite IH.
  - rewrite filter_cons_True by done. rewrite !write_all_cons. exact IH.
Qed.

(** What the registry operations do to the fan-out of a record, when the
    backend lock is absent or obtained: after [addBackend] the new backend
    is written last, once more for every time it was added (duplicates are
    not rejected); after [removeBackend] every write to that backend is
    gone and the others keep their order; after [setBackend] the record goes
    to that backend alone, and to none for a null pointer or after
    [clearBackends]. *)
Theorem registry_decides_fan_out
    (take_ok take_w : bool) (lg : Logger) (b : nat) (buffer : cstring)
    (len : Z) :
  backendMutex lg = false \/ (take_ok = true /\ take_w = true) ->
  writeToBackends take_w (addBackend take_ok lg (Some b)) buffer len
  = writeToBackends take_w lg buffer len ++ [BackendWrite b buffer len]
  /\ writeToBackends take_w (removeBackend take_ok lg (Some b)) buffer len
     = filter (fun ev => written_to ev <> Some b)
         (writeToBackends take_w lg buffer len)
  /\ writeToBackends take_w (setBackend take_ok lg (Some b)) buffer len
     = [BackendWrite b buffer len]
  /\ writeToBackends take_w (setBackend take_ok lg None) buffer len = []
  /\ writeToBackends take_w (clearBackends take_ok lg) buffer len = []
  /\ flush take_w (clearBackends take_ok lg) = [].
Proof.
  intros Hlock.
  unfold writeToBackends, addBackend, removeBackend, setBackend, clearBackends,
    flush.
  destruct Hlock as [Hm | [-> ->]].
  - rewrite Hm. simpl. rewrite Hm. simpl.
    rewrite write_all_app, write_all_filter. repeat split; reflexivity.
  - destruct (backendMutex lg) eqn:Hm; simpl; rewrite Hm; simpl;
      rewrite write_all_app, write_all_filter; repeat split; reflexivity.
Qed.

Lemma registry_decides_fan_out_witness :
  writeToBackends true (removeBackend true three_backends (Some 1%nat))
    (lit "x") 1
  = filter (fun ev => written_to ev <> Some 1%nat)
      (writeToBackends true three_backends (lit "x") 1).
Proof.
  apply (registry_decides_fan_out true true three_backends 1 (lit "x") 1).
  right. split; reflexivity.
Defined.

(** A registry operation that does not obtain the backend lock leaves the
    logger as it was and counts nothing (the lock-timeout counter included);
    so does [addBackend] or [removeBackend] of a null pointer. *)
Theorem registry_skipped_without_lock (lg : Logger) (backend : option nat) :
  backendMutex lg = true ->
  setBackend false lg backend = lg
  /\ addBackend false lg backend = lg
  /\ removeBackend false lg backend = lg
  /\ clearBackends false lg = lg
  /\ flush false lg = []
  /\ (forall take_ok, addBackend take_ok lg None = lg)
  /\ (forall take_ok, removeBackend take_ok lg None = lg).
Proof.
  intros Hm.
  unfold setBackend, addBackend, removeBackend, clearBackends, flush.
  rewrite Hm. destruct backend; repeat split; reflexivity.
Qed.

Lemma registry_skipped_without_lock_witness :
  addBackend false started_logger (Some 5%nat) = started_logger.
Proof.
  apply (registry_skipped_without_lock started_logger (Some 5%nat)).
  reflexivity.
Defined.

(** ** Logging operations *)

Lemma elem_of_write_all (bs : list (option nat)) (buffer buf : cstring)
    (len l : Z) (b : nat) :
  BackendWrite b buf l ∈ write_all bs buffer len ->
  buf = buffer /\ l = len /\ Some b ∈ bs.
Proof.
  unfold write_all. rewrite list_elem_of_omap.
  intros ([x|] & Hin & Hx); simpl in Hx; [|done].
  injection Hx as <- <- <-. done.
Qed.

Lemma elem_of_writeToBackends (take_ok : bool) (lg : Logger)
    (buffer buf : cstring) (len l : Z) (b : nat) :
  BackendWrite b buf l ∈ writeToBackends take_ok lg buffer len ->
  buf = buffer /\ l = len /\ Some b ∈ backends lg.
Proof.
  unfold writeToBackends.
  destruct (negb (backendMutex lg)); [apply elem_of_write_all|].
  destruct take_ok; [apply elem_of_write_all|].
  intros H. by apply not_elem_of_nil in H.
Qed.

Lemma notify_never_writes (ne : NotifyEnv) (lg : Logger)
    (level : esp_log_level_t) (tag message : option cstring) (ev : Event) :
  ev ∈ snd (notifySubscribers ne lg level tag message) ->
  written_to ev = None.
Proof.
  notify_cases ne lg; simpl; try (intros H; by apply not_elem_of_nil in H).
  unfold call_all. rewrite list_elem_of_omap.
  intros ([c|] & _ & Hc); simpl in Hc; [|done]. by injection Hc as <-.
Qed.

(** [logV] never hands a backend a length that its buffer does not hold:
    in every write of every [logV] call the length is the number of
    characters in the buffer and at most 255, and the backend is one of the
    registered ones. *)
Theorem logV_lengths_match_buffer
    (e : LogEnv) (lg : Logger) (pool : BufferPool.t)
    (level : esp_log_level_t) (tag format : option cstring) (args : va_list)
    (b : nat) (buf : cstring) (len : Z) :
  BackendWrite b buf len ∈ events_of (logV e lg pool level tag format args) ->
  len = Z.of_nat (length buf) /\ len <= 255 /\ Some b ∈ backends lg.
Proof.
  unfold logV.
  destruct (isLevelEnabledForTag (take_tag e) lg tag level); cbn [negb];
    [|intros H; by apply not_elem_of_nil in H].
  pose proof (checkRateLimit_keeps (take_rate e) (millis_rate e) lg)
    as (Hb & _).
  destruct (checkRateLimit (take_rate e) (millis_rate e) lg) as [[|] lg1];
    cbn [negb fst snd] in *; [|intros H; by apply not_elem_of_nil in H].
  destruct (BufferPool.acquire (acquire_format e) pool) as [[h|] pool1];
    [|intros H; by apply not_elem_of_nil in H].
  destruct (vsnprintf CONFIG_LOG_BUFFER_SIZE format args) as [text|];
    [|intros H; by apply not_elem_of_nil in H].
  pose proof (notifySubscribers_keeps (notify_env e) lg1 level tag (Some text))
    as (Hb' & _).
  pose proof (notify_never_writes (notify_env e) lg1 level tag (Some text))
    as Hnw.
  destruct (notifySubscribers (notify_env e) lg1 level tag (Some text))
    as [lg2 ev1]. cbn [fst snd] in *.
  destruct (BufferPool.acquire (acquire_full e) pool1) as [[h2|] pool2].
  - cbn [snprintf events_of]. rewrite elem_of_app. intros [Hin | Hin].
    + apply Hnw in Hin. done.
    + apply elem_of_writeToBackends in Hin as (-> & -> & Hreg).
      rewrite Hb', Hb in Hreg. split; [|split; [|exact Hreg]].
      * rewrite length_take. unfold CONFIG_LOG_BUFFER_SIZE.
        destruct (Z.leb_spec (Z.of_nat 256)
                    (Z.of_nat (length (record_text (millis_stamp e) (task_name e)
                                         level tag text)))); lia.
      * unfold CONFIG_LOG_BUFFER_SIZE.
        destruct (Z.leb_spec (Z.of_nat 256)
                    (Z.of_nat (length (record_text (millis_stamp e) (task_name e)
                                         level tag text)))); lia.
  - cbn [events_of]. rewrite elem_of_app. intros [Hin | Hin].
    + apply Hnw in Hin. done.
    + apply list_elem_of_singleton in Hin. done.
Qed.

Lemma logV_lengths_match_buffer_witness :
  25 = Z.of_nat (length (lit "[1000][loop][I] ?: boot" ++ [CR; LF]))
  /\ 25 <= 255 /\ Some 0%nat ∈ backends started_logger.
Proof.
  apply (logV_lengths_match_buffer (calm_env 1000) started_logger
           (BufferPool.fresh true) ESP_LOG_INFO None (Some (lit "boot"))
           plain_args).
  vm_compute. apply list_elem_of_here.
Defined.

(** [logDirect] and [logNnL] hand the backends the length of the complete
    record as [snprintf] returns it, without the clamp of [logV]: the buffer
    holds the first 255 characters of the record at most, and for a record
    of 256 characters or more the length is larger than what the buffer
    holds. *)
Theorem unclamped_lengths
    (e : LogEnv) (lg : Logger) (pool : BufferPool.t)
    (level : esp_log_level_t) (tag : option cstring) (text : cstring)
    (args : va_list) (b : nat) (buf : cstring) (len : Z) :
  (BackendWrite b buf len
     ∈ events_of (logDirect e lg pool level tag (Some text)) ->
   let full := record_text (millis_stamp e) (task_name e) level tag text in
   buf = take 255 full /\ len = Z.of_nat (length full)
   /\ ((256 <= length full)%nat -> Z.of_nat (length buf) < len))
  /\ (BackendWrite b buf len
        ∈ events_of (logNnL e lg pool level tag (Some text) args) ->
      let full :=
        record_text_nnl (millis_stamp e) (task_name e) level tag
          (take 255 (args text)) in
      buf = take 255 full /\ len = Z.of_nat (length full)
      /\ ((256 <= length full)%nat -> Z.of_nat (length buf) < len)).
Proof.
  cbn zeta. split.
  - unfold logDirect.
    destruct (isLevelEnabledForTag (take_tag e) lg tag level); cbn [negb];
      [|intros H; by apply not_elem_of_nil in H].
    pose proof (notify_never_writes (notify_env e) lg level tag (Some text))
      as Hnw.
    destruct (notifySubscribers (notify_env e) lg level tag (Some text))
      as [lg1 ev1]. cbn [fst snd] in *.
    destruct (BufferPool.acquire (acquire_full e) pool) as [[h|] pool1].
    + cbn [snprintf events_of]. rewrite elem_of_app. intros [Hin | Hin].
      * apply Hnw in Hin. done.
      * apply elem_of_writeToBackends in Hin as (-> & -> & _).
        split; [done|]. split; [done|]. intros Hlong.
        rewrite length_take. unfold CONFIG_LOG_BUFFER_SIZE. lia.
    + cbn [events_of]. rewrite elem_of_app. intros [Hin | Hin].
      * apply Hnw in Hin. done.
      * apply list_elem_of_singleton in Hin. done.
  - unfold logNnL.
    destruct (isLevelEnabledForTag (take_tag e) lg tag level); cbn [negb];
      [|intros H; by apply not_elem_of_nil in H].
    destruct (checkRateLimit (take_rate e) (millis_rate e) lg) as [[|] lg1];
      cbn [negb]; [|intros H; by apply not_elem_of_nil in H].
    destruct (BufferPool.acquire (acquire_format e) pool) as [[h|] pool1];
      [|intros H; by apply not_elem_of_nil in H].
    cbn [vsnprintf].
    pose proof (notify_never_writes (notify_env e) lg1 level tag
                  (Some (take (CONFIG_LOG_BUFFER_SIZE - 1) (args text))))
      as Hnw.
    destruct (notifySubscribers (notify_env e) lg1 level tag
                (Some (take (CONFIG_LOG_BUFFER_SIZE - 1) (args text))))
      as [lg2 ev1]. cbn [fst snd] in *.
    destruct (BufferPool.acquire (acquire_full e) pool1) as [[h2|] pool2].
    + cbn [snprintf events_of]. rewrite elem_of_app. intros [Hin | Hin].
      * apply Hnw in Hin. done.
      * apply elem_of_writeToBackends in Hin as (-> & -> & _).
        split; [done|]. split; [done|]. intros Hlong.
        rewrite length_take. unfold CONFIG_LOG_BUFFER_SIZE.
        change (256 - 1)%nat with 255%nat. lia.
    + cbn [events_of]. intros Hin. apply Hnw in Hin. done.
Qed.

(** With logging disabled no operation does anything: every logging entry
    point returns with the logger and the pool unchanged and without any
    write, notification or counter change. *)
Theorem disabled_logger_is_silent
    (take_outer readable : bool) (e : LogEnv) (lg : Logger)
    (pool : BufferPool.t) (level : esp_log_level_t)
    (tag text : option cstring) (args : va_list) :
  isLoggingEnabled lg = false ->
  log take_outer e lg pool level tag text args = Done lg pool []
  /\ logV e lg pool level tag text args = Done lg pool []
  /\ logNnL e lg pool level tag text args = Done lg pool []
  /\ logInL e lg pool text args = Done lg pool []
  /\ logDirect e lg pool level tag text = Done lg pool []
  /\ esp_log_redirect readable e lg pool text args = Done lg pool []
  /\ log_write_impl take_outer e lg pool level tag text args = Done lg pool [].
Proof.
  intros Hoff.
  assert (Hf : forall take_ok t l, isLevelEnabledForTag take_ok lg t l = false).
  { intros. unfold isLevelEnabledForTag. by rewrite Hoff. }
  unfold log, log_write_impl, custom_log_is_enabled_for_tag, custom_log_write,
    logNnL, logInL, esp_log_redirect.
  rewrite !Hf, Hoff, (logV_filtered _ _ _ _ _ _ _ (Hf _ _ _)),
    (logDirect_filtered _ _ _ _ _ _ (Hf _ _ _)).
  repeat split; try reflexivity.
  destruct text as [f|]; [|reflexivity].
  destruct (negb readable); [reflexivity|].
  destruct (redirect_split f) as [t m]. apply logV_filtered, Hf.
Qed.

Lemma disabled_logger_is_silent_witness :
  logDirect (calm_env 50) (enableLogging started_logger false)
    (BufferPool.fresh true) ESP_LOG_ERROR (Some QUIET) (Some (lit "overheat"))
  = Done (enableLogging started_logger false) (BufferPool.fresh true) [].
Proof.
  apply (disabled_logger_is_silent true true (calm_env 50)
           (enableLogging started_logger false) (BufferPool.fresh true)
           ESP_LOG_ERROR (Some QUIET) (Some (lit "overheat")) plain_args).
  reflexivity.
Defined.

(** The check that [log] makes before calling [logV] adds nothing when the
    two checks see the same lock outcome: [log] is then [logV]; whatever the
    first check sees, [log] does what [logV] does or nothing at all, and the
    C entry point [log_write_impl] is [log]. *)
Theorem log_is_logV
    (take_outer : bool) (e : LogEnv) (lg : Logger) (pool : BufferPool.t)
    (level : esp_log_level_t) (tag format : option cstring) (args : va_list) :
  log (take_tag e) e lg pool level tag format args
  = logV e lg pool level tag format args
  /\ (log take_outer e lg pool level tag format args
      = logV e lg pool level tag format args
      \/ log take_outer e lg pool level tag format args = Done lg pool [])
  /\ log_write_impl take_outer e lg pool level tag format args
     = log take_outer e lg pool level tag format args.
Proof.
  unfold log, log_write_impl, custom_log_is_enabled_for_tag, custom_log_write.
  split; [|split].
  - destruct (isLevelEnabledForTag (take_tag e) lg tag level) eqn:Hf;
      [reflexivity|]. symmetry. by apply logV_filtered.
  - destruct (isLevelEnabledForTag take_outer lg tag level); auto.
  - destruct (isLevelEnabledForTag take_outer lg tag level); reflexivity.
Qed.

Lemma checkRateLimit_with_level (take_ok : bool) (now : Z) (lg : Logger)
    (level : esp_log_level_t) :
  checkRateLimit take_ok now (with_level lg level)
  = (fst (checkRateLimit take_ok now lg),
     with_level (snd (checkRateLimit take_ok now lg)) level).
Proof.
  unfold checkRateLimit. simpl.
  destruct (maxLogsPerSecond lg =? 0); [done|].
  destruct (rateLimitMutex lg); simpl; [|done].
  destruct take_ok; [|done].
  destruct (RATE_LIMIT_WINDOW_MS <=? _); [done|].
  destruct (logCounter lg <? maxLogsPerSecond lg); done.
Qed.

(** [logInL] is filtered by the enable flag and the rate limiter only: when
    it is admitted, has its buffer and the backend lock is absent or
    obtained, every backend receives the formatted text as it is (no stamp,
    no tag, its length that of the text), also with the global level at
    NONE, where no level passes [isLevelEnabledForTag] for a null tag. *)
Theorem logInL_ignores_levels
    (e : LogEnv) (lg : Logger) (pool : BufferPool.t) (f : cstring)
    (args : va_list) :
  isLoggingEnabled lg = true ->
  fst (checkRateLimit (take_rate e) (millis_rate e) lg) = true ->
  is_Some (fst (BufferPool.acquire (acquire_format e) pool)) ->
  backendMutex lg = false \/ take_backend e = true ->
  let text := take 255 (args f) in
  backend_writes (logInL e lg pool (Some f) args)
  = write_all (backends lg) text (strlen text)
  /\ backend_writes (logInL e (setLogLevel lg ESP_LOG_NONE) pool (Some f) args)
     = write_all (backends lg) text (strlen text)
  /\ (forall take_ok level,
        isLevelEnabledForTag take_ok (setLogLevel lg ESP_LOG_NONE) None level
        = false).
Proof.
  intros Hen Hrate [h Hh] Hlock text.
  assert (Hgen : forall lg0,
             isLoggingEnabled lg0 = true ->
             fst (checkRateLimit (take_rate e) (millis_rate e) lg0) = true ->
             backends lg0 = backends lg ->
             backendMutex lg0 = backendMutex lg ->
             backend_writes (logInL e lg0 pool (Some f) args)
             = write_all (backends lg) text (strlen text)).
  { intros lg0 Hen0 Hrate0 Hb0 Hm0. unfold logInL. rewrite Hen0. cbn [negb].
    pose proof (checkRateLimit_keeps (take_rate e) (millis_rate e) lg0)
      as (Hb & Hbm & _).
    destruct (checkRateLimit (take_rate e) (millis_rate e) lg0) as [ok lg1].
    cbn [fst snd] in *. subst ok. cbn [negb].
    destruct (BufferPool.acquire (acquire_format e) pool) as [fb pool1].
    cbn [fst] in Hh. subst fb. cbn [vsnprintf].
    pose proof (notifySubscribers_keeps (notify_env e) lg1 ESP_LOG_INFO
                  (Some (lit "INL"))
                  (Some (take (CONFIG_LOG_BUFFER_SIZE - 1) (args f))))
      as (Hb' & Hbm' & _).
    pose proof (backend_writes_of_notify (notify_env e) lg1 ESP_LOG_INFO
                  (Some (lit "INL"))
                  (Some (take (CONFIG_LOG_BUFFER_SIZE - 1) (args f))))
      as Hnotify.
    destruct (notifySubscribers (notify_env e) lg1 ESP_LOG_INFO
                (Some (lit "INL"))
                (Some (take (CONFIG_LOG_BUFFER_SIZE - 1) (args f))))
      as [lg2 ev1]. cbn [fst snd] in *.
    cbn [backend_writes]. rewrite filter_app, Hnotify. cbn [app].
    unfold writeToBackends. rewrite Hb', Hbm', Hb, Hbm, Hb0, Hm0.
    etransitivity; [|apply backend_writes_of_writes]. f_equal.
    destruct Hlock as [-> | ->]; [reflexivity|].
    destruct (backendMutex lg); reflexivity. }
  split; [by apply Hgen|]. split.
  - apply Hgen; try reflexivity; [exact Hen|].
    unfold setLogLevel. rewrite checkRateLimit_with_level. exact Hrate.
  - intros take_ok level. unfold isLevelEnabledForTag. simpl. rewrite Hen.
    destruct level; reflexivity.
Qed.

Lemma logInL_ignores_levels_witness :
  backend_writes
    (logInL (calm_env 50) (setLogLevel started_logger ESP_LOG_NONE)
       (BufferPool.fresh true) (Some (lit ".")) plain_args)
  = write_all (backends started_logger) (take 255 (plain_args (lit ".")))
      (strlen (take 255 (plain_args (lit ".")))).
Proof.
  apply (logInL_ignores_levels (calm_env 50) started_logger
           (BufferPool.fresh true) (lit ".") plain_args).
  - reflexivity.
  - reflexivity.
  - eexists. reflexivity.
  - right. reflexivity.
Defined.

(** ** Subscriber notification *)

(** While the queue exists [notifySubscribers] runs no callback on the
    caller's thread and never lets the queue grow beyond
    [CONFIG_LOG_SUBSCRIBER_QUEUE_SIZE]: a full queue is left as it is (the
    notification is dropped), otherwise at most one record is added at the
    back; nothing else of the logger changes. *)
Theorem queue_never_overflows
    (ne : NotifyEnv) (lg : Logger) (level : esp_log_level_t)
    (tag message : option cstring) (q : list LogSubscriberMessage) :
  subscriberQueue lg = Some q ->
  (length q <= CONFIG_LOG_SUBSCRIBER_QUEUE_SIZE)%nat ->
  exists q',
    notifySubscribers ne lg level tag message = (with_queue lg (Some q'), [])
    /\ (length q' <= CONFIG_LOG_SUBSCRIBER_QUEUE_SIZE)%nat
    /\ (length q = CONFIG_LOG_SUBSCRIBER_QUEUE_SIZE -> q' = q)
    /\ (q' = q \/ exists m, q' = q ++ [m])
    /\ (subscriberCount lg = 0%nat \/ in_isr ne = true -> q' = q).
Proof.
  intros Hq Hlen.
  assert (Hsame : with_queue lg (Some q) = lg).
  { destruct lg. simpl in *. by subst. }
  unfold notifySubscribers.
  destruct (subscriberCount lg =? 0)%nat eqn:Hc.
  { exists q. rewrite Hsame. repeat split; auto. }
  destruct (in_isr ne) eqn:Hisr.
  { exists q. rewrite Hsame. repeat split; auto. }
  rewrite Hq. eexists. split; [reflexivity|]. unfold xQueueSend.
  apply Nat.eqb_neq in Hc.
  destruct (Nat.ltb_spec (length q) CONFIG_LOG_SUBSCRIBER_QUEUE_SIZE) as [Hlt|Hge].
  - rewrite length_app. simpl. repeat split; try lia; eauto.
  - repeat split; auto.
Qed.

Lemma queue_never_overflows_witness :
  exists q',
    notifySubscribers {| in_isr := false; stack_msg := blank_msg; take_sub := true |}
      queued_subscribers ESP_LOG_WARN (Some QUIET) (Some (lit "hot"))
    = (with_queue queued_subscribers (Some q'), [])
    /\ (length q' <= CONFIG_LOG_SUBSCRIBER_QUEUE_SIZE)%nat
    /\ (length (@nil LogSubscriberMessage) = CONFIG_LOG_SUBSCRIBER_QUEUE_SIZE
        -> q' = [])
    /\ (q' = [] \/ exists m, q' = [] ++ [m])
    /\ (subscriberCount queued_subscribers = 0%nat \/ false = true -> q' = []).
Proof.
  apply (queue_never_overflows
           {| in_isr := false; stack_msg := blank_msg; take_sub := true |}
           queued_subscribers ESP_LOG_WARN (Some QUIET) (Some (lit "hot")) []).
  - reflexivity.
  - simpl. unfold CONFIG_LOG_SUBSCRIBER_QUEUE_SIZE. lia.
Defined.

Lemma call_all_Some (cbs : list nat) (level : esp_log_level_t)
    (tag message : option cstring) :
  call_all (Some <$> cbs) level tag message
  = (fun c => SubscriberCall c level tag message) <$> cbs.
Proof.
  unfold call_all. induction cbs as [|c cbs IH]; [done|].
  cbn in *. f_equal. exact IH.
Qed.

Lemma live_subscribers_Some (lg : Logger) :
  registry_ok lg -> exists cbs, live_subscribers lg = Some <$> cbs /\ NoDup cbs.
Proof.
  intros (_ & _ & Hsome & Hnd). revert Hsome Hnd.
  generalize (live_subscribers lg). intros l.
  induction l as [|x l IH]; intros Hsome Hnd.
  - exists []. split; [done|constructor].
  - apply Forall_cons in Hsome as [[c ->] Hsome].
    apply NoDup_cons in Hnd as [Hx Hnd].
    destruct (IH Hsome Hnd) as (cbs & -> & Hnd'). exists (c :: cbs).
    split; [done|]. constructor; [|done].
    intros Hin. apply Hx. by apply list_elem_of_fmap_2.
Qed.

(** Without a queue (the subscriber task was never started) and outside an
    interrupt, [notifySubscribers] calls every registered callback once, in
    registration order, with the caller's level, tag and message, provided
    the subscriber lock exists and is obtained; without the lock no callback
    is called. The logger is unchanged either way. *)
Theorem synchronous_notification_order
    (ne : NotifyEnv) (lg : Logger) (level : esp_log_level_t)
    (tag message : option cstring) :
  registry_ok lg ->
  subscriberQueue lg = None ->
  in_isr ne = false ->
  exists cbs,
    live_subscribers lg = Some <$> cbs
    /\ NoDup cbs
    /\ (subscriberMutex lg = true -> take_sub ne = true ->
        notifySubscribers ne lg level tag message
        = (lg, (fun c => SubscriberCall c level tag message) <$> cbs))
    /\ (subscriberMutex lg = false \/ take_sub ne = false ->
        notifySubscribers ne lg level tag message = (lg, [])).
Proof.
  intros Hok Hq Hisr.
  destruct (live_subscribers_Some lg Hok) as (cbs & Hlive & Hnd).
  exists cbs. split; [done|]. split; [done|].
  unfold notifySubscribers. rewrite Hq, Hisr.
  destruct (subscriberCount lg =? 0)%nat eqn:Hc.
  - apply Nat.eqb_eq in Hc. unfold live_subscribers in Hlive.
    rewrite Hc in Hlive. simpl in Hlive. destruct cbs; [|done].
    split; reflexivity.
  - split.
    + intros -> ->. simpl. fold (live_subscribers lg).
      by rewrite Hlive, call_all_Some.
    + intros [-> | ->]; [reflexivity|]. by rewrite andb_false_r.
Qed.

Lemma synchronous_notification_order_witness :
  exists cbs,
    live_subscribers three_subscribers = Some <$> cbs
    /\ NoDup cbs
    /\ (subscriberMutex three_subscribers = true -> true = true ->
        notifySubscribers {| in_isr := false; stack_msg := blank_msg; take_sub := true |}
          three_subscribers ESP_LOG_WARN (Some QUIET) (Some (lit "hot"))
        = (three_subscribers,
           (fun c => SubscriberCall c ESP_LOG_WARN (Some QUIET) (Some (lit "hot")))
             <$> cbs))
    /\ (subscriberMutex three_subscribers = false \/ true = false ->
        notifySubscribers {| in_isr := false; stack_msg := blank_msg; take_sub := true |}
          three_subscribers ESP_LOG_WARN (Some QUIET) (Some (lit "hot"))
        = (three_subscribers, [])).
Proof.
  apply (synchronous_notification_order
           {| in_isr := false; stack_msg := blank_msg; take_sub := true |}
           three_subscribers ESP_LOG_WARN (Some QUIET) (Some (lit "hot"))).
  - exact three_subscribers_ok.
  - reflexivity.
  - reflexivity.
Defined.

(** From producer to subscriber through the queue: with at least one
    subscriber and outside an interrupt, a notification put on an empty
    queue is taken by the next pass of the subscriber task, which leaves the
    queue empty again.  When the task is still running, the subscriber lock
    exists and the task obtains it, every registered callback is called
    once, in registration order, with the level and with the first 31
    characters of the tag and the first 199 of the message (the empty string
    for a null pointer); otherwise the record is consumed and no callback is
    called. *)
Theorem queued_notification_reaches_subscribers
    (ne : NotifyEnv) (still_running take_task : bool) (lg : Logger)
    (level : esp_log_level_t) (tag message : option cstring) :
  registry_ok lg ->
  subscriberCount lg <> 0%nat ->
  subscriberQueue lg = Some [] ->
  in_isr ne = false ->
  length (msg_tag (stack_msg ne)) = CONFIG_LOG_SUBSCRIBER_TAG_SIZE ->
  length (msg_message (stack_msg ne)) = CONFIG_LOG_SUBSCRIBER_MSG_SIZE ->
  c_string tag ->
  c_string message ->
  exists cbs,
    live_subscribers lg = Some <$> cbs
    /\ subscriberTaskFunc_pass still_running take_task
         (fst (notifySubscribers ne lg level tag message))
       = (lg,
          if still_running && subscriberMutex lg && take_task
          then (fun c => SubscriberCall c level (Some (take 31 (chars_of tag)))
                           (Some (take 199 (chars_of message)))) <$> cbs
          else []).
Proof.
  intros Hok Hc Hq Hisr Htag Hmsg Hct Hcm.
  destruct (live_subscribers_Some lg Hok) as (cbs & Hlive & _).
  exists cbs. split; [done|].
  assert (Hsame : with_queue lg (Some []) = lg).
  { destruct lg. simpl in *. by subst. }
  set (m := make_msg (stack_msg ne) level tag message).
  assert (Hn : fst (notifySubscribers ne lg level tag message)
               = with_queue lg (Some [m])).
  { unfold notifySubscribers.
    rewrite (proj2 (Nat.eqb_neq _ _) Hc), Hisr, Hq. reflexivity. }
  rewrite Hn. unfold subscriberTaskFunc_pass.
  change (subscriberQueue (with_queue lg (Some [m]))) with (Some [m]).
  cbv beta match.
  change (with_queue (with_queue lg (Some [m])) (Some []))
    with (with_queue lg (Some [])).
  rewrite Hsame.
  change (subscriberMutex (with_queue lg (Some [m]))) with (subscriberMutex lg).
  change (take (subscriberCount (with_queue lg (Some [m])))
            (subscribers (with_queue lg (Some [m]))))
    with (live_subscribers lg).
  destruct still_running; cbn [negb andb]; [|reflexivity].
  destruct (subscriberMutex lg && take_task); [|reflexivity].
  rewrite Hlive, call_all_Some. subst m.
  cbn [make_msg msg_level msg_tag msg_message].
  rewrite (fill_field_cstr _ tag CONFIG_LOG_SUBSCRIBER_TAG_SIZE Htag)
    by (done || unfold CONFIG_LOG_SUBSCRIBER_TAG_SIZE; lia).
  rewrite (fill_field_cstr _ message CONFIG_LOG_SUBSCRIBER_MSG_SIZE Hmsg)
    by (done || unfold CONFIG_LOG_SUBSCRIBER_MSG_SIZE; lia).
  reflexivity.
Qed.

Lemma queued_notification_reaches_subscribers_witness :
  exists cbs,
    live_subscribers queued_subscribers = Some <$> cbs
    /\ subscriberTaskFunc_pass true true
         (fst (notifySubscribers
                 {| in_isr := false; stack_msg := blank_msg; take_sub := true |}
                 queued_subscribers ESP_LOG_WARN (Some long_tag) None))
       = (queued_subscribers,
          if true && subscriberMutex queued_subscribers && true
          then (fun c => SubscriberCall c ESP_LOG_WARN
                           (Some (take 31 (chars_of (Some long_tag))))
                           (Some (take 199 (chars_of None)))) <$> cbs
          else []).
Proof.
  apply (queued_notification_reaches_subscribers
           {| in_isr := false; stack_msg := blank_msg; take_sub := true |}
           true true queued_subscribers ESP_LOG_WARN (Some long_tag) None).
  - exact three_subscribers_ok.
  - discriminate.
  - reflexivity.
  - reflexivity.
  - reflexivity.
  - reflexivity.
  - vm_compute. repeat constructor; discriminate.
  - exact I.
Defined.

(** ** ESP-IDF log redirection *)

Lemma strchr_Some (s : cstring) (c : ascii) (i : nat) :
  strchr s c = Some i ->
  s = take i s ++ c :: drop (S i) s /\ c ∉ take i s.
Proof.
  revert i. induction s as [|x s IH]; intros i; simpl; [done|].
  destruct (Ascii.eqb_spec x c) as [->|Hne].
  - intros [= <-]. simpl. split; [by rewrite drop_0|apply not_elem_of_nil].
  - destruct (strchr s c) as [k|]; simpl; [|done].
    intros [= <-]. destruct (IH k eq_refl) as [Hs Hout]. simpl.
    split; [by rewrite <- Hs|]. rewrite not_elem_of_cons. split; congruence.
Qed.

Lemma strchr_None (s : cstring) (c : ascii) :
  strchr s c = None -> c ∉ s.
Proof.
  induction s as [|x s IH]; simpl; [intros _; apply not_elem_of_nil|].
  destruct (Ascii.eqb_spec x c) as [->|Hne]; [done|].
  destruct (strchr s c); simpl; [done|]. intros _.
  rewrite not_elem_of_cons. split; [congruence|by apply IH].
Qed.

Lemma skip_spaces_spec (s : cstring) :
  exists k : nat,
    s = replicate k " "%char ++ skip_spaces s
    /\ head (skip_spaces s) <> Some " "%char.
Proof.
  induction s as [|x s IH]; simpl.
  - exists 0%nat. done.
  - destruct (Ascii.eqb_spec x " ") as [->|Hne].
    + destruct IH as (k & Hs & Hhead). exists (S k). simpl.
      split; [by rewrite <- Hs|done].
    + exists 0%nat. simpl. split; [done|congruence].
Qed.

(** How [esp_log_redirect] reads an ESP-IDF format: when the first colon
    comes within the first 32 characters, the tag is what precedes it
    (shorter than 32 characters, without colon), the message starts after
    the colon and the spaces that follow it, and the format is the tag, the
    colon, those spaces and the message; otherwise the tag is ["ESP"] and
    the message is the whole format. *)
Theorem redirect_split_spec (format : cstring) :
  let tag := fst (redirect_split format) in
  let msg := snd (redirect_split format) in
  (exists k : nat,
     format = tag ++ ":"%char :: replicate k " "%char ++ msg
     /\ (length tag < CONFIG_LOG_SUBSCRIBER_TAG_SIZE)%nat
     /\ (":"%char ∉ tag)
     /\ head msg <> Some " "%char)
  \/ (tag = lit "ESP" /\ msg = format
      /\ ((":"%char ∉ format)
          \/ (exists i, strchr format ":" = Some i
                        /\ (CONFIG_LOG_SUBSCRIBER_TAG_SIZE <= i)%nat))).
Proof.
  unfold redirect_split.
  destruct (strchr format ":") as [i|] eqn:Hcolon.
  - destruct (Nat.ltb_spec i CONFIG_LOG_SUBSCRIBER_TAG_SIZE) as [Hlt|Hge].
    + left. cbn [fst snd]. destruct (strchr_Some _ _ _ Hcolon) as [Hs Hout].
      destruct (skip_spaces_spec (drop (S i) format)) as (k & Hrest & Hhead).
      exists k. split; [by rewrite <- Hrest|]. split; [|done].
      rewrite length_take. lia.
    + right. cbn [fst snd]. split; [done|]. split; [done|]. right. eauto.
  - right. cbn [fst snd]. split; [done|]. split; [done|]. left.
    by apply strchr_None.
Qed.

(** ** Non-blocking backends: capacity and accounting *)

(** [NonBlockingConsoleBackend::write] never gives the port more bytes than
    it reported as available, whatever the message and the length passed. *)
Theorem write_within_capacity
    (available : Z) (b : NonBlockingConsoleBackend.t) (tx : list ascii)
    (logMessage : option (list ascii)) (len : Z) :
  is_u32 available ->
  exists sent,
    snd (NonBlockingConsoleBackend.write available b tx logMessage len)
    = tx ++ sent
    /\ Z.of_nat (length sent) <= available.
Proof.
  intros Hav. unfold NonBlockingConsoleBackend.write, is_u32 in *.
  assert (Hnil : exists sent, tx = tx ++ sent /\ Z.of_nat (length sent) <= available).
  { exists []. rewrite app_nil_r. simpl. split; [done|lia]. }
  destruct logMessage as [m|]; [|exact Hnil].
  destruct (len =? 0); [exact Hnil|].
  unfold NonBlockingConsoleBackend.MIN_BUFFER_SPACE,
    NonBlockingConsoleBackend.TRUNCATION_MARKER_LEN.
  destruct (Z.ltb_spec available 20) as [Hsmall|Hbig]; [exact Hnil|].
  destruct (Z.leb_spec len available) as [Hfit|Hlong].
  - cbn [NonBlockingConsoleBackend.Serial_write snd]. eexists.
    split; [reflexivity|]. rewrite length_take. lia.
  - rewrite u32_small by (unfold is_u32; lia).
    rewrite (proj2 (Z.ltb_lt 0 (available - 5))) by lia.
    cbn [NonBlockingConsoleBackend.Serial_write snd].
    rewrite <- app_assoc. eexists. split; [reflexivity|].
    rewrite length_app, !length_take.
    change (length NonBlockingConsoleBackend.TRUNCATION_MARKER) with 5%nat.
    lia.
Qed.

Lemma write_within_capacity_witness :
  exists sent,
    snd (NonBlockingConsoleBackend.write 25 no_stats [] (Some long_tag) 40)
    = [] ++ sent
    /\ Z.of_nat (length sent) <= 25.
Proof.
  apply (write_within_capacity 25 no_stats [] (Some long_tag) 40).
  vm_compute. split; [discriminate | reflexivity].
Defined.

(** Every byte of a message is accounted for: of a non-empty message
    [NonBlockingConsoleBackend::write] sends the first [sent] bytes and adds
    the remaining [length - sent] to the dropped-byte counter; [sent] is 0
    exactly when the port is critical ([isBufferCritical]), and then the
    dropped-message counter goes up by one; a message sent in part gets the
    truncation marker and one more partial write. *)
Theorem write_accounts_for_every_byte
    (available : Z) (b : NonBlockingConsoleBackend.t) (tx m : list ascii) :
  0 < strlen m ->
  is_u32 available ->
  let result :=
    NonBlockingConsoleBackend.write available b tx (Some m) (strlen m) in
  exists sent dropped : Z,
    0 <= sent /\ 0 <= dropped /\ sent + dropped = strlen m
    /\ (sent = 0 <-> isBufferCritical available = true)
    /\ snd result
       = tx ++ take (Z.to_nat sent) m
            ++ (if (0 <? sent) && (sent <? strlen m)
                then NonBlockingConsoleBackend.TRUNCATION_MARKER else [])
    /\ NonBlockingConsoleBackend.droppedBytes (fst result)
       = (if dropped =? 0 then NonBlockingConsoleBackend.droppedBytes b
          else fetch_add (NonBlockingConsoleBackend.droppedBytes b) dropped)
    /\ NonBlockingConsoleBackend.droppedMessages (fst result)
       = (if sent =? 0
          then fetch_add (NonBlockingConsoleBackend.droppedMessages b) 1
          else NonBlockingConsoleBackend.droppedMessages b)
    /\ NonBlockingConsoleBackend.partialWrites (fst result)
       = (if (0 <? sent) && (sent <? strlen m)
          then fetch_add (NonBlockingConsoleBackend.partialWrites b) 1
          else NonBlockingConsoleBackend.partialWrites b).
Proof.
  intros Hlen Hav result. subst result.
  unfold NonBlockingConsoleBackend.write, isBufferCritical, is_u32 in *.
  rewrite (proj2 (Z.eqb_neq (strlen m) 0)) by lia.
  unfold NonBlockingConsoleBackend.MIN_BUFFER_SPACE,
    NonBlockingConsoleBackend.TRUNCATION_MARKER_LEN.
  destruct (Z.ltb_spec available 20) as [Hsmall|Hbig].
  - exists 0, (strlen m). cbn [fst snd NonBlockingConsoleBackend.drop_message
      NonBlockingConsoleBackend.droppedBytes
      NonBlockingConsoleBackend.droppedMessages
      NonBlockingConsoleBackend.partialWrites].
    rewrite (proj2 (Z.eqb_neq (strlen m) 0)) by lia.
    simpl. rewrite app_nil_r. repeat split; try lia; try done.
  - destruct (Z.leb_spec (strlen m) available) as [Hfit|Hlong].
    + exists (strlen m), 0.
      cbn [NonBlockingConsoleBackend.Serial_write fst snd].
      unfold NonBlockingConsoleBackend.track_unwritten.
      rewrite Z.ltb_irrefl, (proj2 (Z.ltb_lt 0 (strlen m))) by lia.
      rewrite (proj2 (Z.eqb_neq (strlen m) 0)) by lia.
      simpl. rewrite app_nil_r. repeat split; try lia; try done.
    + rewrite u32_small by (unfold is_u32; lia).
      rewrite (proj2 (Z.ltb_lt 0 (available - 5))) by lia.
      exists (available - 5), (strlen m - (available - 5)).
      cbn [NonBlockingConsoleBackend.Serial_write fst snd].
      unfold NonBlockingConsoleBackend.track_unwritten.
      rewrite (proj2 (Z.ltb_lt (available - 5) (strlen m))) by lia.
      rewrite (proj2 (Z.eqb_neq (strlen m - (available - 5)) 0)) by lia.
      rewrite (proj2 (Z.eqb_neq (available - 5) 0)) by lia.
      simpl. rewrite <- app_assoc. repeat split; try lia; try done.
      all: rewrite (proj2 (Z.ltb_lt 0 (available - 5))) by lia; reflexivity.
Qed.

Lemma write_accounts_for_every_byte_witness :
  exists sent dropped : Z,
    0 <= sent /\ 0 <= dropped /\ sent + dropped = strlen long_tag
    /\ (sent = 0 <-> isBufferCritical 25 = true)
    /\ snd (NonBlockingConsoleBackend.write 25 no_stats [] (Some long_tag)
              (strlen long_tag))
       = [] ++ take (Z.to_nat sent) long_tag
            ++ (if (0 <? sent) && (sent <? strlen long_tag)
                then NonBlockingConsoleBackend.TRUNCATION_MARKER else [])
    /\ NonBlockingConsoleBackend.droppedBytes
         (fst (NonBlockingConsoleBackend.write 25 no_stats [] (Some long_tag)
                 (strlen long_tag)))
       = (if dropped =? 0 then NonBlockingConsoleBackend.droppedBytes no_stats
          else fetch_add (NonBlockingConsoleBackend.droppedBytes no_stats) dropped)
    /\ NonBlockingConsoleBackend.droppedMessages
         (fst (NonBlockingConsoleBackend.write 25 no_stats [] (Some long_tag)
                 (strlen long_tag)))
       = (if sent =? 0
          then fetch_add (NonBlockingConsoleBackend.droppedMessages no_stats) 1
          else NonBlockingConsoleBackend.droppedMessages no_stats)
    /\ NonBlockingConsoleBackend.partialWrites
         (fst (NonBlockingConsoleBackend.write 25 no_stats [] (Some long_tag)
                 (strlen long_tag)))
       = (if (0 <? sent) && (sent <? strlen long_tag)
          then fetch_add (NonBlockingConsoleBackend.partialWrites no_stats) 1
          else NonBlockingConsoleBackend.partialWrites no_stats).
Proof.
  apply (write_accounts_for_every_byte 25 no_stats [] long_tag).
  - reflexivity.
  - vm_compute. split; [discriminate | reflexivity].
Defined.

Lemma u32_idemp (x : Z) : u32 (u32 x) = u32 x.
Proof. unfold u32. apply Z.mod_mod. lia. Qed.

Lemma u32_add_l (x y : Z) : u32 (u32 x + y) = u32 (x + y).
Proof. unfold u32. apply Zplus_mod_idemp_l. Qed.

(** The thread-safe backend keeps its counters consistent: the dropped
    message counter is always the sum of the contention counter and the
    port-full counter (as 32-bit counters), after any [write] and after
    [resetStats]. *)
Theorem thread_safe_counters_agree
    (e : ThreadSafeNonBlockingBackend.WriteEnv)
    (b : ThreadSafeNonBlockingBackend.t) (tx : list ascii)
    (logMessage : option (list ascii)) (len : Z) :
  ThreadSafeNonBlockingBackend.counters_agree b ->
  ThreadSafeNonBlockingBackend.counters_agree
    (fst (ThreadSafeNonBlockingBackend.write e b tx logMessage len))
  /\ ThreadSafeNonBlockingBackend.counters_agree
       (ThreadSafeNonBlockingBackend.resetStats b).
Proof.
  intros Hb. split; [|reflexivity].
  unfold ThreadSafeNonBlockingBackend.write.
  destruct (negb (ThreadSafeNonBlockingBackend.mutexInitialized_ e)); [done|].
  destruct logMessage as [m|]; [|done].
  destruct (len =? 0); [done|].
  destruct (negb (ThreadSafeNonBlockingBackend.writeMutex_ e)); [done|].
  unfold ThreadSafeNonBlockingBackend.counters_agree in *.
  destruct (negb (ThreadSafeNonBlockingBackend.take_write e)).
  - simpl. unfold fetch_add.
    rewrite u32_idemp, u32_add_l, <- (u32_add_l (_ b) 1), Hb, u32_add_l.
    f_equal. lia.
  - destruct (ThreadSafeNonBlockingBackend.available e
              <? ThreadSafeNonBlockingBackend.MIN_BUFFER_SPACE).
    + simpl. unfold fetch_add.
      rewrite u32_idemp, <- (u32_add_l (_ b) 1), Hb, u32_add_l.
      rewrite (Z.add_comm (ThreadSafeNonBlockingBackend.mutexContention_ b)
                 (u32 _)), u32_add_l.
      f_equal. lia.
    + cbn [NonBlockingConsoleBackend.Serial_write].
      destruct (_ <? len); simpl; exact Hb.
Qed.

Lemma thread_safe_counters_agree_witness :
  ThreadSafeNonBlockingBackend.counters_agree
    (fst (ThreadSafeNonBlockingBackend.write (free_port 10) no_drops []
            (Some long_tag) 40)).
Proof.
  apply (thread_safe_counters_agree (free_port 10) no_drops [] (Some long_tag) 40).
  reflexivity.
Defined.

Lemma ltb_choice_min (a b : Z) : (if a <? b then a else b) = Z.min a b.
Proof. destruct (Z.ltb_spec a b); lia. Qed.

(** What the thread-safe backend sends: never more than 127 bytes and never
    more than the port reported as available; when the mutex is free and
    the port has at least 20 bytes of room, a non-empty message is cut to
    the first [min(length, 127, available)] bytes without any marker, the
    rest is added to the dropped bytes and the message is not counted as
    dropped. *)
Theorem thread_safe_write_bounds
    (e : ThreadSafeNonBlockingBackend.WriteEnv)
    (b : ThreadSafeNonBlockingBackend.t) (tx m : list ascii) :
  0 < strlen m ->
  0 <= ThreadSafeNonBlockingBackend.available e ->
  let result :=
    ThreadSafeNonBlockingBackend.write e b tx (Some m) (strlen m) in
  let cut :=
    Z.min (Z.min (strlen m) 127) (ThreadSafeNonBlockingBackend.available e) in
  (exists sent,
     snd result = tx ++ sent
     /\ Z.of_nat (length sent) <= 127
     /\ Z.of_nat (length sent) <= ThreadSafeNonBlockingBackend.available e)
  /\ (ThreadSafeNonBlockingBackend.mutexInitialized_ e = true ->
      ThreadSafeNonBlockingBackend.writeMutex_ e = true ->
      ThreadSafeNonBlockingBackend.take_write e = true ->
      20 <= ThreadSafeNonBlockingBackend.available e ->
      snd result = tx ++ take (Z.to_nat cut) m
      /\ ThreadSafeNonBlockingBackend.droppedMessages_ (fst result)
         = ThreadSafeNonBlockingBackend.droppedMessages_ b
      /\ ThreadSafeNonBlockingBackend.droppedBytes_ (fst result)
         = (if cut <? strlen m
            then fetch_add (ThreadSafeNonBlockingBackend.droppedBytes_ b)
                   (strlen m - cut)
            else ThreadSafeNonBlockingBackend.droppedBytes_ b)).
Proof.
  intros Hlen Hav result cut.
  assert (Hcopy : (Z.to_nat cut <= Z.to_nat (Z.min (strlen m) 127))%nat)
    by (subst cut; lia).
  assert (Hsent : snd result = tx
                  \/ snd result = tx ++ take (Z.to_nat cut) m).
  { subst result. unfold ThreadSafeNonBlockingBackend.write.
    destruct (negb (ThreadSafeNonBlockingBackend.mutexInitialized_ e)); [by left|].
    destruct (strlen m =? 0); [by left|].
    destruct (negb (ThreadSafeNonBlockingBackend.writeMutex_ e)); [by left|].
    destruct (negb (ThreadSafeNonBlockingBackend.take_write e)); [by left|].
    destruct (_ <? ThreadSafeNonBlockingBackend.MIN_BUFFER_SPACE); [by left|].
    right. cbn [NonBlockingConsoleBackend.Serial_write].
    change (ThreadSafeNonBlockingBackend.LOCAL_BUFFER_SIZE - 1) with 127.
    rewrite !ltb_choice_min. fold cut.
    destruct (cut <? strlen m); cbn [snd]; rewrite take_take;
      f_equal; f_equal; lia. }
  split.
  - destruct Hsent as [-> | ->].
    + exists []. rewrite app_nil_r. simpl. split; [done|]. lia.
    + eexists. split; [reflexivity|]. rewrite length_take. subst cut. lia.
  - intros Hinit Hmutex Htake Hroom. subst result.
    unfold ThreadSafeNonBlockingBackend.write.
    rewrite Hinit, Hmutex, Htake. cbn [negb].
    rewrite (proj2 (Z.eqb_neq (strlen m) 0)) by lia.
    change ThreadSafeNonBlockingBackend.MIN_BUFFER_SPACE with 20.
    rewrite (proj2 (Z.ltb_ge _ 20) Hroom).
    cbn [NonBlockingConsoleBackend.Serial_write].
    change (ThreadSafeNonBlockingBackend.LOCAL_BUFFER_SIZE - 1) with 127.
    rewrite !ltb_choice_min. fold cut.
    destruct (cut <? strlen m); cbn [fst snd]; rewrite take_take;
      (split; [f_equal; f_equal; lia|split; reflexivity]).
Qed.

Lemma thread_safe_write_bounds_witness :
  exists sent,
    snd (ThreadSafeNonBlockingBackend.write (free_port 25) no_drops []
           (Some long_tag) (strlen long_tag))
    = [] ++ sent
    /\ Z.of_nat (length sent) <= 127
    /\ Z.of_nat (length sent)
       <= ThreadSafeNonBlockingBackend.available (free_port 25).
Proof.
  apply (thread_safe_write_bounds (free_port 25) no_drops [] long_tag).
  - reflexivity.
  - discriminate.
Defined.

(** ** Configuration *)

Lemma add_tag_configs_spec (entries : list (cstring * esp_log_level_t)) :
  forall (base : LoggerConfig.t),
  (LoggerConfig.tagConfigCount base + length entries
   <= LoggerConfig.MAX_TAG_CONFIGS)%nat ->
  length (LoggerConfig.tagConfigs base) = LoggerConfig.MAX_TAG_CONFIGS ->
  let c := add_tag_configs base entries in
  LoggerConfig.defaultLevel c = LoggerConfig.defaultLevel base
  /\ LoggerConfig.enableLogging c = LoggerConfig.enableLogging base
  /\ LoggerConfig.maxLogsPerSecond c = LoggerConfig.maxLogsPerSecond base
  /\ LoggerConfig.primaryBackend c = LoggerConfig.primaryBackend base
  /\ take (LoggerConfig.tagConfigCount c) (LoggerConfig.tagConfigs c)
     = take (LoggerConfig.tagConfigCount base) (LoggerConfig.tagConfigs base)
       ++ (tag_config_of <$> entries).
Proof.
  induction entries as [|e rest IH]; intros base Hroom Hlen; cbn zeta.
  - simpl. rewrite app_nil_r. done.
  - unfold add_tag_configs. cbn [foldl].
    fold (add_tag_configs
            (fst (LoggerConfig.addTagConfig base (Some e.1) e.2)) rest).
    cbn [length] in Hroom.
    assert (Hadd : LoggerConfig.addTagConfig base (Some e.1) e.2
                   = (LoggerConfig.Build
                        (LoggerConfig.defaultLevel base)
                        (LoggerConfig.enableLogging base)
                        (LoggerConfig.maxLogsPerSecond base)
                        (LoggerConfig.primaryBackend base)
                        (<[LoggerConfig.tagConfigCount base := tag_config_of e]>
                           (LoggerConfig.tagConfigs base))
                        (S (LoggerConfig.tagConfigCount base)), true)).
    { unfold LoggerConfig.addTagConfig.
      rewrite (proj2 (Nat.ltb_lt _ _)) by lia.
      rewrite bool_decide_true by done. reflexivity. }
    rewrite Hadd. cbn [fst].
    match goal with |- context [add_tag_configs ?b rest] =>
      specialize (IH b) end.
    cbn [LoggerConfig.tagConfigCount LoggerConfig.tagConfigs
         LoggerConfig.defaultLevel LoggerConfig.enableLogging
         LoggerConfig.maxLogsPerSecond LoggerConfig.primaryBackend] in IH.
    rewrite length_insert in IH.
    destruct IH as (H1 & H2 & H3 & H4 & H5); [lia|exact Hlen|].
    repeat split; try done.
    rewrite H5.
    rewrite (take_S_r _ _ (tag_config_of e))
      by (apply list_lookup_insert_eq; lia).
    rewrite take_insert_ge by lia.
    rewrite <- app_assoc. reflexivity.
Qed.

Lemma apply_tag_configs_spec (take_tag : nat -> bool)
    (entries : list (cstring * esp_log_level_t)) :
  forall (i : nat) (lg : Logger),
  table_wf lg ->
  Forall (fun e => (0 < length e.1 < CONFIG_LOG_SUBSCRIBER_TAG_SIZE)%nat)
    entries ->
  NoDup entries.*1 ->
  (tagLevelCount_ lg + length entries <= CONFIG_LOG_MAX_TAGS)%nat ->
  (forall k, take_tag k = true) ->
  let lg' := fst (apply_tag_configs take_tag i (tag_config_of <$> entries) lg) in
  table_wf lg'
  /\ globalLogLevel lg' = globalLogLevel lg
  /\ isLoggingEnabled lg' = isLoggingEnabled lg
  /\ tagMutex lg' = tagMutex lg
  /\ maxLogsPerSecond lg' = maxLogsPerSecond lg
  /\ (forall t l, (t, l) ∈ entries ->
        stored_level (live_tags lg') t = Some l)
  /\ (forall t, t ∉ entries.*1 ->
        stored_level (live_tags lg') t = stored_level (live_tags lg) t).
Proof.
  induction entries as [|[t0 l0] rest IH]; intros i lg Hok Hshort Hnd Hroom Htake;
    cbn zeta.
  - simpl. split; [exact Hok|]. repeat split; try done.
    intros t l Hin. by apply elem_of_nil in Hin.
  - cbn [fmap list_fmap apply_tag_configs tag_config_of LoggerConfig.tag
         LoggerConfig.level fst snd].
    rewrite Htake.
    apply Forall_cons in Hshort as [Hlen0 Hshort]. cbn [fst] in Hlen0.
    cbn [fmap list_fmap fst] in Hnd. apply NoDup_cons in Hnd as [Hnew Hnd].
    cbn [length] in Hroom.
    pose proof (setTagLevel_wf true lg (Some t0) l0 Hok) as Hok1.
    pose proof (setTagLevel_keeps_settings true lg (Some t0) l0)
      as (Hg1 & He1 & Hm1).
    pose proof (setTagLevel_count true lg (Some t0) l0) as (Hc1 & Hr1).
    assert (Hfree : (tagLevelCount_ lg < CONFIG_LOG_MAX_TAGS)%nat) by lia.
    pose proof (setTagLevel_sets_override lg t0 l0 Hok Hlen0
                  (or_intror Hfree)) as Hset.
    pose proof (fun t' => setTagLevel_keeps_override true lg t0 t' l0 Hok
                            (proj2 Hlen0)) as Hkeep.
    destruct (setTagLevel true lg (Some t0) l0) as [lg1 ev1].
    cbn [fst] in *.
    assert (Hroom1 : (tagLevelCount_ lg1 + length rest
                      <= CONFIG_LOG_MAX_TAGS)%nat) by lia.
    specialize (IH (S i) lg1 Hok1 Hshort Hnd Hroom1 Htake).
    cbn zeta in IH.
    change (list_fmap _ _ tag_config_of rest) with (tag_config_of <$> rest).
    destruct (apply_tag_configs take_tag (S i) (tag_config_of <$> rest) lg1)
      as [lg2 ev2].
    cbn [fst] in *.
    destruct IH as (Hok2 & Hg2 & He2 & Hm2 & Hr2 & Hin2 & Hout2).
    split; [exact Hok2|]. repeat split; try congruence.
    + intros t l Hin. apply elem_of_cons in Hin as [[= -> ->]|Hin].
      * rewrite (Hout2 t0 Hnew). exact Hset.
      * by apply Hin2.
    + intros t Hout. cbn [fmap list_fmap fst] in Hout.
      apply not_elem_of_cons in Hout as [Hne Hout].
      rewrite (Hout2 t Hout). by apply Hkeep.
Qed.

(** [configure] applies what the configuration says, on every table of the
    shape the code keeps.  For a configuration filled by [addTagConfig] on
    an empty configuration with distinct tags of 1 to 31 characters, a
    logger whose tag table has room for them, and the tag lock in place and
    obtained at every call: afterwards the global level, the enable flag and
    the rate limit are the configured ones, every configured tag has its
    configured level, and a tag that is not configured is answered as if
    only the global level had been set. *)
Theorem configure_applies_config
    (take_backend : bool) (take_tag : nat -> bool) (made : nat)
    (lg : Logger) (base : LoggerConfig.t)
    (entries : list (cstring * esp_log_level_t)) :
  table_wf lg ->
  tagMutex lg = true ->
  LoggerConfig.tagConfigCount base = 0%nat ->
  length (LoggerConfig.tagConfigs base) = LoggerConfig.MAX_TAG_CONFIGS ->
  Forall (fun e => (0 < length e.1 < CONFIG_LOG_SUBSCRIBER_TAG_SIZE)%nat)
    entries ->
  NoDup entries.*1 ->
  (tagLevelCount_ lg + length entries <= CONFIG_LOG_MAX_TAGS)%nat ->
  (forall k, take_tag k = true) ->
  let lg' :=
    fst (configure take_backend take_tag made lg
           (add_tag_configs base entries)) in
  globalLogLevel lg' = LoggerConfig.defaultLevel base
  /\ isLoggingEnabled lg' = LoggerConfig.enableLogging base
  /\ maxLogsPerSecond lg' = LoggerConfig.maxLogsPerSecond base
  /\ (forall t l, (t, l) ∈ entries -> getTagLevel true lg' (Some t) = l)
  /\ (forall t, t ∉ entries.*1 ->
        getTagLevel true lg' (Some t)
        = getTagLevel true (setLogLevel lg (LoggerConfig.defaultLevel base))
            (Some t)).
Proof.
  intros Hok Hmx Hzero Hsize Hshort Hnd Hroom Htake lg'.
  assert (Hfits : (LoggerConfig.tagConfigCount base + length entries
                   <= LoggerConfig.MAX_TAG_CONFIGS)%nat).
  { rewrite Hzero. unfold LoggerConfig.MAX_TAG_CONFIGS.
    unfold CONFIG_LOG_MAX_TAGS in Hroom. lia. }
  destruct (add_tag_configs_spec entries base Hfits Hsize)
    as (Hd & He & Hr & Hb & Htags).
  rewrite Hzero, take_0, app_nil_l in Htags.
  subst lg'. unfold configure. rewrite Htags, Hd, He, Hr.
  set (lg4 := match LoggerConfig.primaryBackend _ with
              | LoggerConfig.CUSTOM => _
              | _ => _
              end).
  assert (H4 : tagLevels_ lg4 = tagLevels_ lg
               /\ tagLevelCount_ lg4 = tagLevelCount_ lg
               /\ tagMutex lg4 = tagMutex lg
               /\ globalLogLevel lg4 = LoggerConfig.defaultLevel base
               /\ isLoggingEnabled lg4 = LoggerConfig.enableLogging base
               /\ maxLogsPerSecond lg4 = LoggerConfig.maxLogsPerSecond base).
  { subst lg4. unfold setBackend.
    destruct (LoggerConfig.primaryBackend _); try done;
      cbn [setMaxLogsPerSecond with_rate backendMutex enableLogging
           with_enabled setLogLevel with_level];
      destruct (negb (backendMutex lg)); try done;
      destruct take_backend; done. }
  destruct H4 as (Ht4 & Hc4 & Hm4 & Hg4 & He4 & Hr4).
  assert (Hlive : live_tags lg4 = live_tags lg)
    by (unfold live_tags; by rewrite Ht4, Hc4).
  assert (Hok4 : table_wf lg4)
    by (unfold table_wf; by rewrite Hlive, Ht4, Hc4).
  rewrite <- Hc4 in Hroom.
  destruct (apply_tag_configs_spec take_tag entries 0%nat lg4 Hok4 Hshort Hnd
              Hroom Htake)
    as (Hok' & Hg' & He' & Hm' & Hr' & Hin & Hout).
  set (lg' := fst (apply_tag_configs take_tag 0 (tag_config_of <$> entries) lg4))
    in *.
  destruct Hok' as (_ & _ & Hfit').
  assert (Hmx' : tagMutex lg' = true) by congruence.
  repeat split; try congruence.
  - intros t l Hel.
    rewrite (getTagLevel_locked lg' t Hfit' Hmx'), (Hin t l Hel). reflexivity.
  - intros t Hel.
    rewrite (getTagLevel_locked lg' t Hfit' Hmx'), (Hout t Hel), Hlive.
    rewrite (getTagLevel_locked (setLogLevel lg (LoggerConfig.defaultLevel base))
               t (proj2 (proj2 Hok)) Hmx).
    change (live_tags (setLogLevel lg (LoggerConfig.defaultLevel base)))
      with (live_tags lg).
    cbn [setLogLevel with_level globalLogLevel]. congruence.
Qed.

Lemma configure_applies_config_witness :
  getTagLevel true
    (fst (configure true (fun _ => true) 1 started_logger production_quiet))
    (Some QUIET) = ESP_LOG_ERROR
  /\ globalLogLevel
       (fst (configure true (fun _ => true) 1 started_logger production_quiet))
     = ESP_LOG_WARN.
Proof.
  destruct (configure_applies_config true (fun _ => true) 1 started_logger
              LoggerConfig.createProduction [(QUIET, ESP_LOG_ERROR)])
    as (Hg & _ & _ & Hin & _).
  - apply new_Logger_table_wf.
  - reflexivity.
  - reflexivity.
  - reflexivity.
  - apply Forall_singleton. vm_compute. lia.
  - apply NoDup_singleton.
  - vm_compute. lia.
  - reflexivity.
  - split; [|exact Hg]. apply Hin. apply list_elem_of_here.
Defined.

(** ** The C interface *)

(** The global check of the C interface and the logger's filter differ on
    one level only: [custom_log_is_enabled] lets [ESP_LOG_NONE] through
    whenever logging is on, while the filter (and with it
    [custom_log_is_enabled_for_tag]) refuses it for every tag; on every
    other level the global check is the filter for a null tag. *)
Theorem global_check_lets_NONE_through (take_ok : bool) (lg : Logger)
    (level : esp_log_level_t) (tag : option cstring) :
  custom_log_is_enabled lg level
  = isLevelEnabledForTag take_ok lg None level
    || (isLoggingEnabled lg && is_none level)
  /\ custom_log_is_enabled lg ESP_LOG_NONE = isLoggingEnabled lg
  /\ custom_log_is_enabled_for_tag take_ok lg ESP_LOG_NONE tag = false.
Proof.
  unfold custom_log_is_enabled, custom_log_is_enabled_for_tag,
    isLevelEnabledForTag.
  destruct (isLoggingEnabled lg); cbn [negb andb orb].
  - repeat split.
    + destruct level; cbn [is_none orb]; try by rewrite orb_false_r.
      by destruct (globalLogLevel lg).
    + by destruct (globalLogLevel lg).
  - repeat split.
Qed.
